(** * A shallow embedding of the chess rules engine [chess.py] (class [Chess])

    The 8x8 numpy [uint8] board is a list of eight rows of [Z] values;
    numpy indexing (negative indices wrap, others raise [IndexError]) is
    written out in [bget] and [bset].  Python exceptions are the
    constructors of [exn]; the state of a [Chess] object is the flat record
    [state], one field per attribute; methods that mutate [self] live in the
    state/exception monad [M], where a raised exception keeps the state
    reached at the point of the raise. *)

From Stdlib Require Import ZArith String Ascii Bool Lia.
From Stdlib Require Import Decimal DecimalString DecimalN.
From Stdlib Require Import List.
Import ListNotations.

Open Scope Z_scope.

(** ** Exceptions and the result type *)

Inductive exn : Type :=
| NotYourTurn (msg : string)
| NoPiecePresent (msg : string)
| IllegalMove (msg : string)
| InvalidSquare (msg : string)
| DrawException (msg : string)
| CheckmateException (msg : string)
| ChessException (msg : string)
| IndexError
| KeyError
| ValueError
| TypeError.

Inductive res (A : Type) : Type :=
| Ok (a : A)
| Err (e : exn).
Arguments Ok {A} a.
Arguments Err {A} e.

Definition rbind {A B} (r : res A) (k : A -> res B) : res B :=
  match r with Ok a => k a | Err e => Err e end.

Notation "'let?' x ':=' r 'in' k" := (rbind r (fun x => k))
  (at level 200, x name, r at level 100, k at level 200).

(** ** Pieces and colours: [Piece] and [Colour] are [IntFlag]s *)

Inductive Piece : Type := PAWN | KNIGHT | BISHOP | ROOK | QUEEN | KING.
Inductive Colour : Type := WHITE | BLACK.

Definition piece_value (p : Piece) : Z :=
  match p with
  | PAWN => 1 | KNIGHT => 2 | BISHOP => 4 | ROOK => 8 | QUEEN => 16 | KING => 32
  end.

Definition colour_value (c : Colour) : Z :=
  match c with WHITE => 0 | BLACK => 64 end.

Definition opposite (c : Colour) : Colour :=
  match c with WHITE => BLACK | BLACK => WHITE end.

(** [Colour.__str__] *)
Definition colour_str (c : Colour) : string :=
  match c with WHITE => "White" | BLACK => "Black" end.

Definition piece_eqb (a b : Piece) : bool := piece_value a =? piece_value b.
Definition colour_eqb (a b : Colour) : bool := colour_value a =? colour_value b.

(** The lookup [for k, v in Piece.__members__.items(): if v == value]. *)
Definition piece_of_value (v : Z) : option Piece :=
  find (fun p => piece_value p =? v) [PAWN; KNIGHT; BISHOP; ROOK; QUEEN; KING].

(** [Chess.val_to_piece] *)
Definition val_to_piece (value : Z) : res (option (Piece * Colour)) :=
  if value =? 0 then Ok None
  else
    let c := if value >? 64 then BLACK else WHITE in
    match piece_of_value (value - colour_value c) with
    | Some p => Ok (Some (p, c))
    | None => Err (ChessException "Invalid piece value")
    end.

(** [Chess.piece_to_val] *)
Definition piece_to_val (p : Piece) (c : Colour) : Z := piece_value p + colour_value c.

(** [val_to_piece(v)[1]]: subscripting [None] would be a [TypeError]. *)
Definition piece_colour (v : Z) : res Colour :=
  let? p := val_to_piece v in
  match p with Some (_, c) => Ok c | None => Err TypeError end.

(** The dictionary [pieceValues] and its reverse [valuePieces]. *)
Definition pieceValues : list (ascii * Z) :=
  [("P"%char, 1); ("N"%char, 2); ("B"%char, 4); ("R"%char, 8); ("Q"%char, 16);
   ("K"%char, 32); ("p"%char, 65); ("n"%char, 66); ("b"%char, 68);
   ("r"%char, 72); ("q"%char, 80); ("k"%char, 96)].

Definition lookup_piece_letter (ch : ascii) : option Z :=
  option_map snd (find (fun kv => Ascii.eqb (fst kv) ch) pieceValues).

Definition valuePieces (v : Z) : option ascii :=
  option_map fst (find (fun kv => snd kv =? v) pieceValues).

(** ** Squares and the board *)

Definition square : Type := (Z * Z)%type.

Definition sq_eqb (a b : square) : bool := (fst a =? fst b) && (snd a =? snd b).

Definition mem_sq (x : square) (l : list square) : bool := existsb (sq_eqb x) l.

(** [list.remove]: drop the first occurrence. *)
Fixpoint remove_first (x : square) (l : list square) : list square :=
  match l with
  | [] => []
  | y :: l' => if sq_eqb x y then l' else y :: remove_first x l'
  end.

(** numpy index into an axis of length 8: [-8..-1] wrap, others raise. *)
Definition np_idx (i : Z) : option nat :=
  if (-8 <=? i) && (i <=? 7) then Some (Z.to_nat (if i <? 0 then i + 8 else i))
  else None.

Definition board_t : Type := list (list Z).

(** [self.board[sq]] *)
Definition bget (b : board_t) (sq : square) : res Z :=
  match np_idx (fst sq), np_idx (snd sq) with
  | Some r, Some c =>
      match nth_error b r with
      | Some row => match nth_error row c with Some v => Ok v | None => Err IndexError end
      | None => Err IndexError
      end
  | _, _ => Err IndexError
  end.

Fixpoint list_set {A} (l : list A) (n : nat) (x : A) : list A :=
  match l, n with
  | [], _ => []
  | _ :: l', O => x :: l'
  | y :: l', S n' => y :: list_set l' n' x
  end.

(** [self.board[sq] = v] on a [uint8] array *)
Definition bset (b : board_t) (sq : square) (v : Z) : res board_t :=
  match np_idx (fst sq), np_idx (snd sq) with
  | Some r, Some c =>
      match nth_error b r with
      | Some row =>
          match nth_error row c with
          | Some _ => Ok (list_set b r (list_set row c (v mod 256)))
          | None => Err IndexError
          end
      | None => Err IndexError
      end
  | _, _ => Err IndexError
  end.

(** [np.zeros((8, 8), dtype=np.uint8)] *)
Definition zeros_board : board_t := repeat (repeat 0 8) 8.

(** Python [range(lo, hi)] *)
Definition py_range (lo hi : Z) : list Z :=
  map (fun k => lo + Z.of_nat k) (seq 0 (Z.to_nat (hi - lo))).

(** The cells of the board in row-major order, as [np.where] lists them. *)
Definition cells (b : board_t) : list (square * Z) :=
  concat (map (fun '(i, row) => map (fun '(j, v) => ((Z.of_nat i, Z.of_nat j), v))
                                   (combine (seq 0 (length row)) row))
              (combine (seq 0 (length b)) b)).

(** [np.transpose(np.where(cond(board)))] *)
Definition np_where (cond : Z -> bool) (b : board_t) : list square :=
  map fst (filter (fun cv => cond (snd cv)) (cells b)).

Definition in_range (sq : square) : bool :=
  (0 <=? fst sq) && (fst sq <=? 7) && (0 <=? snd sq) && (snd sq <=? 7).

(** ** The engine state: the attributes of a [Chess] object *)

Record state : Type := mkState {
  board : board_t;
  moves : list (Z * string);            (** dict: half-move index -> FEN *)
  toMove : Colour;
  enPassantTarget : option square;
  long_castle : bool * bool;            (** (WHITE, BLACK) *)
  short_castle : bool * bool;
  halfMoveClock : Z;
  moveCounter : Z;
  lastFen : string }.

Definition cget (d : bool * bool) (c : Colour) : bool :=
  match c with WHITE => fst d | BLACK => snd d end.

Definition cset (d : bool * bool) (c : Colour) (v : bool) : bool * bool :=
  match c with WHITE => (v, snd d) | BLACK => (fst d, v) end.

(** The class attributes a fresh [Chess()] starts from. *)
Definition init_state : state :=
  mkState zeros_board [] WHITE None (true, true) (true, true) 0 1 "".

(** Dictionary assignment: an existing key keeps its place. *)
Fixpoint dict_set (k : Z) (v : string) (d : list (Z * string)) : list (Z * string) :=
  match d with
  | [] => [(k, v)]
  | (k', v') :: d' => if k' =? k then (k, v) :: d' else (k', v') :: dict_set k v d'
  end.

Fixpoint dict_get (k : Z) (d : list (Z * string)) : option string :=
  match d with
  | [] => None
  | (k', v') :: d' => if k' =? k then Some v' else dict_get k d'
  end.

(** The property [_half_move_counter] *)
Definition half_move_counter (st : state) : Z :=
  match toMove st with
  | WHITE => (moveCounter st - 1) * 2
  | BLACK => (moveCounter st - 1) * 2 + 1
  end.

(** Field updates used by the stateful methods. *)
Definition set_board (st : state) (b : board_t) : state :=
  mkState b (moves st) (toMove st) (enPassantTarget st) (long_castle st)
          (short_castle st) (halfMoveClock st) (moveCounter st) (lastFen st).
Definition set_moves (st : state) (m : list (Z * string)) : state :=
  mkState (board st) m (toMove st) (enPassantTarget st) (long_castle st)
          (short_castle st) (halfMoveClock st) (moveCounter st) (lastFen st).
Definition set_toMove (st : state) (c : Colour) : state :=
  mkState (board st) (moves st) c (enPassantTarget st) (long_castle st)
          (short_castle st) (halfMoveClock st) (moveCounter st) (lastFen st).
Definition set_ep (st : state) (e : option square) : state :=
  mkState (board st) (moves st) (toMove st) e (long_castle st)
          (short_castle st) (halfMoveClock st) (moveCounter st) (lastFen st).
Definition set_long (st : state) (d : bool * bool) : state :=
  mkState (board st) (moves st) (toMove st) (enPassantTarget st) d
          (short_castle st) (halfMoveClock st) (moveCounter st) (lastFen st).
Definition set_short (st : state) (d : bool * bool) : state :=
  mkState (board st) (moves st) (toMove st) (enPassantTarget st) (long_castle st)
          d (halfMoveClock st) (moveCounter st) (lastFen st).
Definition set_hmc (st : state) (n : Z) : state :=
  mkState (board st) (moves st) (toMove st) (enPassantTarget st) (long_castle st)
          (short_castle st) n (moveCounter st) (lastFen st).
Definition set_counter (st : state) (n : Z) : state :=
  mkState (board st) (moves st) (toMove st) (enPassantTarget st) (long_castle st)
          (short_castle st) (halfMoveClock st) n (lastFen st).
Definition set_lastFen (st : state) (s : string) : state :=
  mkState (board st) (moves st) (toMove st) (enPassantTarget st) (long_castle st)
          (short_castle st) (halfMoveClock st) (moveCounter st) s.

(** ** The state/exception monad *)

Definition M (A : Type) : Type := state -> res A * state.

Definition ret {A} (a : A) : M A := fun st => (Ok a, st).
Definition raise {A} (e : exn) : M A := fun st => (Err e, st).
Definition mbind {A B} (m : M A) (k : A -> M B) : M B :=
  fun st => match m st with
            | (Ok a, st') => k a st'
            | (Err e, st') => (Err e, st')
            end.
Definition gets {A} (f : state -> res A) : M A := fun st => (f st, st).
Definition modify (f : state -> state) : M unit := fun st => (Ok tt, f st).

Notation "x <- m ;; k" := (mbind m (fun x => k))
  (at level 61, m at next level, right associativity).
Notation "m ;;; k" := (mbind m (fun _ => k))
  (at level 61, right associativity).

(** [self.board[sq] = v] as a statement *)
Definition m_bset (sq : square) (v : Z) : M unit :=
  fun st => match bset (board st) sq v with
            | Ok b => (Ok tt, set_board st b)
            | Err e => (Err e, st)
            end.

(** ** Strings: the parts of [str] the notation codec uses *)

Local Open Scope string_scope.

(** [s.split(sep)] with an explicit one-character separator *)
Fixpoint split_on (sep : ascii) (s : string) : list string :=
  match s with
  | EmptyString => [EmptyString]
  | String ch rest =>
      let parts := split_on sep rest in
      if Ascii.eqb ch sep then EmptyString :: parts
      else match parts with
           | p :: ps => String ch p :: ps
           | [] => [String ch EmptyString]
           end
  end.

(** The ASCII characters [str.isspace] accepts. *)
Definition is_space (ch : ascii) : bool :=
  existsb (Nat.eqb (nat_of_ascii ch)) [9; 10; 11; 12; 13; 28; 29; 30; 31; 32]%nat.

Fixpoint lstrip (s : string) : string :=
  match s with
  | EmptyString => EmptyString
  | String ch rest => if is_space ch then lstrip rest else s
  end.

Fixpoint rstrip (s : string) : string :=
  match s with
  | EmptyString => EmptyString
  | String ch rest =>
      let r := rstrip rest in
      match r with
      | EmptyString => if is_space ch then EmptyString else String ch EmptyString
      | _ => String ch r
      end
  end.

(** [str.strip()] *)
Definition strip (s : string) : string := rstrip (lstrip s).

Fixpoint has_char (ch : ascii) (s : string) : bool :=
  match s with
  | EmptyString => false
  | String c rest => Ascii.eqb c ch || has_char ch rest
  end.

Definition is_digit (ch : ascii) : bool :=
  (48 <=? nat_of_ascii ch)%nat && (nat_of_ascii ch <=? 57)%nat.

(** Underscores of an [int()] literal: only single ones between digits. *)
Fixpoint underscores_ok (prev_digit : bool) (s : string) : bool :=
  match s with
  | EmptyString => prev_digit
  | String ch rest =>
      if Ascii.eqb ch "_" then
        prev_digit && match rest with String d _ => is_digit d | EmptyString => false end
        && underscores_ok false rest
      else underscores_ok (is_digit ch) rest
  end.

Fixpoint drop_underscores (s : string) : string :=
  match s with
  | EmptyString => EmptyString
  | String ch rest =>
      if Ascii.eqb ch "_" then drop_underscores rest else String ch (drop_underscores rest)
  end.

(** [int(s)] on an ASCII string *)
Definition py_int (s : string) : res Z :=
  let s := strip s in
  let '(neg, body) :=
    match s with
    | String ch rest =>
        if Ascii.eqb ch "-" then (true, rest)
        else if Ascii.eqb ch "+" then (false, rest) else (false, s)
    | EmptyString => (false, s)
    end in
  if underscores_ok false body then
    match NilEmpty.uint_of_string (drop_underscores body) with
    | Some Nil | None => Err ValueError
    | Some u => let n := Z.of_N (N.of_uint u) in Ok (if neg then (- n)%Z else n)
    end
  else Err ValueError.

(** [str(n)] *)
Definition str_of_Z (z : Z) : string :=
  if (z <? 0)%Z then String "-" (NilEmpty.string_of_uint (N.to_uint (Z.to_N (- z)%Z)))
  else NilEmpty.string_of_uint (N.to_uint (Z.to_N z)).

(** The dictionaries [files] and [ranks]. *)
Definition files_tbl : list (ascii * Z) :=
  [("A"%char, 0); ("B"%char, 1); ("C"%char, 2); ("D"%char, 3);
   ("E"%char, 4); ("F"%char, 5); ("G"%char, 6); ("H"%char, 7)].
Definition ranks_tbl : list (ascii * Z) :=
  [("1"%char, 0); ("2"%char, 1); ("3"%char, 2); ("4"%char, 3);
   ("5"%char, 4); ("6"%char, 5); ("7"%char, 6); ("8"%char, 7)].

Definition tbl_get (t : list (ascii * Z)) (ch : ascii) : option Z :=
  option_map snd (find (fun kv => Ascii.eqb (fst kv) ch) t).

(** [[k for k, v in t.items() if v == x][0]]: [IndexError] when empty. *)
Definition tbl_key (t : list (ascii * Z)) (x : Z) : res ascii :=
  match find (fun kv => (snd kv =? x)%Z) t with
  | Some kv => Ok (fst kv)
  | None => Err IndexError
  end.

(** [str.upper] on one ASCII character *)
Definition upper (ch : ascii) : ascii :=
  let n := nat_of_ascii ch in
  if (97 <=? n)%nat && (n <=? 122)%nat then ascii_of_nat (n - 32) else ch.

(** [Chess.str_to_coor] *)
Definition str_to_coor (square_not : string) : res square :=
  match square_not with
  | EmptyString => Err IndexError
  | String a rest =>
      match tbl_get files_tbl (upper a) with
      | None => Err (InvalidSquare ("Invalid square: " ++ square_not))
      | Some file =>
          match rest with
          | EmptyString => Err IndexError
          | String b _ =>
              match tbl_get ranks_tbl b with
              | None => Err (InvalidSquare ("Invalid square: " ++ square_not))
              | Some rank => Ok (rank, file)
              end
          end
      end
  end.

(** [Chess.coor_to_str] *)
Definition coor_to_str (coordinate : square) : res string :=
  let? rank := tbl_key ranks_tbl (fst coordinate) in
  let? file := tbl_key files_tbl (snd coordinate) in
  Ok (String file (String rank EmptyString)).

Local Close Scope string_scope.

(** ** Pseudo-legal move generation *)

(** Keep the elements for which [f] answers true, left to right; the first
    exception aborts the loop. *)
Fixpoint filter_res {A} (f : A -> res bool) (l : list A) : res (list A) :=
  match l with
  | [] => Ok []
  | x :: l' =>
      let? keep := f x in
      let? rest := filter_res f l' in
      Ok (if keep then x :: rest else rest)
  end.

Fixpoint flat_map_res {A B} (f : A -> res (list B)) (l : list A) : res (list B) :=
  match l with
  | [] => Ok []
  | x :: l' =>
      let? ys := f x in
      let? rest := flat_map_res f l' in
      Ok (ys ++ rest)
  end.

Fixpoint exists_res {A} (f : A -> res bool) (l : list A) : res bool :=
  match l with
  | [] => Ok false
  | x :: l' => let? b := f x in if b then Ok true else exists_res f l'
  end.

(** [Chess._pawn_fields], lines up to the en passant test. *)
Definition pawn_base (st : state) (start : square) (colour : Colour) : res (list square) :=
  let '(in_front, in_front2, start_rank) :=
    match colour with
    | WHITE => ((fst start + 1, snd start), (fst start + 2, snd start), 1)
    | BLACK => ((fst start - 1, snd start), (fst start - 2, snd start), 6)
    end in
  let? v := bget (board st) in_front in
  let? fields :=
    (if v =? 0 then
       if fst start =? start_rank then
         let? v2 := bget (board st) in_front2 in
         Ok (if v2 =? 0 then [in_front; in_front2] else [in_front])
       else Ok [in_front]
     else Ok []) in
  (* Check the diagonals for opponent pieces *)
  let diag1 := (fst in_front, snd in_front - 1) in
  let diag2 := (fst in_front, snd in_front + 1) in
  let? fields :=
    (if snd in_front >? 0 then
       let? d := bget (board st) diag1 in
       if d >? 0 then
         let? c := piece_colour d in
         Ok (if colour_eqb c colour then fields else fields ++ [diag1])
       else Ok fields
     else Ok fields) in
  if snd in_front <? 7 then
    let? d := bget (board st) diag2 in
    if d >? 0 then
      let? c := piece_colour d in
      Ok (if colour_eqb c colour then fields else fields ++ [diag2])
    else Ok fields
  else Ok fields.

(** The diagonals of a pawn on [start]. *)
Definition pawn_diags (start : square) (colour : Colour) : square * square :=
  let r := match colour with WHITE => fst start + 1 | BLACK => fst start - 1 end in
  ((r, snd start - 1), (r, snd start + 1)).

(** [Chess._pawn_fields] *)
Definition pawn_fields (st : state) (start : square) (colour : Colour) : res (list square) :=
  let? fields := pawn_base st start colour in
  (* En passant *)
  let '(diag1, diag2) := pawn_diags start colour in
  match enPassantTarget st with
  | Some e => Ok (if sq_eqb e diag1 || sq_eqb e diag2 then fields ++ [e] else fields)
  | None => Ok fields
  end.

Definition knights_move : list square :=
  [(2, 1); (2, -1); (-2, 1); (-2, -1); (1, 2); (-1, 2); (1, -2); (-1, -2)].

(** [Chess._knight_fields] *)
Definition knight_fields (st : state) (start : square) (colour : Colour) : res (list square) :=
  filter_res
    (fun tar =>
       if negb (in_range tar) then Ok false
       else
         let? v := bget (board st) tar in
         if v >? 0 then
           let? c := piece_colour v in Ok (negb (colour_eqb c colour))
         else Ok true)
    (map (fun k => (fst start + fst k, snd start + snd k)) knights_move).

(** One [while True] ray of [_bishop_fields] / [_rook_fields]: a ray leaves
    the 8x8 range after at most eight steps, so eight iterations suffice. *)
Fixpoint ray (fuel : nat) (st : state) (colour : Colour) (d : square) (cur : square)
  : res (list square) :=
  match fuel with
  | O => Ok []
  | S fuel' =>
      let cur := (fst cur + fst d, snd cur + snd d) in
      if negb (in_range cur) then Ok []
      else
        let? tar_val := bget (board st) cur in
        if tar_val >? 0 then
          let? c := piece_colour tar_val in
          Ok (if colour_eqb c colour then [] else [cur])
        else
          let? rest := ray fuel' st colour d cur in
          Ok (cur :: rest)
  end.

Definition bishop_dirs : list square := [(1, 1); (1, -1); (-1, 1); (-1, -1)].
Definition rook_dirs : list square := [(0, 1); (0, -1); (1, 0); (-1, 0)].

(** [Chess._bishop_fields] *)
Definition bishop_fields (st : state) (start : square) (colour : Colour) : res (list square) :=
  flat_map_res (fun d => ray 8 st colour d start) bishop_dirs.

(** [Chess._rook_fields] *)
Definition rook_fields (st : state) (start : square) (colour : Colour) : res (list square) :=
  flat_map_res (fun d => ray 8 st colour d start) rook_dirs.

(** [Chess._king_fields] *)
Definition king_fields (st : state) (start : square) (colour : Colour) : res (list square) :=
  filter_res
    (fun ij =>
       let? tar_val := bget (board st) ij in
       if tar_val >? 0 then
         let? c := piece_colour tar_val in Ok (negb (colour_eqb c colour))
       else Ok true)
    (flat_map (fun i => map (fun j => (i, j))
                            (py_range (Z.max (snd start - 1) 0) (Z.min (snd start + 2) 8)))
              (py_range (Z.max (fst start - 1) 0) (Z.min (fst start + 2) 8))).

(** [Chess._reachable_fields] *)
Definition reachable_fields (st : state) (coordinate : square) : res (list square) :=
  let? v := bget (board st) coordinate in
  let? p := val_to_piece v in
  match p with
  | None => Ok []
  | Some (PAWN, c) => pawn_fields st coordinate c
  | Some (KNIGHT, c) => knight_fields st coordinate c
  | Some (BISHOP, c) => bishop_fields st coordinate c
  | Some (ROOK, c) => rook_fields st coordinate c
  | Some (QUEEN, c) =>
      let? fields := bishop_fields st coordinate c in
      let? more := rook_fields st coordinate c in
      Ok (fields ++ more)
  | Some (KING, c) => king_fields st coordinate c
  end.

(** [Chess._get_pieces_by_colour] *)
Definition get_pieces_by_colour (st : state) (colour : Colour) : list square :=
  np_where (fun v => (colour_value colour <? v) && (v <? colour_value colour + 64)) (board st).

(** [Chess.in_check]: the king is the first match of [np.where] in
    row-major order; with no king, [i[0]] raises [IndexError]. *)
Definition in_check (st : state) (colour : Colour) : res bool :=
  match np_where (fun v => v =? piece_value KING + colour_value colour) (board st) with
  | [] => Err IndexError
  | king_coor :: _ =>
      exists_res
        (fun c => let? rf := reachable_fields st c in Ok (mem_sq king_coor rf))
        (get_pieces_by_colour st (opposite colour))
  end.

(** ** The notation codec *)

Local Open Scope string_scope.

(** One rank of [Chess.get_fen]: runs of empty squares become a digit. *)
Fixpoint render_row (zeros : Z) (row : list Z) : string :=
  match row with
  | [] => if (zeros >? 0)%Z then str_of_Z zeros else ""
  | v :: row' =>
      match valuePieces v with
      | Some ch =>
          (if (zeros >? 0)%Z then str_of_Z zeros else "") ++ String ch (render_row 0 row')
      | None => render_row (zeros + 1)%Z row'
      end
  end.

Definition castling_str (st : state) : string :=
  let s := (if cget (short_castle st) WHITE then "K" else "")
        ++ (if cget (long_castle st) WHITE then "Q" else "")
        ++ (if cget (short_castle st) BLACK then "k" else "")
        ++ (if cget (long_castle st) BLACK then "q" else "") in
  if String.eqb s "" then "-" else s.

(** [Chess.get_fen] *)
Definition get_fen (st : state) : res string :=
  let board_str := String.concat "/" (map (render_row 0) (rev (board st))) in
  let side := match toMove st with WHITE => "w" | BLACK => "b" end in
  let? ep := match enPassantTarget st with
             | None => Ok "-"
             | Some e => coor_to_str e
             end in
  Ok (String.concat " " [board_str; side; castling_str st; ep;
                         str_of_Z (halfMoveClock st); str_of_Z (moveCounter st)]).

Local Close Scope string_scope.

Definition get_state : M state := fun st => (Ok st, st).
Definition lift {A} (r : res A) : M A := fun st => (r, st).
Definition m_bget (sq : square) : M Z := gets (fun st => bget (board st) sq).

(** The loop over the characters of one rank in [Chess.set_fen]. *)
Fixpoint parse_rank (rank file : Z) (r : string) : M unit :=
  match r with
  | EmptyString => ret tt
  | String f rest =>
      match py_int (String f EmptyString) with
      | Ok n => parse_rank rank (file + n) rest
      | Err _ =>
          match lookup_piece_letter f with
          | None => raise KeyError
          | Some value => m_bset (rank, file) value ;;; parse_rank rank (file + 1) rest
          end
      end
  end.

Fixpoint parse_ranks (rs : list string) (rank : Z) : M unit :=
  match rs with
  | [] => ret tt
  | r :: rs' => parse_rank rank 0 r ;;; parse_ranks rs' (rank + 1)
  end.

Local Open Scope string_scope.

(** [Chess.set_fen] *)
Definition set_fen (fen : string) : M unit :=
  match split_on " " (strip fen) with
  | [b0; b1; b2; b3; b4; b5] =>
      modify (fun st => set_board st zeros_board) ;;;
      parse_ranks (rev (split_on "/" b0)) 0 ;;;
      (* Set active Colour *)
      modify (fun st => if String.eqb b1 "w" then set_toMove st WHITE
                        else if String.eqb b1 "b" then set_toMove st BLACK else st) ;;;
      (* Castling availability *)
      modify (fun st => set_short st (cset (short_castle st) WHITE (has_char "K" b2))) ;;;
      modify (fun st => set_long st (cset (long_castle st) WHITE (has_char "Q" b2))) ;;;
      modify (fun st => set_short st (cset (short_castle st) BLACK (has_char "k" b2))) ;;;
      modify (fun st => set_long st (cset (long_castle st) BLACK (has_char "q" b2))) ;;;
      (if negb (String.eqb b3 "-") then
         e <- lift (str_to_coor b3) ;; modify (fun st => set_ep st (Some e))
       else modify (fun st => set_ep st None)) ;;;
      h <- lift (py_int b4) ;; modify (fun st => set_hmc st h) ;;;
      m <- lift (py_int b5) ;; modify (fun st => set_counter st m) ;;;
      modify (fun st => set_moves st (dict_set (half_move_counter st) fen (moves st)))
  | _ => raise (ChessException "Invalid FEN")
  end.

Definition start_fen : string :=
  "rnbqkbnr/pppppppp/8/8/8/8/PPPPPPPP/RNBQKBNR w KQkq - 0 1".

(** [Chess.load_start] *)
Definition load_start : M unit := set_fen start_fen.

Local Close Scope string_scope.

(** ** Moves *)

(** [Chess._push_move] *)
Definition push_move (start end_ : square) (p : Piece * Colour) (promote_to : Piece) : M unit :=
  fen <- gets get_fen ;;
  modify (fun st => set_lastFen st fen) ;;;
  st <- get_state ;;
  (* Remove pawn if taken en passant *)
  (match enPassantTarget st with
   | Some e => if piece_eqb (fst p) PAWN && sq_eqb end_ e
               then m_bset (fst start, snd e) 0 else ret tt
   | None => ret tt
   end) ;;;
  (* Place rook when castling *)
  (if piece_eqb (fst p) KING && (snd end_ - snd start =? 2) then
     v <- m_bget (fst start, 7) ;;
     m_bset (fst start, snd start + 1) v ;;;
     m_bset (fst start, 7) 0
   else ret tt) ;;;
  (if piece_eqb (fst p) KING && (snd end_ - snd start =? -2) then
     v <- m_bget (fst start, 0) ;;
     m_bset (fst start, snd start - 1) v ;;;
     m_bset (fst start, 0) 0
   else ret tt) ;;;
  v <- m_bget start ;;
  m_bset end_ v ;;;
  m_bset start 0 ;;;
  (* Promote Pawn if at the end of the board *)
  (if piece_eqb (fst p) PAWN && ((fst end_ =? 0) || (fst end_ =? 7))
   then m_bset end_ (piece_to_val promote_to (snd p))
   else ret tt).

(** [Chess._pop_move] *)
Definition pop_move : M unit :=
  st <- get_state ;; set_fen (lastFen st).

(** The castling destinations [legal_moves] appends for a king. *)
Definition castle_candidates (st : state) (coordinate : square) (c : Colour)
  (rf : list square) : res (list square) :=
  let '(r, f) := coordinate in
  let? short_ok :=
    (if cget (short_castle st) c then
       let? a := bget (board st) (r, f + 1) in
       if a =? 0 then let? b := bget (board st) (r, f + 2) in Ok (b =? 0) else Ok false
     else Ok false) in
  let rf := if short_ok then rf ++ [(r, f + 2)] else rf in
  let? long_ok :=
    (if cget (long_castle st) c then
       let? a := bget (board st) (r, f - 1) in
       if a =? 0 then
         let? b := bget (board st) (r, f - 2) in
         if b =? 0 then let? d := bget (board st) (r, f - 3) in Ok (d =? 0) else Ok false
       else Ok false
     else Ok false) in
  Ok (if long_ok then rf ++ [(r, f - 2)] else rf).

(** The simulation loop of [legal_moves]. *)
Fixpoint lm_loop (coordinate : square) (p : Piece * Colour) (rf lm : list square)
  : M (list square) :=
  match rf with
  | [] => ret lm
  | f :: rf' =>
      (* temporarily execute the move *)
      push_move coordinate f p QUEEN ;;;
      (* if the player is in check after the move, its illegal *)
      chk <- gets (fun st => in_check st (snd p)) ;;
      (* revert the move *)
      pop_move ;;;
      lm_loop coordinate p rf' (if chk then lm else lm ++ [f])
  end.

(** castling is not allowed through a check field *)
Definition castle_filter (coordinate : square) (lm : list square) : list square :=
  let '(r, f) := coordinate in
  let lm := if mem_sq (r, f + 2) lm && negb (mem_sq (r, f + 1) lm)
            then remove_first (r, f + 2) lm else lm in
  if mem_sq (r, f - 2) lm && negb (mem_sq (r, f - 1) lm)
  then remove_first (r, f - 2) lm else lm.

(** [Chess.legal_moves] *)
Definition legal_moves (coordinate : square) : M (list square) :=
  rf <- gets (fun st => reachable_fields st coordinate) ;;
  v <- m_bget coordinate ;;
  p <- lift (val_to_piece v) ;;
  match p with
  | None => ret []
  | Some (k, c) =>
      rf <- (if piece_eqb k KING
             then gets (fun st => castle_candidates st coordinate c rf) else ret rf) ;;
      lm <- lm_loop coordinate (k, c) rf [] ;;
      ret (if piece_eqb k KING then castle_filter coordinate lm else lm)
  end.

(** [Chess._repetition]: the FEN records compared on their first three
    space-separated fields. *)
Definition repetition (st : state) : res bool :=
  let board_state := map (fun x => firstn 3 (split_on " "%char (snd x))) (moves st) in
  match dict_get (half_move_counter st) (moves st) with
  | None => Err KeyError
  | Some cur =>
      let current := firstn 3 (split_on " "%char cur) in
      Ok (2 <? count_occ (list_eq_dec string_dec) board_state current)%nat
  end.

(** The count of legal moves over the pieces of the side to move. *)
Fixpoint count_legal (ps : list square) (acc : Z) : M Z :=
  match ps with
  | [] => ret acc
  | q :: ps' => lm <- legal_moves q ;; count_legal ps' (acc + Z.of_nat (length lm))
  end.

Local Open Scope string_scope.

(** [Chess.move], lines 118-128: the three rejections; answers the moving
    piece and whether [end] holds a piece (line 131). *)
Definition move_validate (start end_ : square) : M ((Piece * Colour) * bool) :=
  v <- m_bget start ;;
  p <- lift (val_to_piece v) ;;
  match p with
  | None => raise (NoPiecePresent "No piece present")
  | Some (k, c) =>
      st <- get_state ;;
      if negb (colour_eqb c (toMove st)) then raise (NotYourTurn (colour_str c ++ " to move"))
      else
      lm <- legal_moves start ;;
      if negb (mem_sq end_ lm) then raise (IllegalMove "Illegal move")
      else
      (* For fifty move rule *)
      ve <- m_bget end_ ;;
      ret ((k, c), negb (ve =? 0)%Z)
  end.

(** [Chess.move], lines 134-165: the move is executed and recorded. *)
Definition move_apply (start end_ : square) (p : Piece * Colour) (capture : bool)
  (promote_to : Piece) : M unit :=
  let '(k, c) := p in
  push_move start end_ (k, c) promote_to ;;;
  (* Clear previous en passant target *)
  modify (fun st => set_ep st None) ;;;
  (* Add new en passant target when a double pawn move was made *)
  (if piece_eqb k PAWN && (fst end_ - fst start =? 2)%Z
   then modify (fun st => set_ep st (Some (fst start + 1, snd start)%Z)) else ret tt) ;;;
  (if piece_eqb k PAWN && (fst end_ - fst start =? -2)%Z
   then modify (fun st => set_ep st (Some (fst start - 1, snd start)%Z)) else ret tt) ;;;
  (* Remove castling privileges when either the rook or king has moved *)
  (if piece_eqb k KING
   then modify (fun st => set_short (set_long st (cset (long_castle st) c false))
                                    (cset (short_castle st) c false))
   else ret tt) ;;;
  (if mem_sq start [(0, 0); (7, 0)]%Z
   then modify (fun st => set_long st (cset (long_castle st) c false)) else ret tt) ;;;
  (if mem_sq start [(0, 7); (7, 7)]%Z
   then modify (fun st => set_short st (cset (short_castle st) c false)) else ret tt) ;;;
  modify (fun st => set_toMove st (opposite (toMove st))) ;;;
  modify (fun st => set_hmc st (if capture || piece_eqb k PAWN then 0
                                else halfMoveClock st + 1)%Z) ;;;
  modify (fun st => match toMove st with
                    | WHITE => set_counter st (moveCounter st + 1)%Z
                    | BLACK => st
                    end) ;;;
  (* Record move *)
  fen <- gets get_fen ;;
  modify (fun st => set_moves st (dict_set (half_move_counter st) fen (moves st))).

(** [Chess.move], lines 167-181: win / draw categories. *)
Definition move_outcome : M unit :=
  rep <- gets repetition ;;
  if rep then raise (DrawException "Threefold repetition: Draw!")
  else
  st <- get_state ;;
  total <- count_legal (get_pieces_by_colour st (toMove st)) 0 ;;
  if (total =? 0)%Z then
    chk <- gets (fun st => in_check st (toMove st)) ;;
    st <- get_state ;;
    if chk then raise (CheckmateException
                         ("Checkmate: " ++ colour_str (opposite (toMove st)) ++ " wins!"))
    else raise (DrawException "Stalemate: Draw!")
  else
  st <- get_state ;;
  if (halfMoveClock st >=? 50)%Z then raise (DrawException "Fifty move rule: Draw!")
  else ret tt.

(** [Chess.move] *)
Definition move (start end_ : square) (promote_to : Piece) : M (square * square) :=
  pc <- move_validate start end_ ;;
  move_apply start end_ (fst pc) (snd pc) promote_to ;;;
  move_outcome ;;;
  ret (start, end_).

Local Close Scope string_scope.

(** [Chess.revert_move] *)
Definition revert_move : M unit :=
  st <- get_state ;;
  match dict_get (half_move_counter st - 1) (moves st) with
  | Some fen => set_fen fen
  | None => load_start
  end.

(** [Chess.get_piece]: [IndexError] is caught and answered with [None]. *)
Definition get_piece (st : state) (coordinate : square) : res (option (Piece * Colour)) :=
  match bget (board st) coordinate with
  | Ok v => val_to_piece v
  | Err IndexError => Ok None
  | Err e => Err e
  end.

(** Running a sequence of [move] calls from a state; stops at the first
    exception and reports it. *)
Fixpoint play (ms : list (square * square)) : M unit :=
  match ms with
  | [] => ret tt
  | (a, b) :: ms' => move a b QUEEN ;;; play ms'
  end.

Definition sq (s : string) : square :=
  match str_to_coor s with Ok x => x | Err _ => (-100, -100) end.

(** ** [Chess.move_notation] *)

(** Membership of a character in a regex character class such as [[KQBNR]]. *)
Fixpoint in_class (cls : string) (ch : ascii) : bool :=
  match cls with
  | EmptyString => false
  | String c cls' => Ascii.eqb c ch || in_class cls' ch
  end.

(** An optional group [(C)?] at the front of [s], in the order a backtracking
    regex engine tries it: greedy (take one character) first, then empty. *)
Definition opt_group (cls : string) (s : string) : list (option ascii * string) :=
  match s with
  | String c s' => if in_class cls c then [(Some c, s'); (None, s)] else [(None, s)]
  | EmptyString => [(None, s)]
  end.

(** The group [([abcdefgh][12345678])] at the front of [s]. *)
Definition square_group (s : string) : option string :=
  match s with
  | String a (String b _) =>
      if in_class "abcdefgh" a && in_class "12345678" b
      then Some (String a (String b EmptyString)) else None
  | _ => None
  end.

(** The first success of a backtracking alternative. *)
Fixpoint first_some {A B} (f : A -> option B) (l : list A) : option B :=
  match l with
  | [] => None
  | a :: l' => match f a with Some b => Some b | None => first_some f l' end
  end.

(** [re.search('^([KQBNR])?([abcdefg])?([12345678])?x?([abcdefgh][12345678])',
    notation)]: the groups 1 to 4 of the match, or [None]. *)
Definition notation_match (s : string)
  : option (option ascii * option ascii * option ascii * string) :=
  first_some (fun '(g1, s1) =>
    first_some (fun '(g2, s2) =>
      first_some (fun '(g3, s3) =>
        first_some (fun '(_, s4) =>
          option_map (fun g4 => (g1, g2, g3, g4)) (square_group s4))
        (opt_group "x" s3))
      (opt_group "12345678" s2))
    (opt_group "abcdefg" s1))
  (opt_group "KQBNR" s).

(** [str.lower] on one ASCII character *)
Definition lower (ch : ascii) : ascii :=
  let n := nat_of_ascii ch in
  if (65 <=? n)%nat && (n <=? 90)%nat then ascii_of_nat (n + 32) else ch.

(** A dictionary subscript [d[k]]: [KeyError] on a missing key. *)
Definition subscript (o : option Z) : res Z :=
  match o with Some v => Ok v | None => Err KeyError end.

(** The loop [for i in ...: if dest in self.legal_moves(tuple(i)):
    eligible_pieces.append(tuple(i))]. *)
Fixpoint eligible_loop (ps : list square) (dest : square) (el : list square)
  : M (list square) :=
  match ps with
  | [] => ret el
  | i :: ps' =>
      lm <- legal_moves i ;;
      eligible_loop ps' dest (if mem_sq dest lm then el ++ [i] else el)
  end.

(** The two disambiguation filters, applied when more than one piece is
    eligible. *)
Definition disambiguate (dis_rank dis_file : option Z) (el : list square)
  : list square :=
  if (1 <? length el)%nat then
    let el := match dis_rank with
              | Some r => filter (fun x => fst x =? r) el
              | None => el
              end in
    match dis_file with
    | Some f => filter (fun x => snd x =? f) el
    | None => el
    end
  else el.

(** [Chess.move_notation] *)
Definition move_notation (notation : string) : M (square * square) :=
  if String.eqb "O-O" notation then
    st <- get_state ;;
    match toMove st with
    | WHITE => s <- lift (str_to_coor "E1") ;; e <- lift (str_to_coor "G1") ;;
               move s e QUEEN
    | BLACK => s <- lift (str_to_coor "E8") ;; e <- lift (str_to_coor "G8") ;;
               move s e QUEEN
    end
  else if String.eqb "O-O-O" notation then
    st <- get_state ;;
    match toMove st with
    | WHITE => s <- lift (str_to_coor "E1") ;; e <- lift (str_to_coor "C1") ;;
               move s e QUEEN
    | BLACK => s <- lift (str_to_coor "E8") ;; e <- lift (str_to_coor "C8") ;;
               move s e QUEEN
    end
  else
  match notation_match notation with
  | None => raise (ChessException ("Invalid move: " ++ notation))
  | Some (g1, g2, g3, g4) =>
      dis_file <- lift (match g2, g1 with
                        | Some f, Some _ => let? v := subscript (tbl_get files_tbl (upper f)) in
                                            Ok (Some v)
                        | _, _ => Ok None
                        end) ;;
      dis_rank <- lift (match g3 with
                        | Some r => let? v := subscript (tbl_get ranks_tbl r) in Ok (Some v)
                        | None => Ok None
                        end) ;;
      dest <- lift (str_to_coor g4) ;;
      let piece_str := match g1 with Some p => p | None => "P"%char end in
      st <- get_state ;;
      let piece_str := match toMove st with BLACK => lower piece_str | WHITE => piece_str end in
      val <- lift (subscript (lookup_piece_letter piece_str)) ;;
      el <- eligible_loop (np_where (fun v => v =? val) (board st)) dest [] ;;
      match disambiguate dis_rank dis_file el with
      | [] => raise (ChessException ("Illegal move: " ++ notation))
      | [start] => move start dest QUEEN
      | _ => raise (ChessException ("Ambiguous move: " ++ notation))
      end
  end.

(** ** [Chess.__repr__] *)

Definition repr_char (v : Z) : ascii :=
  match valuePieces v with Some ch => ch | None => "-"%char end.

Fixpoint repr_row (r : list Z) : string :=
  match r with
  | [] => EmptyString
  | v :: r' => String (repr_char v) (repr_row r')
  end.

Fixpoint repr_rows (rs : list (list Z)) : string :=
  match rs with
  | [] => EmptyString
  | r :: rs' => (repr_row r ++ String "010"%char EmptyString ++ repr_rows rs')%string
  end.

(** [Chess.__repr__]: the rows from rank 8 down to rank 1. *)
Definition repr (st : state) : string := repr_rows (rev (board st)).

(** ** Positions used by the concrete scenarios below *)

Local Open Scope string_scope.

(** The engine after [set_fen fen] on a fresh object. *)
Definition fen_state (fen : string) : state := snd (set_fen fen init_state).

(** The engine after [load_start] on a fresh object. *)
Definition start_state : state := snd (load_start init_state).

Definition c2_fen : string :=
  "rnbqkbnr/pppppppp/8/8/4P3/8/PPPP1PPP/RNBQKBNR b KQkq e3 0 1".
Definition c3_fen : string := "4r2k/8/8/8/8/8/8/4K2R w K - 0 1".
Definition c4_fen : string := "4k3/8/8/8/8/8/4P3/4K3 w - e3 0 1".
Definition c6_fen : string := "r3k3/8/8/8/8/8/8/R3K3 w - - 49 40".
Definition c7_fen : string := "N3k3/8/8/8/8/8/8/R3K3 w Q - 0 1".

(** The knight shuffle after [1. e4]: the position after [3. Ng1] comes back
    after [5. Ng1]; the one after [1. e4] differs from it only in the en
    passant field. *)
Definition shuffle_game : list (square * square) :=
  [(sq "E2", sq "E4"); (sq "G8", sq "F6"); (sq "G1", sq "F3"); (sq "F6", sq "G8");
   (sq "F3", sq "G1"); (sq "G8", sq "F6"); (sq "G1", sq "F3"); (sq "F6", sq "G8")].

(** How often the current record's first four fields (board, side,
    castling, en passant) occur among the records. *)
Definition occurrences4 (st : state) : nat :=
  match dict_get (half_move_counter st) (moves st) with
  | None => 0
  | Some cur =>
      count_occ (list_eq_dec string_dec)
        (map (fun x => firstn 4 (split_on " "%char (snd x))) (moves st))
        (firstn 4 (split_on " "%char cur))
  end.

Local Close Scope string_scope.

(** ** Well-formed positions *)

(** A board value [get_fen] can render: empty or a piece of [pieceValues]. *)
Definition valid_val (v : Z) : bool :=
  (v =? 0) || match valuePieces v with Some _ => true | None => false end.

(** Eight rows of eight valid values. *)
Definition wf_board (b : board_t) : Prop :=
  length b = 8%nat /\
  Forall (fun row => length row = 8%nat /\ Forall (fun v => valid_val v = true) row) b.

Definition wf_ep (e : option square) : Prop :=
  match e with None => True | Some x => in_range x = true end.

(** The states the engine works on: an 8x8 board of valid values and an en
    passant target on the board. *)
Definition wf (st : state) : Prop := wf_board (board st) /\ wf_ep (enPassantTarget st).

(** The value on square [(r, c)] of the board. *)
Definition cell (b : board_t) (x : square) : Z :=
  nth (Z.to_nat (snd x)) (nth (Z.to_nat (fst x)) b []) 0.

(** Every character of [s] satisfies [f]. *)
Fixpoint str_all (f : ascii -> bool) (s : string) : bool :=
  match s with
  | EmptyString => true
  | String c s' => f c && str_all f s'
  end.

(** Characters that are neither white space nor one of the two FEN
    separators. *)
Definition plain_char (c : ascii) : bool :=
  negb (is_space c) && negb (Ascii.eqb c " ") && negb (Ascii.eqb c "/").

(** The state [set_fen] leaves when it reads the record of [st]: the
    position of [st] with the history [mv] and the [lastFen] [lf]. *)
Definition with_hist (st : state) (mv : list (Z * string)) (lf : string) : state :=
  mkState (board st) mv (toMove st) (enPassantTarget st) (long_castle st)
          (short_castle st) (halfMoveClock st) (moveCounter st) lf.

(** One simulation of [legal_moves] on [st]: play [coordinate]-[f] with
    the default promotion and ask [in_check] for the mover. *)
Definition sim_check (st : state) (coordinate f : square) (p : Piece * Colour) : res bool :=
  match push_move coordinate f p QUEEN st with
  | (Ok _, s1) => in_check s1 (snd p)
  | (Err e, _) => Err e
  end.

(** The destinations the simulation loop keeps, as a function of the
    position the loop starts from. *)
Definition lm_pure (st : state) (coordinate : square) (p : Piece * Colour)
  (rf : list square) : res (list square) :=
  filter_res (fun f => let? chk := sim_check st coordinate f p in Ok (negb chk)) rf.

(** The answer of [legal_moves] as a function of the position. *)
Definition legal_pure (st : state) (coordinate : square) : res (list square) :=
  let? rf := reachable_fields st coordinate in
  let? v := bget (board st) coordinate in
  let? p := val_to_piece v in
  match p with
  | None => Ok []
  | Some (k, c) =>
      let? rf := (if piece_eqb k KING then castle_candidates st coordinate c rf else Ok rf) in
      let? lm := lm_pure st coordinate (k, c) rf in
      Ok (if piece_eqb k KING then castle_filter coordinate lm else lm)
  end.

(** The exceptions the helpers raise by themselves: Python's built-in
    errors, [InvalidSquare] and [ChessException]; never one of the game's
    outcomes. *)
Definition internal (e : exn) : bool :=
  match e with
  | IndexError | KeyError | ValueError | TypeError | InvalidSquare _ | ChessException _ => true
  | _ => false
  end.

Definition r_int {A} (r : res A) : Prop :=
  match r with Ok _ => True | Err e => internal e = true end.

Definition m_int {A} (m : M A) : Prop := forall st, r_int (fst (m st)).

(** A computation that neither reads nor writes the history and [lastFen]. *)
Definition hist_inv {A} (m : M A) : Prop :=
  forall S mv lf, m (with_hist S mv lf) = (fst (m S), with_hist (snd (m S)) mv lf).

(** ** Games *)

(** The results of [move] a caller sees as an accepted move: it returns, or
    it announces a draw or a checkmate after the move has been made. *)
Definition accepted {A} (r : res A) : bool :=
  match r with
  | Ok _ => true
  | Err (DrawException _) | Err (CheckmateException _) => true
  | Err _ => false
  end.

(** The positions a game reaches from the starting position through
    accepted moves. *)
Inductive reachable : state -> Prop :=
| reach_start : reachable start_state
| reach_move (S : state) (a b : square) (pr : Piece) (r : res (square * square)) (S' : state) :
    reachable S -> move a b pr S = (r, S') -> accepted r = true -> reachable S'.

(** The record of the position is stored at its half-move index. *)
Definition hist_ok (S : state) : Prop :=
  exists fen, get_fen S = Ok fen /\ dict_get (half_move_counter S) (moves S) = Some fen.

(** A square a piece of colour [c] may move to: on the board, and not
    holding a piece of colour [c]. *)
Definition target_ok (st : state) (c : Colour) (x : square) : Prop :=
  in_range x = true /\ exists w, bget (board st) x = Ok w /\ forall p, w <> piece_to_val p c.

(** The position [st] itself, or the position with its own record stored
    at its half-move index: the two states [legal_moves] leaves. *)
Definition hist_step (S : state) (fen : string) (S' : state) : Prop :=
  S' = S \/ S' = with_hist S (dict_set (half_move_counter S) fen (moves S)) fen.

(** A computation that changes the board and [lastFen] only. *)
Definition keeps_pos {A} (m : M A) : Prop :=
  forall S, exists b lf, snd (m S) = set_board (set_lastFen S lf) b.

(** A computation that keeps the board well formed. *)
Definition keeps_wfb {A} (m : M A) : Prop :=
  forall S, wf_board (board S) -> wf_board (board (snd (m S))).

(** The fields [move] reads back after the bookkeeping of lines 138-152. *)
Definition core (T : state) : board_t * list (Z * string) * Colour * Z :=
  (board T, moves T, toMove T, moveCounter T).

(** * Properties *)

(** ** Concrete runs *)

Local Open Scope string_scope.

(** Counterexample to C2: black's illegal [e7-e4] is rejected, yet the
    history entry of the current half move, written by [set_fen] as given
    (lower-case [e3]), is replaced by [get_fen]'s rendering (upper-case
    [E3]) when [legal_moves] restores its simulations; [lastFen] changes
    as well. *)
Lemma illegal_move_rewrites_history :
  moves (fen_state c2_fen) = [(1, c2_fen)] /\
  move (sq "E7") (sq "E4") QUEEN (fen_state c2_fen) =
    (Err (IllegalMove "Illegal move"),
     set_lastFen
       (set_moves (fen_state c2_fen)
          [(1, "rnbqkbnr/pppppppp/8/8/4P3/8/PPPP1PPP/RNBQKBNR b KQkq E3 0 1")])
       "rnbqkbnr/pppppppp/8/8/4P3/8/PPPP1PPP/RNBQKBNR b KQkq E3 0 1").
Proof. split; vm_compute; reflexivity. Qed.

(** Counterexample to C3: the white king on e1 is attacked by the rook on
    e8, yet [legal_moves] offers the castling square g1. *)
Lemma castling_offered_in_check :
  in_check (fen_state c3_fen) WHITE = Ok true /\
  fst (legal_moves (sq "E1") (fen_state c3_fen)) =
    Ok [(0, 3); (0, 5); (1, 3); (1, 5); (0, 6)]%Z /\
  sq "G1" = (0, 6)%Z.
Proof. split; [|split]; vm_compute; reflexivity. Qed.

(** C4: with the en passant target on e3, the straight push [e2-e3] is
    accepted, but [_push_move] clears [board[start[0], e[1]]], which is the
    pushing pawn's own square: no white pawn is left on the board. *)
Theorem straight_push_onto_ep_square_loses_pawn :
  np_where (fun v => v =? 1)%Z (board (fen_state c4_fen)) = [(1, 4)]%Z /\
  fst (move (sq "E2") (sq "E3") QUEEN (fen_state c4_fen)) = Ok ((1, 4), (2, 4))%Z /\
  np_where (fun v => v =? 1)%Z (board (snd (move (sq "E2") (sq "E3") QUEEN (fen_state c4_fen))))
    = [].
Proof. split; [|split]; vm_compute; reflexivity. Qed.

(** C5: in the knight shuffle after [1. e4], the ninth ply raises the
    repetition draw although the current board, side, castling rights and
    en passant target have been recorded only twice: the record after
    [1. e4] differs in the en passant field and is counted all the same. *)
Theorem repetition_ignores_ep_field :
  let s := snd (play shuffle_game start_state) in
  fst (move (sq "F3") (sq "G1") QUEEN s) = Err (DrawException "Threefold repetition: Draw!") /\
  occurrences4 (snd (move (sq "F3") (sq "G1") QUEEN s)) = 2%nat.
Proof. split; vm_compute; reflexivity. Qed.

(** C6: from a half-move clock of 49, one quiet rook move raises the
    fifty-move draw: the draw comes after 50 plies, not after 100. *)
Theorem fifty_move_draw_after_50_plies :
  halfMoveClock (fen_state c6_fen) = 49%Z /\
  move (sq "A1") (sq "A2") QUEEN (fen_state c6_fen) =
    (Err (DrawException "Fifty move rule: Draw!"),
     snd (move (sq "A1") (sq "A2") QUEEN (fen_state c6_fen))) /\
  halfMoveClock (snd (move (sq "A1") (sq "A2") QUEEN (fen_state c6_fen))) = 50%Z.
Proof. split; [|split]; vm_compute; reflexivity. Qed.

(** C7: a white knight leaving a8 (black's queenside corner) clears
    white's queenside castling right, though neither the white king nor a
    white rook moved. *)
Theorem knight_from_a8_clears_white_long_castle :
  get_piece (fen_state c7_fen) (sq "A8") = Ok (Some (KNIGHT, WHITE)) /\
  long_castle (fen_state c7_fen) = (true, false) /\
  fst (move (sq "A8") (sq "B6") QUEEN (fen_state c7_fen)) = Ok ((7, 0), (5, 1))%Z /\
  long_castle (snd (move (sq "A8") (sq "B6") QUEEN (fen_state c7_fen))) = (false, false).
Proof. split; [|split; [|split]]; vm_compute; reflexivity. Qed.

(** Counterexample to C10: the square (8, 0) is off the board, but
    [get_piece] answers [None] instead of failing. *)
Lemma get_piece_off_board_is_none :
  get_piece start_state (8, 0)%Z = Ok None.
Proof. vm_compute; reflexivity. Qed.

Local Close Scope string_scope.

(** ** Board access *)

Lemma wf_row (b : board_t) (i : nat) :
  wf_board b -> (i < 8)%nat ->
  exists row, nth_error b i = Some row /\ length row = 8%nat /\
              Forall (fun v => valid_val v = true) row.
Proof.
  intros [Hl Hf] Hi.
  destruct (nth_error b i) as [row|] eqn:E.
  - exists row. split; [reflexivity|].
    apply nth_error_In in E. rewrite Forall_forall in Hf. exact (Hf _ E).
  - apply nth_error_None in E. lia.
Qed.

Lemma np_idx_in (i : Z) : 0 <= i <= 7 -> np_idx i = Some (Z.to_nat i).
Proof.
  intros H. unfold np_idx.
  replace ((-8 <=? i) && (i <=? 7)) with true by (symmetry; apply andb_true_iff; lia).
  replace (i <? 0) with false by (symmetry; apply Z.ltb_ge; lia). reflexivity.
Qed.

Lemma np_idx_neg (i : Z) : -8 <= i <= -1 -> np_idx i = np_idx (i + 8).
Proof.
  intros H. rewrite (np_idx_in (i + 8)) by lia. unfold np_idx.
  replace ((-8 <=? i) && (i <=? 7)) with true by (symmetry; apply andb_true_iff; lia).
  replace (i <? 0) with true by (symmetry; apply Z.ltb_lt; lia). reflexivity.
Qed.

Lemma np_idx_out (i : Z) : i < -8 \/ 7 < i -> np_idx i = None.
Proof.
  intros H. unfold np_idx.
  replace ((-8 <=? i) && (i <=? 7)) with false; [reflexivity|].
  symmetry. apply andb_false_iff. destruct H; [left|right]; apply Z.leb_gt; lia.
Qed.

Lemma bget_wf (b : board_t) (x : square) :
  wf_board b -> in_range x = true ->
  bget b x = Ok (cell b x) /\ valid_val (cell b x) = true.
Proof.
  intros Hb Hx. destruct x as [r c]. unfold in_range in Hx. simpl in Hx.
  repeat rewrite andb_true_iff in Hx. repeat rewrite Z.leb_le in Hx.
  unfold bget, cell. simpl. rewrite (np_idx_in r), (np_idx_in c) by lia.
  destruct (wf_row b (Z.to_nat r) Hb) as [row [E [Hl Hf]]]; [lia|].
  rewrite E. rewrite (nth_error_nth _ _ _ E).
  destruct (nth_error row (Z.to_nat c)) as [v|] eqn:E2.
  - rewrite (nth_error_nth _ _ _ E2). split; [reflexivity|].
    rewrite Forall_forall in Hf. apply Hf. eapply nth_error_In; eassumption.
  - apply nth_error_None in E2. lia.
Qed.

Lemma valid_val_piece (v : Z) :
  valid_val v = true -> exists p, val_to_piece v = Ok p.
Proof.
  intros H. unfold valid_val in H.
  destruct (v =? 0) eqn:E0.
  { apply Z.eqb_eq in E0. subst. eexists. reflexivity. }
  unfold valuePieces, pieceValues in H. cbn [find option_map fst snd] in H.
  repeat match type of H with
         | context [?a =? v] =>
             let E := fresh "E" in
             destruct (a =? v) eqn:E; [apply Z.eqb_eq in E; subst; eexists; reflexivity|]
         end.
  discriminate.
Qed.


(** ** C10: [get_piece] *)

Lemma get_piece_out (st : state) (r c : Z) :
  r < -8 \/ 7 < r \/ c < -8 \/ 7 < c -> get_piece st (r, c) = Ok None.
Proof.
  intros H. unfold get_piece, bget. simpl.
  destruct (Z_le_gt_dec (-8) r); destruct (Z_le_gt_dec r 7);
  destruct (Z_le_gt_dec (-8) c); destruct (Z_le_gt_dec c 7); try lia;
  repeat match goal with
         | |- context [np_idx ?i] => rewrite (np_idx_out i) by lia
         end;
  try reflexivity; destruct (np_idx r); reflexivity.
Qed.

Lemma get_piece_wrap_rank (st : state) (r c : Z) :
  -8 <= r <= -1 -> get_piece st (r, c) = get_piece st (r + 8, c).
Proof. intros H. unfold get_piece, bget. simpl. rewrite (np_idx_neg r H). reflexivity. Qed.

Lemma get_piece_wrap_file (st : state) (r c : Z) :
  -8 <= c <= -1 -> get_piece st (r, c) = get_piece st (r, c + 8).
Proof. intros H. unfold get_piece, bget. simpl. rewrite (np_idx_neg c H). reflexivity. Qed.

Lemma get_piece_in (st : state) (r c : Z) :
  wf_board (board st) -> 0 <= r <= 7 -> 0 <= c <= 7 ->
  get_piece st (r, c) = val_to_piece (cell (board st) (r, c)) /\
  exists p, val_to_piece (cell (board st) (r, c)) = Ok p.
Proof.
  intros Hb Hr Hc.
  destruct (bget_wf (board st) (r, c) Hb) as [E V].
  { unfold in_range. simpl. repeat rewrite andb_true_iff. repeat rewrite Z.leb_le. lia. }
  unfold get_piece. rewrite E. split; [reflexivity|]. apply valid_val_piece, V.
Qed.

(** C10 (amended): on a well-formed board [get_piece] never fails.  A square
    with a component above 7 (or below -8) is answered with [None], the
    [IndexError] being caught inside [get_piece]; on [[0, 7] x [0, 7]] it
    answers the piece on the square, [None] when the square is empty. *)
Theorem get_piece_spec (st : state) (r c : Z) (Hb : wf_board (board st)) :
  (exists p, get_piece st (r, c) = Ok p) /\
  (r < -8 \/ 7 < r \/ c < -8 \/ 7 < c -> get_piece st (r, c) = Ok None) /\
  (0 <= r <= 7 -> 0 <= c <= 7 -> get_piece st (r, c) = val_to_piece (cell (board st) (r, c))).
Proof.
  split; [|split; [apply get_piece_out|]].
  - destruct (Z_le_gt_dec (-8) r); destruct (Z_le_gt_dec r 7);
    destruct (Z_le_gt_dec (-8) c); destruct (Z_le_gt_dec c 7);
    try (exists None; apply get_piece_out; lia).
    assert (Hr : exists r', 0 <= r' <= 7 /\ get_piece st (r, c) = get_piece st (r', c)).
    { destruct (Z_lt_le_dec r 0).
      - exists (r + 8). split; [lia|]. apply get_piece_wrap_rank. lia.
      - exists r. split; [lia|reflexivity]. }
    destruct Hr as [r' [Hr' ->]].
    assert (Hc : exists c', 0 <= c' <= 7 /\ get_piece st (r', c) = get_piece st (r', c')).
    { destruct (Z_lt_le_dec c 0).
      - exists (c + 8). split; [lia|]. apply get_piece_wrap_file. lia.
      - exists c. split; [lia|reflexivity]. }
    destruct Hc as [c' [Hc' ->]].
    destruct (get_piece_in st r' c' Hb Hr' Hc') as [-> [p Hp]]. exists p. exact Hp.
  - intros Hr Hc. apply (get_piece_in st r c Hb Hr Hc).
Qed.

Lemma get_piece_spec_witness :
  wf_board (board start_state) /\
  get_piece start_state (8, 0) = Ok None /\
  get_piece start_state (0, 4) = Ok (Some (KING, WHITE)).
Proof.
  assert (Hb : wf_board (board start_state)).
  { vm_compute. split; [reflexivity|]. repeat constructor. }
  split; [exact Hb|split].
  - apply (proj1 (proj2 (get_piece_spec start_state 8 0 Hb))). lia.
  - rewrite (proj2 (proj2 (get_piece_spec start_state 0 4 Hb))) by lia.
    vm_compute. reflexivity.
Defined.

(** ** Strings *)

Local Open Scope string_scope.

Lemma string_app_assoc (a b c : string) : (a ++ b) ++ c = a ++ (b ++ c).
Proof. induction a as [|x a IH]; simpl; [reflexivity|now rewrite IH]. Qed.

Lemma string_app_nil_r (a : string) : a ++ "" = a.
Proof. induction a as [|x a IH]; simpl; [reflexivity|now rewrite IH]. Qed.

Lemma str_all_app (f : ascii -> bool) (a b : string) :
  str_all f (a ++ b) = str_all f a && str_all f b.
Proof.
  induction a as [|x a IH]; simpl; [reflexivity|]. rewrite IH. apply andb_assoc.
Qed.

Lemma str_all_impl (f g : ascii -> bool) (s : string) :
  (forall c, f c = true -> g c = true) -> str_all f s = true -> str_all g s = true.
Proof.
  intros H. induction s as [|x s IH]; simpl; [reflexivity|].
  rewrite !andb_true_iff. intros [Hx Hs]. split; [apply H, Hx|apply IH, Hs].
Qed.

Lemma split_on_plain (sep : ascii) (s : string) :
  str_all (fun c => negb (Ascii.eqb c sep)) s = true -> split_on sep s = [s].
Proof.
  induction s as [|x s IH]; simpl; [reflexivity|].
  rewrite andb_true_iff, negb_true_iff. intros [Hx Hs].
  rewrite (IH Hs), Hx. reflexivity.
Qed.

Lemma split_on_app (sep : ascii) (x y : string) :
  str_all (fun c => negb (Ascii.eqb c sep)) x = true ->
  split_on sep (x ++ String sep y) = x :: split_on sep y.
Proof.
  induction x as [|c x IH]; simpl.
  - rewrite Ascii.eqb_refl. reflexivity.
  - rewrite andb_true_iff, negb_true_iff. intros [Hc Hx].
    rewrite (IH Hx), Hc. reflexivity.
Qed.

(** [sep.join(l).split(sep)] gives back [l] when no part holds [sep]. *)
Lemma split_on_concat (sep : ascii) (l : list string) :
  l <> [] ->
  Forall (fun x => str_all (fun c => negb (Ascii.eqb c sep)) x = true) l ->
  split_on sep (String.concat (String sep "") l) = l.
Proof.
  induction l as [|x l IH]; intros Hn Hf; [congruence|].
  inversion Hf as [|? ? Hx Hl]; subst.
  destruct l as [|y l].
  - simpl. apply split_on_plain, Hx.
  - change (String.concat (String sep "") (x :: y :: l))
      with (x ++ String sep (String.concat (String sep "") (y :: l))).
    rewrite (split_on_app _ _ _ Hx), IH; [reflexivity|discriminate|exact Hl].
Qed.

Lemma rstrip_plain (s : string) :
  str_all (fun c => negb (is_space c)) s = true -> rstrip s = s.
Proof.
  induction s as [|x s IH]; simpl; [reflexivity|].
  rewrite andb_true_iff, negb_true_iff. intros [Hx Hs].
  rewrite (IH Hs). destruct s; [rewrite Hx|]; reflexivity.
Qed.

Lemma rstrip_app (a b : string) :
  rstrip b = b -> b <> "" -> rstrip (a ++ b) = a ++ b.
Proof.
  intros Hb Hn. induction a as [|x a IH]; simpl; [exact Hb|].
  rewrite IH. destruct (a ++ b) eqn:E; [|reflexivity].
  destruct a; simpl in E; [congruence|discriminate].
Qed.

Lemma lstrip_app (a b : string) :
  a <> "" -> str_all (fun c => negb (is_space c)) a = true -> lstrip (a ++ b) = a ++ b.
Proof.
  destruct a as [|x a]; [congruence|]. simpl. rewrite andb_true_iff, negb_true_iff.
  intros _ [Hx _]. rewrite Hx. reflexivity.
Qed.

Lemma app_nonempty (a b : string) : b <> "" -> a ++ b <> "".
Proof. destruct a; simpl; [auto|discriminate]. Qed.

Lemma has_char_false (ch : ascii) (s : string) :
  str_all (fun c => negb (Ascii.eqb c ch)) s = true -> has_char ch s = false.
Proof.
  induction s as [|x s IH]; simpl; [reflexivity|].
  rewrite andb_true_iff, negb_true_iff. intros [Hx Hs]. rewrite Hx, (IH Hs). reflexivity.
Qed.

Local Close Scope string_scope.


(** ** [int(str(n)) == n] *)

Local Open Scope string_scope.

Lemma string_of_uint_digits (u : uint) :
  str_all is_digit (NilEmpty.string_of_uint u) = true.
Proof. induction u; simpl; auto. Qed.

Lemma to_uint_nonnil (n : N) : N.to_uint n <> Nil.
Proof.
  intros E. pose proof (DecimalN.Unsigned.of_to n) as H. rewrite E in H.
  simpl in H. subst n. discriminate E.
Qed.

Lemma underscores_ok_digits (s : string) :
  str_all is_digit s = true -> underscores_ok true s = true.
Proof.
  induction s as [|x s IH]; intros H; [reflexivity|].
  simpl in H. apply andb_true_iff in H as [Hx Hs]. simpl.
  replace (Ascii.eqb x "_") with false
    by (destruct (Ascii.eqb_spec x "_"); [subst; discriminate|reflexivity]).
  rewrite Hx. apply IH, Hs.
Qed.

Lemma drop_underscores_digits (s : string) :
  str_all is_digit s = true -> drop_underscores s = s.
Proof.
  induction s as [|x s IH]; simpl; [reflexivity|]. intros H.
  apply andb_true_iff in H as [Hx Hs].
  replace (Ascii.eqb x "_") with false
    by (destruct (Ascii.eqb_spec x "_"); [subst; discriminate|reflexivity]).
  rewrite (IH Hs). reflexivity.
Qed.

Lemma digit_not_space (c : ascii) : is_digit c = true -> negb (is_space c) = true.
Proof.
  intros H. destruct c as [[] [] [] [] [] [] [] []]; vm_compute in H |- *;
  try discriminate; reflexivity.
Qed.

Lemma digit_plain (c : ascii) : is_digit c = true -> plain_char c = true.
Proof.
  intros H. destruct c as [[] [] [] [] [] [] [] []]; vm_compute in H |- *;
  try discriminate; reflexivity.
Qed.

Lemma str_of_Z_nonempty (z : Z) : str_of_Z z <> "".
Proof.
  unfold str_of_Z. destruct (z <? 0)%Z; [discriminate|].
  destruct (N.to_uint (Z.to_N z)) eqn:E; [exfalso; exact (to_uint_nonnil _ E)|..];
  discriminate.
Qed.

Lemma str_of_Z_plain (z : Z) : (0 <= z)%Z -> str_all plain_char (str_of_Z z) = true.
Proof.
  intros Hz. unfold str_of_Z. replace (z <? 0)%Z with false by (symmetry; apply Z.ltb_ge; lia).
  eapply str_all_impl; [apply digit_plain|apply string_of_uint_digits].
Qed.

Lemma str_of_Z_nospace (z : Z) : str_all (fun c => negb (is_space c)) (str_of_Z z) = true.
Proof.
  unfold str_of_Z. destruct (z <? 0)%Z; simpl;
  eapply str_all_impl; try apply digit_not_space; apply string_of_uint_digits.
Qed.

Lemma strip_str_of_Z (z : Z) : strip (str_of_Z z) = str_of_Z z.
Proof.
  unfold strip. rewrite <- (string_app_nil_r (str_of_Z z)) at 1.
  rewrite lstrip_app by (apply str_of_Z_nonempty || apply str_of_Z_nospace).
  rewrite string_app_nil_r. apply rstrip_plain, str_of_Z_nospace.
Qed.

Lemma uint_first_digit (u : uint) :
  u <> Nil -> exists c rest, NilEmpty.string_of_uint u = String c rest /\
                             is_digit c = true /\ str_all is_digit rest = true.
Proof.
  intros Hu. pose proof (string_of_uint_digits u) as Hd.
  destruct u; [congruence|..]; simpl in Hd |- *;
  do 2 eexists; repeat split; try reflexivity; exact Hd.
Qed.

(** The digits of [N.to_uint n] read back as [n]. *)
Lemma py_int_digits (n : N) :
  underscores_ok false (NilEmpty.string_of_uint (N.to_uint n)) = true /\
  NilEmpty.uint_of_string (drop_underscores (NilEmpty.string_of_uint (N.to_uint n)))
    = Some (N.to_uint n).
Proof.
  destruct (uint_first_digit (N.to_uint n) (to_uint_nonnil n)) as (c & rest & E & Hc & Hr).
  assert (Hd := string_of_uint_digits (N.to_uint n)).
  split.
  - rewrite E. simpl.
    replace (Ascii.eqb c "_") with false
      by (destruct (Ascii.eqb_spec c "_"); [subst; discriminate|reflexivity]).
    rewrite Hc. apply underscores_ok_digits, Hr.
  - rewrite (drop_underscores_digits _ Hd). apply NilEmpty.usu.
Qed.

Ltac py_int_finish n :=
  destruct (py_int_digits n) as [Hu1 Hu2]; rewrite Hu1, Hu2;
  pose proof (to_uint_nonnil n) as Hnn; pose proof (DecimalN.Unsigned.of_to n) as Hot;
  destruct (N.to_uint n); [congruence|..]; cbn beta iota zeta; rewrite Hot.

Lemma digit_sign (c : ascii) : is_digit c = true -> Ascii.eqb c "-" = false /\ Ascii.eqb c "+" = false.
Proof.
  intros H. destruct c as [[] [] [] [] [] [] [] []]; vm_compute in H |- *;
  try discriminate; split; reflexivity.
Qed.

(** [int(str(z)) == z] *)
Lemma py_int_str_of_Z (z : Z) : py_int (str_of_Z z) = Ok z.
Proof.
  unfold py_int. rewrite strip_str_of_Z. unfold str_of_Z.
  destruct (z <? 0)%Z eqn:Hz.
  - cbn beta iota. rewrite Ascii.eqb_refl. cbn beta iota.
    apply Z.ltb_lt in Hz.
    py_int_finish (Z.to_N (- z)); f_equal; lia.
  - destruct (uint_first_digit (N.to_uint (Z.to_N z)) (to_uint_nonnil _))
      as (c & rest & E & Hc & _).
    rewrite E. cbn beta iota. destruct (digit_sign c Hc) as [-> ->]. rewrite <- E.
    cbn beta iota. apply Z.ltb_ge in Hz.
    py_int_finish (Z.to_N z); f_equal; lia.
Qed.

Local Close Scope string_scope.

(** ** One rank of the board: [get_fen]'s rendering and [set_fen]'s parse *)

Local Open Scope string_scope.

Ltac enum_piece_values H :=
  unfold valuePieces, pieceValues in H; cbn [find option_map fst snd] in H;
  repeat match type of H with
         | context [(?a =? ?v)%Z] =>
             let E := fresh "E" in
             destruct (a =? v)%Z eqn:E; [apply Z.eqb_eq in E; subst; cbn in H; injection H as <-|]
         end; [..|cbn in H; discriminate].

(** The letters [get_fen] writes are read back by [set_fen] as the same
    value. *)
Lemma value_piece_letter (v : Z) (ch : ascii) :
  valuePieces v = Some ch ->
  lookup_piece_letter ch = Some v /\ py_int (String ch "") = Err ValueError /\
  plain_char ch = true /\ (0 < v < 256)%Z.
Proof.
  intros H. enum_piece_values H; vm_compute; repeat split; congruence.
Qed.

Lemma valid_val_zero (v : Z) : valid_val v = true -> valuePieces v = None -> v = 0%Z.
Proof.
  unfold valid_val. intros H1 H2. rewrite H2, orb_false_r in H1. apply Z.eqb_eq, H1.
Qed.

(** A run of one to eight empty squares is a single digit. *)
Lemma small_run (z : nat) :
  (1 <= z <= 8)%nat ->
  exists d, str_of_Z (Z.of_nat z) = String d "" /\ py_int (String d "") = Ok (Z.of_nat z).
Proof.
  intros Hz.
  do 9 (destruct z as [|z]; [try lia; eexists; split; vm_compute; reflexivity|]). lia.
Qed.

Lemma render_row_plain (row : list Z) : forall (z : Z),
  (0 <= z)%Z -> str_all plain_char (render_row z row) = true.
Proof.
  induction row as [|v row IH]; intros z Hz; simpl.
  - destruct (z >? 0)%Z; [apply str_of_Z_plain; lia|reflexivity].
  - destruct (valuePieces v) as [ch|] eqn:E.
    + rewrite str_all_app. apply andb_true_iff. split.
      * destruct (z >? 0)%Z; [apply str_of_Z_plain; lia|reflexivity].
      * simpl. apply andb_true_iff. split; [apply (value_piece_letter v ch E)|].
        apply IH; lia.
    + apply IH. lia.
Qed.

Lemma render_row_nonempty (row : list Z) : forall (z : Z),
  (0 <= z)%Z -> (0 < z)%Z \/ row <> [] -> render_row z row <> "".
Proof.
  induction row as [|v row IH]; intros z Hz Hne; simpl.
  - destruct Hne as [Hne|Hne]; [|congruence].
    replace (z >? 0)%Z with true by (symmetry; apply Z.gtb_lt; lia).
    apply str_of_Z_nonempty.
  - destruct (valuePieces v) as [ch|].
    + apply app_nonempty. discriminate.
    + apply IH; lia.
Qed.

Local Close Scope string_scope.

(** ** Updating a list by index *)

Lemma list_set_length {A} (l : list A) (n : nat) (x : A) :
  length (list_set l n x) = length l.
Proof. revert n. induction l as [|y l IH]; intros [|n]; simpl; auto. Qed.

Lemma nth_error_list_set_eq {A} (l : list A) (n : nat) (x : A) :
  (n < length l)%nat -> nth_error (list_set l n x) n = Some x.
Proof.
  revert n. induction l as [|y l IH]; intros [|n] H; simpl in *; try lia; auto.
  apply IH. lia.
Qed.

Lemma nth_error_list_set_ne {A} (l : list A) (n m : nat) (x : A) :
  n <> m -> nth_error (list_set l n x) m = nth_error l m.
Proof.
  revert n m. induction l as [|y l IH]; intros [|n] [|m] H; simpl; auto; try lia.
Qed.

Lemma list_set_twice {A} (l : list A) (n : nat) (x y : A) :
  list_set (list_set l n x) n y = list_set l n y.
Proof. revert n. induction l as [|z l IH]; intros [|n]; simpl; f_equal; auto. Qed.

Lemma list_set_same {A} (l : list A) (n : nat) (x : A) :
  nth_error l n = Some x -> list_set l n x = l.
Proof.
  revert n. induction l as [|z l IH]; intros [|n] H; simpl in *; try discriminate.
  - congruence.
  - f_equal. apply IH, H.
Qed.

Lemma list_set_app {A} (a b : list A) (n : nat) (x : A) :
  list_set (a ++ b) (length a + n) x = a ++ list_set b n x.
Proof. induction a as [|y a IH]; simpl; f_equal; auto. Qed.

Lemma set_board_same (st : state) : set_board st (board st) = st.
Proof. destruct st; reflexivity. Qed.

Lemma set_board_twice (st : state) (b1 b2 : board_t) :
  set_board (set_board st b1) b2 = set_board st b2.
Proof. reflexivity. Qed.


Lemma bset_in (b : board_t) (k f : nat) (R : list Z) (v : Z) :
  (k < 8)%nat -> (f < 8)%nat -> nth_error b k = Some R -> (f < length R)%nat ->
  bset b (Z.of_nat k, Z.of_nat f) v = Ok (list_set b k (list_set R f (v mod 256))).
Proof.
  intros Hk Hf E Hl. unfold bset. simpl.
  rewrite !np_idx_in by lia. rewrite !Nat2Z.id, E.
  destruct (nth_error R f) eqn:E2; [reflexivity|].
  apply nth_error_None in E2. lia.
Qed.

(** [set_fen] meets a digit. *)
Lemma parse_digit_step (k f n : Z) (d : ascii) (rest : string) (T : state) :
  py_int (String d EmptyString) = Ok n ->
  parse_rank k f (String d rest) T = parse_rank k (f + n) rest T.
Proof. intros H. cbn [parse_rank]. rewrite H. reflexivity. Qed.

(** [set_fen] meets a piece letter on file [f] of rank [k]. *)
Lemma parse_piece_step (k f : nat) (R : list Z) (ch : ascii) (v : Z) (rest : string)
  (T : state) :
  (k < 8)%nat -> (f < 8)%nat -> nth_error (board T) k = Some R -> (f < length R)%nat ->
  valuePieces v = Some ch ->
  parse_rank (Z.of_nat k) (Z.of_nat f) (String ch rest) T =
  parse_rank (Z.of_nat k) (Z.of_nat f + 1) rest
             (set_board T (list_set (board T) k (list_set R f v))).
Proof.
  intros Hk Hf E Hl Hv.
  destruct (value_piece_letter v ch Hv) as [Hlk [Hpy [_ Hr]]].
  cbn [parse_rank]. rewrite Hpy, Hlk.
  unfold mbind, m_bset. rewrite (bset_in _ k f R v Hk Hf E Hl).
  rewrite Z.mod_small by lia. reflexivity.
Qed.

(** Parsing the rendering of the rest [row] of a rank, [z] empty squares
    pending, into a rank that holds [pre] and zeros after it, writes
    [pre ++ zeros ++ row] into the rank. *)
Lemma parse_render_row (k : nat) (row : list Z) : forall (pre : list Z) (z : nat) (T : state),
  (k < 8)%nat ->
  Forall (fun v => valid_val v = true) row ->
  (length pre + z + length row = 8)%nat ->
  nth_error (board T) k = Some (pre ++ repeat 0%Z (8 - length pre)) ->
  parse_rank (Z.of_nat k) (Z.of_nat (length pre)) (render_row (Z.of_nat z) row) T =
    (Ok tt, set_board T (list_set (board T) k (pre ++ repeat 0%Z z ++ row))).
Proof.
  induction row as [|v row IH]; intros pre z T Hk Hrow Hlen E.
  - simpl render_row. rewrite app_nil_r.
    replace (8 - length pre)%nat with z in E by (simpl in Hlen; lia).
    rewrite (list_set_same _ _ _ E), set_board_same.
    destruct z as [|z'].
    + reflexivity.
    + destruct (small_run (S z')) as [d [Hd Hpy]]; [simpl in Hlen; lia|].
      replace (Z.of_nat (S z') >? 0)%Z with true by (symmetry; apply Z.gtb_lt; lia).
      rewrite Hd. cbn [parse_rank]. rewrite Hpy. reflexivity.
  - inversion Hrow as [|? ? Hv Hrow']; subst. simpl in Hlen.
    simpl render_row. destruct (valuePieces v) as [ch|] eqn:Ev.
    + (* a piece: first the pending run, then the letter *)
      set (R' := (pre ++ repeat 0%Z z ++ [v]) ++ repeat 0%Z (8 - length (pre ++ repeat 0%Z z ++ [v]))).
      assert (HR : list_set (pre ++ repeat 0%Z (8 - length pre)) (length pre + z) v = R').
      { unfold R'.
        set (m := (8 - (length pre + z + 1))%nat).
        replace (8 - length pre)%nat with (z + S m)%nat by (unfold m; lia).
        replace (8 - length (pre ++ repeat 0%Z z ++ [v]))%nat with m
          by (rewrite !length_app, repeat_length; change (length [v]) with 1%nat; unfold m; lia).
        rewrite repeat_app, list_set_app.
        replace (list_set (repeat 0%Z z ++ repeat 0%Z (S m)) z v)
          with (list_set (repeat 0%Z z ++ repeat 0%Z (S m)) (length (repeat 0%Z z) + 0) v)
          by (rewrite repeat_length, Nat.add_0_r; reflexivity).
        rewrite list_set_app. simpl. rewrite <- !app_assoc. reflexivity. }
      assert (Hstep : parse_rank (Z.of_nat k) (Z.of_nat (length pre + z)) (String ch (render_row 0 row)) T
                      = parse_rank (Z.of_nat k) (Z.of_nat (length pre + z) + 1) (render_row 0 row)
                                   (set_board T (list_set (board T) k R'))).
      { rewrite <- HR. apply parse_piece_step; try assumption; try lia.
        rewrite length_app, repeat_length. lia. }
      assert (Hlen' : (length (pre ++ repeat 0%Z z ++ [v]) + 0 + length row = 8)%nat).
      { rewrite !length_app, repeat_length. simpl. lia. }
      assert (E' : nth_error (board (set_board T (list_set (board T) k R'))) k =
                   Some ((pre ++ repeat 0%Z z ++ [v]) ++
                         repeat 0%Z (8 - length (pre ++ repeat 0%Z z ++ [v])))).
      { simpl. apply nth_error_list_set_eq. apply nth_error_Some. congruence. }
      pose proof (IH (pre ++ repeat 0%Z z ++ [v]) 0%nat _ Hk Hrow' Hlen' E') as IH'.
      replace (Z.of_nat (length (pre ++ repeat 0%Z z ++ [v])))
        with (Z.of_nat (length pre + z) + 1)%Z in IH'
        by (rewrite !length_app, repeat_length; simpl; lia).
      simpl in IH'. rewrite list_set_twice, <- !app_assoc in IH'. simpl in IH'.
      destruct z as [|z'].
      * rewrite Nat.add_0_r in Hstep, IH'.
        replace ((if (Z.of_nat 0 >? 0)%Z then str_of_Z (Z.of_nat 0) else EmptyString)
                 ++ String ch (render_row 0 row))%string
          with (String ch (render_row 0 row)) by reflexivity.
        rewrite Hstep, IH'. reflexivity.
      * destruct (small_run (S z')) as [d [Hd Hpy]]; [lia|].
        replace (Z.of_nat (S z') >? 0)%Z with true by (symmetry; apply Z.gtb_lt; lia).
        rewrite Hd.
        replace (String d EmptyString ++ String ch (render_row 0 row))%string
          with (String d (String ch (render_row 0 row))) by reflexivity.
        rewrite (parse_digit_step _ _ _ d _ T Hpy).
        rewrite <- Nat2Z.inj_add, Hstep, IH'. reflexivity.
    + (* an empty square joins the pending run *)
      apply valid_val_zero in Hv; [|exact Ev]. subst v.
      replace (Z.of_nat z + 1)%Z with (Z.of_nat (S z)) by lia.
      rewrite (IH pre (S z) T Hk Hrow' ltac:(lia) E).
      replace (repeat 0%Z (S z) ++ row) with (repeat 0%Z z ++ 0%Z :: row); [reflexivity|].
      change (repeat 0%Z (S z)) with (0%Z :: repeat 0%Z z).
      rewrite repeat_cons, <- app_assoc. reflexivity.
Qed.

(** A whole rank, read into a rank of zeros. *)
Lemma parse_rank_row (k : nat) (row : list Z) (T : state) :
  (k < 8)%nat -> length row = 8%nat -> Forall (fun v => valid_val v = true) row ->
  nth_error (board T) k = Some (repeat 0%Z 8) ->
  parse_rank (Z.of_nat k) 0 (render_row 0 row) T =
    (Ok tt, set_board T (list_set (board T) k row)).
Proof.
  intros Hk Hl Hrow E.
  exact (parse_render_row k row [] 0%nat T Hk Hrow ltac:(simpl; lia) E).
Qed.

(** The ranks [rows], read from rank [length P] on into a board that holds
    [P] and empty ranks after it. *)
Lemma parse_ranks_rows (rows : list (list Z)) : forall (P : board_t) (T : state),
  (length P + length rows = 8)%nat ->
  Forall (fun row => length row = 8%nat /\ Forall (fun v => valid_val v = true) row) rows ->
  board T = P ++ repeat (repeat 0%Z 8) (length rows) ->
  parse_ranks (map (render_row 0) rows) (Z.of_nat (length P)) T =
    (Ok tt, set_board T (P ++ rows)).
Proof.
  induction rows as [|r rows IH]; intros P T Hlen Hrows Hb.
  - simpl in Hb. rewrite app_nil_r in Hb. rewrite app_nil_r, <- Hb, set_board_same.
    reflexivity.
  - inversion Hrows as [|? ? [Hl Hr] Hrows']; subst. simpl in Hlen.
    cbn [map parse_ranks]. unfold mbind.
    assert (E : nth_error (board T) (length P) = Some (repeat 0%Z 8)).
    { rewrite Hb, nth_error_app2, Nat.sub_diag by lia. reflexivity. }
    rewrite (parse_rank_row (length P) r T ltac:(lia) Hl Hr E).
    assert (Hset : list_set (board T) (length P) r = (P ++ [r]) ++ repeat (repeat 0%Z 8) (length rows)).
    { rewrite Hb, <- (Nat.add_0_r (length P)), list_set_app, <- app_assoc. reflexivity. }
    rewrite Hset.
    replace (Z.of_nat (length P) + 1)%Z with (Z.of_nat (length (P ++ [r])))
      by (rewrite length_app; simpl; lia).
    rewrite (IH (P ++ [r]) (set_board T ((P ++ [r]) ++ repeat (repeat 0%Z 8) (length rows)))
                ltac:(rewrite length_app; simpl; lia) Hrows' eq_refl).
    rewrite set_board_twice, <- app_assoc. reflexivity.
Qed.

(** ** The fields of a notation record *)

Local Open Scope string_scope.

Lemma str_all_concat (f : ascii -> bool) (sep : string) (l : list string) :
  str_all f sep = true -> Forall (fun x => str_all f x = true) l ->
  str_all f (String.concat sep l) = true.
Proof.
  intros Hs Hl. induction Hl as [|x l Hx Hl IH]; [reflexivity|].
  destruct l as [|y l]; [exact Hx|].
  change (String.concat sep (x :: y :: l)) with (x ++ sep ++ String.concat sep (y :: l)).
  rewrite !str_all_app, Hx, Hs, IH. reflexivity.
Qed.

Lemma rstrip_sep_app (a b : string) (c : ascii) :
  rstrip b = b -> b <> "" ->
  rstrip (a ++ String c b) = a ++ String c b /\ a ++ String c b <> "".
Proof.
  intros Hb Hn. split; [|apply app_nonempty; discriminate].
  apply rstrip_app; [|discriminate].
  simpl. rewrite Hb. destruct b; [congruence|reflexivity].
Qed.

Lemma nospace_nosep (c : ascii) :
  negb (is_space c) = true -> negb (Ascii.eqb c " ") = true.
Proof. destruct (Ascii.eqb_spec c " "); [subst; vm_compute; auto|reflexivity]. Qed.

(** [set_fen] strips its argument and splits it at the spaces: on six
    space-free fields joined by spaces it finds the six fields again. *)
Lemma split_record (a b c d e f : string) :
  a <> "" -> f <> "" ->
  Forall (fun x => str_all (fun ch => negb (is_space ch)) x = true) [a; b; c; d; e; f] ->
  split_on " " (strip (String.concat " " [a; b; c; d; e; f])) = [a; b; c; d; e; f].
Proof.
  intros Ha Hf Hall.
  assert (Hall' := Hall).
  inversion Hall' as [|? ? Hsa G1]; inversion G1 as [|? ? Hsb G2];
  inversion G2 as [|? ? Hsc G3]; inversion G3 as [|? ? Hsd G4];
  inversion G4 as [|? ? Hse G5]; inversion G5 as [|? ? Hsf _]; subst.
  assert (Hs : strip (String.concat " " [a; b; c; d; e; f]) = String.concat " " [a; b; c; d; e; f]).
  { change (String.concat " " [a; b; c; d; e; f])
      with (a ++ String " " (b ++ String " " (c ++ String " " (d ++ String " " (e ++ String " " f))))).
    unfold strip. rewrite lstrip_app by assumption.
    destruct (rstrip_sep_app e f " " (rstrip_plain f Hsf) Hf) as [R1 N1].
    destruct (rstrip_sep_app d _ " " R1 N1) as [R2 N2].
    destruct (rstrip_sep_app c _ " " R2 N2) as [R3 N3].
    destruct (rstrip_sep_app b _ " " R3 N3) as [R4 N4].
    destruct (rstrip_sep_app a _ " " R4 N4) as [R5 _].
    exact R5. }
  rewrite Hs. apply split_on_concat; [discriminate|].
  eapply Forall_impl; [|exact Hall].
  intros x Hx. eapply str_all_impl; [apply nospace_nosep|exact Hx].
Qed.

(** The castling field: [set_fen] reads back the four rights [get_fen]
    writes. *)
Lemma castling_field (st : state) :
  has_char "K" (castling_str st) = cget (short_castle st) WHITE /\
  has_char "Q" (castling_str st) = cget (long_castle st) WHITE /\
  has_char "k" (castling_str st) = cget (short_castle st) BLACK /\
  has_char "q" (castling_str st) = cget (long_castle st) BLACK /\
  str_all (fun ch => negb (is_space ch)) (castling_str st) = true.
Proof.
  unfold castling_str, cget.
  destruct (short_castle st) as [[|] [|]], (long_castle st) as [[|] [|]];
  vm_compute; repeat split.
Qed.

Lemma in_range_cases (r c : Z) :
  in_range (r, c) = true ->
  (r = 0 \/ r = 1 \/ r = 2 \/ r = 3 \/ r = 4 \/ r = 5 \/ r = 6 \/ r = 7)%Z /\
  (c = 0 \/ c = 1 \/ c = 2 \/ c = 3 \/ c = 4 \/ c = 5 \/ c = 6 \/ c = 7)%Z.
Proof.
  unfold in_range. simpl. rewrite !andb_true_iff, !Z.leb_le. lia.
Qed.

(** The en passant field: [set_fen] reads back the target [get_fen]
    writes. *)
Lemma ep_field (e : option square) :
  wf_ep e ->
  exists s, (match e with None => Ok "-" | Some x => coor_to_str x end) = Ok s /\
            str_all (fun ch => negb (is_space ch)) s = true /\
            forall T,
              (if negb (String.eqb s "-") then
                 x <- lift (str_to_coor s) ;; modify (fun st => set_ep st (Some x))
               else modify (fun st => set_ep st None)) T = (Ok tt, set_ep T e).
Proof.
  destruct e as [[r c]|]; simpl.
  - intros H. destruct (in_range_cases r c H) as [Hr Hc].
    destruct Hr as [->|[->|[->|[->|[->|[->|[->| ->]]]]]]];
    destruct Hc as [->|[->|[->|[->|[->|[->|[->| ->]]]]]]];
    eexists; (split; [vm_compute; reflexivity|]); (split; [vm_compute; reflexivity|]);
    intros T; reflexivity.
  - intros _. exists "-". repeat split. 
Qed.

Local Close Scope string_scope.

(** ** The board field *)

Local Open Scope string_scope.

Lemma plain_nospace (c : ascii) : plain_char c = true -> negb (is_space c) = true.
Proof. unfold plain_char. rewrite !andb_true_iff. tauto. Qed.

Lemma plain_noslash (c : ascii) : plain_char c = true -> negb (Ascii.eqb c "/") = true.
Proof. unfold plain_char. rewrite !andb_true_iff. tauto. Qed.

Lemma app_nonempty_l (a b : string) : a <> "" -> a ++ b <> "".
Proof. destruct a; simpl; [congruence|discriminate]. Qed.

(** The ranks [get_fen] joins with slashes come apart again at the
    slashes. *)
Lemma board_field (b : board_t) :
  wf_board b ->
  String.concat "/" (map (render_row 0) (rev b)) <> "" /\
  str_all (fun ch => negb (is_space ch)) (String.concat "/" (map (render_row 0) (rev b))) = true /\
  split_on "/" (String.concat "/" (map (render_row 0) (rev b))) = map (render_row 0) (rev b).
Proof.
  intros [Hlen Hrows].
  assert (Hplain : Forall (fun x => str_all plain_char x = true) (map (render_row 0) (rev b))).
  { apply Forall_map, Forall_rev. eapply Forall_impl; [|exact Hrows].
    intros row _. apply render_row_plain. lia. }
  split; [|split].
  - destruct (rev b) as [|x l] eqn:Er.
    + apply (f_equal (@length (list Z))) in Er. rewrite length_rev in Er. simpl in Er. lia.
    + assert (Hx : In x b) by (apply in_rev; rewrite Er; left; reflexivity).
      rewrite Forall_forall in Hrows. destruct (Hrows x Hx) as [Hxl _].
      assert (Hne : render_row 0 x <> "").
      { apply render_row_nonempty; [lia|right]. intros ->. discriminate. }
      simpl. destruct l as [|y l]; [exact Hne|].
      apply app_nonempty_l, Hne.
  - apply str_all_concat; [reflexivity|].
    eapply Forall_impl; [|exact Hplain].
    intros x Hx. eapply str_all_impl; [apply plain_nospace|exact Hx].
  - apply split_on_concat.
    + destruct b as [|r b]; [discriminate|]. simpl. rewrite map_app. 
      destruct (map (render_row 0) (rev b)); discriminate.
    + eapply Forall_impl; [|exact Hplain].
      intros x Hx. eapply str_all_impl; [apply plain_noslash|exact Hx].
Qed.

Local Close Scope string_scope.

(** ** Running the monad *)

Lemma bind_ok {A B} (m : M A) (k : A -> M B) (st st' : state) (a : A) :
  m st = (Ok a, st') -> mbind m k st = k a st'.
Proof. intros H. unfold mbind. rewrite H. reflexivity. Qed.

Lemma bind_err {A B} (m : M A) (k : A -> M B) (st st' : state) (e : exn) :
  m st = (Err e, st') -> mbind m k st = (Err e, st').
Proof. intros H. unfold mbind. rewrite H. reflexivity. Qed.

(** ** [set_fen] reads back [get_fen]'s record *)

Local Open Scope string_scope.

(** On a well-formed position, [set_fen (get_fen st)] rebuilds the position
    of [st], records the string under the current half move and keeps
    [lastFen]. *)
Lemma set_fen_get_fen (st : state) (fen : string) :
  wf st -> get_fen st = Ok fen ->
  forall T, set_fen fen T =
    (Ok tt, with_hist st (dict_set (half_move_counter st) fen (moves T)) (lastFen T)).
Proof.
  intros [Hb Hep] Hg T.
  destruct (board_field (board st) Hb) as (HBne & HBsp & HBsplit).
  destruct (ep_field _ Hep) as (s & Hs & Hssp & Hsrd).
  destruct (castling_field st) as (HK & HQ & Hk & Hq & Hcsp).
  assert (Hfen : fen = String.concat " " [String.concat "/" (map (render_row 0) (rev (board st)));
                                          match toMove st with WHITE => "w" | BLACK => "b" end;
                                          castling_str st; s; str_of_Z (halfMoveClock st);
                                          str_of_Z (moveCounter st)]).
  { unfold get_fen in Hg. rewrite Hs in Hg. injection Hg as <-. reflexivity. }
  subst fen.
  unfold set_fen. rewrite split_record.
  2: exact HBne.
  2: apply str_of_Z_nonempty.
  2: repeat constructor; try assumption; try apply str_of_Z_nospace;
     destruct (toMove st); reflexivity.
  cbn beta iota.
  rewrite HBsplit, map_rev, rev_involutive.
  set (fen := String.concat " " _).
  destruct Hb as [Hlen Hrows].
  assert (HP := parse_ranks_rows (board st) [] (set_board T zeros_board)
                  ltac:(simpl; lia) Hrows ltac:(simpl; rewrite Hlen; reflexivity)).
  cbn [length Z.of_nat app] in HP.
  rewrite HK, HQ, Hk, Hq, !py_int_str_of_Z.
  cbn [mbind modify]. rewrite (bind_ok _ _ _ _ _ HP).
  set (EP := (if negb (String.eqb s "-") then
                 x <- lift (str_to_coor s) ;; modify (fun st => set_ep st (Some x))
               else modify (fun st => set_ep st None)) : M unit) in *.
  clearbody EP.
  destruct (toMove st) eqn:Etm;
  cbn [mbind modify String.eqb Ascii.eqb Bool.eqb andb negb];
  rewrite (bind_ok _ _ _ _ _ (Hsrd _)); cbn [mbind modify lift];
  unfold with_hist, half_move_counter;
  cbn [set_board set_toMove set_short set_long set_ep set_hmc set_counter set_moves
       board moves toMove enPassantTarget long_castle short_castle halfMoveClock
       moveCounter lastFen cset cget fst snd];
  rewrite Etm; destruct (short_castle st), (long_castle st); reflexivity.
Qed.

Local Close Scope string_scope.

(** ** [_push_move] does not look at the history *)

Lemma get_fen_hist (S : state) (mv : list (Z * string)) (lf : string) :
  get_fen (with_hist S mv lf) = get_fen S.
Proof. reflexivity. Qed.

Lemma in_check_hist (S : state) (mv : list (Z * string)) (lf : string) (c : Colour) :
  in_check (with_hist S mv lf) c = in_check S c.
Proof. reflexivity. Qed.

Lemma hi_ret {A} (a : A) : hist_inv (ret a).
Proof. intros S mv lf. reflexivity. Qed.

Lemma hi_raise {A} (e : exn) : hist_inv (@raise A e).
Proof. intros S mv lf. reflexivity. Qed.

Lemma hi_lift {A} (r : res A) : hist_inv (lift r).
Proof. intros S mv lf. reflexivity. Qed.

Lemma hi_gets {A} (f : state -> res A) :
  (forall S mv lf, f (with_hist S mv lf) = f S) -> hist_inv (gets f).
Proof. intros H S mv lf. unfold gets. rewrite H. reflexivity. Qed.

Lemma hi_modify (f : state -> state) :
  (forall S mv lf, f (with_hist S mv lf) = with_hist (f S) mv lf) -> hist_inv (modify f).
Proof. intros H S mv lf. unfold modify. rewrite H. reflexivity. Qed.

Lemma hi_bind {A B} (m : M A) (k : A -> M B) :
  hist_inv m -> (forall a, hist_inv (k a)) -> hist_inv (mbind m k).
Proof.
  intros Hm Hk S mv lf. unfold mbind. rewrite Hm.
  destruct (m S) as [[a|e] s']; cbn [fst snd]; [apply Hk|reflexivity].
Qed.

Lemma hi_get_state {B} (k : state -> M B) :
  (forall S mv lf, k (with_hist S mv lf) = k S) -> (forall s, hist_inv (k s)) ->
  hist_inv (mbind get_state k).
Proof.
  intros Hk Hi S mv lf. unfold mbind, get_state. rewrite Hk. apply Hi.
Qed.

Lemma hi_m_bset (x : square) (v : Z) : hist_inv (m_bset x v).
Proof. intros S mv lf. unfold m_bset. simpl. destruct (bset (board S) x v); reflexivity. Qed.

Lemma hi_m_bget (x : square) : hist_inv (m_bget x).
Proof. apply hi_gets. reflexivity. Qed.

Ltac hi_solve :=
  repeat
    match goal with
    | |- hist_inv (ret _) => apply hi_ret
    | |- hist_inv (raise _) => apply hi_raise
    | |- hist_inv (lift _) => apply hi_lift
    | |- hist_inv (m_bset _ _) => apply hi_m_bset
    | |- hist_inv (m_bget _) => apply hi_m_bget
    | |- hist_inv (mbind get_state _) => apply hi_get_state; [intros; reflexivity|intro]
    | |- hist_inv (mbind _ _) => apply hi_bind; [|intro]
    | |- hist_inv (if ?b then _ else _) => destruct b
    | |- hist_inv (match ?x with _ => _ end) => destruct x
    end.

(** [_push_move] with its first two statements, which record [lastFen]. *)
Lemma hi_set_last {A} (R : string -> M A) (S : state) (mv : list (Z * string))
  (lf fen : string) :
  (forall f, hist_inv (R f)) -> get_fen S = Ok fen ->
  (f <- gets get_fen ;; modify (fun st => set_lastFen st f) ;;; R f) (with_hist S mv lf) =
  (fst ((f <- gets get_fen ;; modify (fun st => set_lastFen st f) ;;; R f) S),
   with_hist (snd ((f <- gets get_fen ;; modify (fun st => set_lastFen st f) ;;; R f) S)) mv fen).
Proof.
  intros HR Hf. unfold mbind, gets, modify. rewrite get_fen_hist, Hf.
  exact (HR fen (set_lastFen S fen) mv fen).
Qed.

Lemma push_move_hist (a b : square) (p : Piece * Colour) (pr : Piece) (S : state)
  (mv : list (Z * string)) (lf fen : string) :
  get_fen S = Ok fen ->
  push_move a b p pr (with_hist S mv lf) =
    (fst (push_move a b p pr S), with_hist (snd (push_move a b p pr S)) mv fen).
Proof.
  intros Hf. unfold push_move. apply hi_set_last; [|exact Hf].
  intros f. hi_solve.
Qed.

Lemma with_hist_self (S : state) : with_hist S (moves S) (lastFen S) = S.
Proof. destruct S; reflexivity. Qed.

Lemma with_hist_twice (S : state) mv lf mv' lf' :
  with_hist (with_hist S mv lf) mv' lf' = with_hist S mv' lf'.
Proof. reflexivity. Qed.

(** [_push_move] keeps the history and records [lastFen]. *)
Lemma push_move_shape (a b : square) (p : Piece * Colour) (pr : Piece) (S : state)
  (fen : string) :
  get_fen S = Ok fen ->
  push_move a b p pr S =
    (fst (push_move a b p pr S), with_hist (snd (push_move a b p pr S)) (moves S) fen).
Proof.
  intros Hf. rewrite <- (with_hist_self S) at 1. apply push_move_hist, Hf.
Qed.

Lemma get_fen_ok (S : state) : wf S -> exists fen, get_fen S = Ok fen.
Proof.
  intros [_ Hep]. destruct (ep_field _ Hep) as (s & Hs & _).
  unfold get_fen. rewrite Hs. eexists. reflexivity.
Qed.

Lemma dict_set_twice (k : Z) (v : string) (d : list (Z * string)) :
  dict_set k v (dict_set k v d) = dict_set k v d.
Proof.
  induction d as [|[k' v'] d IH]; simpl.
  - rewrite Z.eqb_refl. reflexivity.
  - destruct (k' =? k) eqn:E; simpl.
    + rewrite Z.eqb_refl. reflexivity.
    + rewrite E, IH. reflexivity.
Qed.

(** The simulation loop: each destination is played on the position of
    [S0], checked and taken back by [_pop_move], which writes [S0]'s
    record into the history. *)
Lemma lm_loop_ok (q : square) (p : Piece * Colour) (S0 : state) (fen0 : string) :
  wf S0 -> get_fen S0 = Ok fen0 ->
  forall rf lm mv lf lm' S',
  lm_loop q p rf lm (with_hist S0 mv lf) = (Ok lm', S') ->
  exists l, lm_pure S0 q p rf = Ok l /\ lm' = lm ++ l /\
    S' = match rf with
         | [] => with_hist S0 mv lf
         | _ => with_hist S0 (dict_set (half_move_counter S0) fen0 mv) fen0
         end.
Proof.
  intros Hwf Hf rf. induction rf as [|f rf IH]; intros lm mv lf lm' S' H.
  - cbn in H. injection H as <- <-. exists []. rewrite app_nil_r. auto.
  - cbn [lm_loop] in H. unfold mbind at 1 in H.
    rewrite (push_move_hist _ _ _ _ _ _ _ _ Hf) in H.
    destruct (push_move q f p QUEEN S0) as [[u|e] s1] eqn:EP; cbn [fst snd] in H;
      [|discriminate].
    unfold mbind at 1, gets in H. rewrite in_check_hist in H.
    destruct (in_check s1 (snd p)) as [chk|e] eqn:EC; [|discriminate].
    unfold mbind at 1, pop_move, mbind at 1, get_state in H.
    cbn [lastFen with_hist] in H.
    rewrite (set_fen_get_fen S0 fen0 Hwf Hf) in H. cbn [moves with_hist] in H.
    destruct (IH _ _ _ _ _ H) as (l & Hl & Hlm & HS).
    exists (if negb chk then f :: l else l). unfold lm_pure in *. cbn [filter_res].
    unfold sim_check at 1. rewrite EP, EC. cbn [rbind]. rewrite Hl. cbn [rbind].
    split; [reflexivity|split].
    + rewrite Hlm. destruct chk; simpl; [reflexivity|rewrite <- app_assoc; reflexivity].
    + rewrite HS. destruct rf; [reflexivity|]. rewrite dict_set_twice. reflexivity.
Qed.

(** [legal_moves] on a well-formed position answers [legal_pure]; the
    position is restored and, when a simulation ran, the record of the
    position is written into the history under the current half move. *)
Lemma legal_moves_ok (S : state) (q : square) (lm : list square) (S' : state) :
  wf S -> legal_moves q S = (Ok lm, S') ->
  legal_pure S q = Ok lm /\
  (S' = S \/ exists fen, get_fen S = Ok fen /\
                         S' = with_hist S (dict_set (half_move_counter S) fen (moves S)) fen).
Proof.
  intros Hwf H. destruct (get_fen_ok S Hwf) as [fen0 Hf].
  unfold legal_moves, legal_pure in *. unfold mbind at 1, gets in H.
  destruct (reachable_fields S q) as [rf|e]; [|discriminate]. cbn [rbind].
  unfold mbind at 1, m_bget, gets in H.
  destruct (bget (board S) q) as [v|e]; [|discriminate]. cbn [rbind].
  unfold mbind at 1, lift in H.
  destruct (val_to_piece v) as [[[k c]|]|e]; [| |discriminate]; cbn [rbind].
  2: { unfold ret in H. injection H as <- <-. auto. }
  unfold mbind at 1 in H.
  destruct (piece_eqb k KING).
  - unfold gets in H. destruct (castle_candidates S q c rf) as [rf'|e]; [|discriminate].
    cbn [rbind]. unfold mbind in H.
    rewrite <- (with_hist_self S) in H at 1.
    destruct (lm_loop q (k, c) rf' [] (with_hist S (moves S) (lastFen S))) as [[lm0|e] S1] eqn:EL;
      [|discriminate].
    destruct (lm_loop_ok q (k, c) S fen0 Hwf Hf _ _ _ _ _ _ EL) as (l & Hl & -> & HS).
    rewrite Hl. cbn [rbind]. unfold ret in H. injection H as <- <-. split; [reflexivity|].
    destruct rf'; [left; rewrite HS; apply with_hist_self|right; eauto].
  - unfold ret at 1 in H. cbn beta iota in H. unfold mbind in H.
    rewrite <- (with_hist_self S) in H at 1.
    destruct (lm_loop q (k, c) rf [] (with_hist S (moves S) (lastFen S))) as [[lm0|e] S1] eqn:EL;
      [|discriminate].
    destruct (lm_loop_ok q (k, c) S fen0 Hwf Hf _ _ _ _ _ _ EL) as (l & Hl & -> & HS).
    cbn [rbind]. rewrite Hl. cbn [rbind]. unfold ret in H. injection H as <- <-.
    split; [reflexivity|].
    destruct rf; [left; rewrite HS; apply with_hist_self|right; eauto].
Qed.

(** ** Which exceptions the helpers raise *)

Lemma ri_ok {A} (a : A) : r_int (Ok a).
Proof. exact I. Qed.

Lemma ri_bind {A B} (r : res A) (k : A -> res B) :
  r_int r -> (forall a, r_int (k a)) -> r_int (rbind r k).
Proof. destruct r; simpl; auto. Qed.

Lemma ri_bget (b : board_t) (x : square) : r_int (bget b x).
Proof.
  unfold bget. destruct (np_idx (fst x)), (np_idx (snd x)); try reflexivity.
  destruct (nth_error b n) as [row|]; [|reflexivity].
  destruct (nth_error row n0); [exact I|reflexivity].
Qed.

Lemma ri_bset (b : board_t) (x : square) (v : Z) : r_int (bset b x v).
Proof.
  unfold bset. destruct (np_idx (fst x)), (np_idx (snd x)); try reflexivity.
  destruct (nth_error b n) as [row|]; [|reflexivity].
  destruct (nth_error row n0); [exact I|reflexivity].
Qed.

Lemma ri_val_to_piece (v : Z) : r_int (val_to_piece v).
Proof.
  unfold val_to_piece. destruct (v =? 0); [exact I|].
  destruct (piece_of_value _); [exact I|reflexivity].
Qed.

Lemma ri_piece_colour (v : Z) : r_int (piece_colour v).
Proof.
  unfold piece_colour. apply ri_bind; [apply ri_val_to_piece|].
  intros [[[] c]|]; simpl; auto.
Qed.

Lemma ri_filter_res {A} (f : A -> res bool) (l : list A) :
  (forall x, r_int (f x)) -> r_int (filter_res f l).
Proof.
  intros H. induction l as [|x l IH]; simpl; [exact I|].
  apply ri_bind; [apply H|intros b]. apply ri_bind; [exact IH|intros; exact I].
Qed.

Lemma ri_flat_map_res {A B} (f : A -> res (list B)) (l : list A) :
  (forall x, r_int (f x)) -> r_int (flat_map_res f l).
Proof.
  intros H. induction l as [|x l IH]; simpl; [exact I|].
  apply ri_bind; [apply H|intros ys]. apply ri_bind; [exact IH|intros; exact I].
Qed.

Lemma ri_exists_res {A} (f : A -> res bool) (l : list A) :
  (forall x, r_int (f x)) -> r_int (exists_res f l).
Proof.
  intros H. induction l as [|x l IH]; simpl; [exact I|].
  apply ri_bind; [apply H|intros [|]]; [exact I|exact IH].
Qed.

Ltac ri_solve :=
  repeat
    match goal with
    | |- r_int (Ok _) => exact I
    | |- r_int (Err _) => reflexivity
    | |- r_int (rbind _ _) => apply ri_bind; [|intro]
    | |- r_int (bget _ _) => apply ri_bget
    | |- r_int (bset _ _ _) => apply ri_bset
    | |- r_int (val_to_piece _) => apply ri_val_to_piece
    | |- r_int (piece_colour _) => apply ri_piece_colour
    | |- r_int (filter_res _ _) => apply ri_filter_res; intro
    | |- r_int (flat_map_res _ _) => apply ri_flat_map_res; intro
    | |- r_int (exists_res _ _) => apply ri_exists_res; intro
    | |- r_int (if ?b then _ else _) => destruct b
    | |- r_int (match ?x with _ => _ end) => destruct x
    end.

Lemma ri_ray (n : nat) (st : state) (c : Colour) (d cur : square) : r_int (ray n st c d cur).
Proof.
  revert cur. induction n as [|n IH]; intros cur; simpl; [exact I|].
  ri_solve; apply IH.
Qed.

Lemma ri_reachable_fields (st : state) (x : square) : r_int (reachable_fields st x).
Proof.
  unfold reachable_fields, pawn_fields, pawn_base, knight_fields, bishop_fields,
    rook_fields, king_fields.
  ri_solve; apply ri_ray.
Qed.

Lemma ri_in_check (st : state) (c : Colour) : r_int (in_check st c).
Proof.
  unfold in_check. ri_solve. apply ri_reachable_fields.
Qed.

Lemma ri_castle_candidates (st : state) (x : square) (c : Colour) (rf : list square) :
  r_int (castle_candidates st x c rf).
Proof. unfold castle_candidates. ri_solve. Qed.

Lemma ri_get_fen (st : state) : r_int (get_fen st).
Proof. unfold get_fen, coor_to_str, tbl_key. ri_solve. Qed.

Lemma ri_str_to_coor (s : string) : r_int (str_to_coor s).
Proof. unfold str_to_coor. ri_solve. Qed.

Lemma ri_py_int (s : string) : r_int (py_int s).
Proof. unfold py_int. ri_solve. Qed.

Lemma mi_bind {A B} (m : M A) (k : A -> M B) :
  m_int m -> (forall a, m_int (k a)) -> m_int (mbind m k).
Proof.
  intros Hm Hk st. unfold mbind. specialize (Hm st).
  destruct (m st) as [[a|e] s']; [apply Hk|exact Hm].
Qed.

Lemma mi_lift {A} (r : res A) : r_int r -> m_int (lift r).
Proof. intros H st. exact H. Qed.

Lemma mi_gets {A} (f : state -> res A) : (forall st, r_int (f st)) -> m_int (gets f).
Proof. intros H st. apply H. Qed.

Lemma mi_m_bset (x : square) (v : Z) : m_int (m_bset x v).
Proof.
  intros st. unfold m_bset. pose proof (ri_bset (board st) x v) as H.
  destruct (bset (board st) x v); [exact I|exact H].
Qed.

Ltac mi_solve :=
  repeat
    match goal with
    | |- m_int (ret _) => intro; exact I
    | |- m_int (raise _) => intro; reflexivity
    | |- m_int (modify _) => intro; exact I
    | |- m_int get_state => intro; exact I
    | |- m_int (m_bset _ _) => apply mi_m_bset
    | |- m_int (m_bget _) => apply mi_gets; intro; apply ri_bget
    | |- m_int (lift (str_to_coor _)) => apply mi_lift, ri_str_to_coor
    | |- m_int (lift (py_int _)) => apply mi_lift, ri_py_int
    | |- m_int (lift (val_to_piece _)) => apply mi_lift, ri_val_to_piece
    | |- m_int (lift (Ok _)) => intro; exact I
    | |- m_int (gets get_fen) => apply mi_gets, ri_get_fen
    | |- m_int (gets (fun st => in_check st _)) => apply mi_gets; intro; apply ri_in_check
    | |- m_int (gets (fun st => reachable_fields st _)) =>
        apply mi_gets; intro; apply ri_reachable_fields
    | |- m_int (gets (fun st => castle_candidates st _ _ _)) =>
        apply mi_gets; intro; apply ri_castle_candidates
    | |- m_int (mbind _ _) => apply mi_bind; [|intro]
    | |- m_int (if ?b then _ else _) => destruct b
    | |- m_int (match ?x with _ => _ end) => destruct x
    end.

Lemma mi_parse_rank (rank : Z) (r : string) : forall file, m_int (parse_rank rank file r).
Proof.
  induction r as [|ch r IH]; intros file; simpl; mi_solve; apply IH.
Qed.

Lemma mi_parse_ranks (rs : list string) : forall rank, m_int (parse_ranks rs rank).
Proof.
  induction rs as [|r rs IH]; intros rank; simpl; mi_solve;
    [apply mi_parse_rank|apply IH].
Qed.

Lemma mi_set_fen (fen : string) : m_int (set_fen fen).
Proof. unfold set_fen. mi_solve; apply mi_parse_ranks. Qed.

Lemma mi_push_move (a b : square) (p : Piece * Colour) (pr : Piece) :
  m_int (push_move a b p pr).
Proof. unfold push_move. mi_solve. Qed.

Lemma mi_lm_loop (q : square) (p : Piece * Colour) (rf : list square) :
  forall lm, m_int (lm_loop q p rf lm).
Proof.
  induction rf as [|f rf IH]; intros lm; simpl; mi_solve.
  - apply mi_push_move.
  - unfold pop_move. mi_solve. apply mi_set_fen.
  - apply IH.
Qed.

Lemma mi_legal_moves (q : square) : m_int (legal_moves q).
Proof. unfold legal_moves. mi_solve; apply mi_lm_loop. Qed.

Lemma mi_count_legal (ps : list square) : forall acc, m_int (count_legal ps acc).
Proof.
  induction ps as [|x ps IH]; intros acc; simpl; mi_solve; [apply mi_legal_moves|apply IH].
Qed.

Lemma mi_move_apply (a b : square) (p : Piece * Colour) (cap : bool) (pr : Piece) :
  m_int (move_apply a b p cap pr).
Proof. unfold move_apply. destruct p. mi_solve. apply mi_push_move. Qed.

(** ** Reading off a run *)

Lemma bind_inv {A B} (m : M A) (k : A -> M B) (st st' : state) (r : res B) :
  mbind m k st = (r, st') ->
  (exists a s1, m st = (Ok a, s1) /\ k a s1 = (r, st')) \/
  (exists e, m st = (Err e, st') /\ r = Err e).
Proof.
  unfold mbind. destruct (m st) as [[a|e] s1]; intros H.
  - left. eauto.
  - right. inversion H. eauto.
Qed.

Lemma gets_inv {A} (f : state -> res A) (st st' : state) (r : res A) :
  gets f st = (r, st') -> r = f st /\ st' = st.
Proof. unfold gets. intros H. inversion H. auto. Qed.

Lemma modify_inv (f : state -> state) (st st' : state) (r : res unit) :
  modify f st = (r, st') -> r = Ok tt /\ st' = f st.
Proof. unfold modify. intros H. inversion H. auto. Qed.

Lemma mi_err {A} (m : M A) (st st' : state) (e : exn) :
  m_int m -> m st = (Err e, st') -> internal e = true.
Proof. intros H E. specialize (H st). rewrite E in H. exact H. Qed.

Lemma accepted_internal {A} (e : exn) : internal e = true -> @accepted A (Err e) = false.
Proof. destruct e; simpl; congruence. Qed.

Lemma wf_with_hist (S : state) mv lf : wf (with_hist S mv lf) <-> wf S.
Proof. reflexivity. Qed.

Lemma hist_step_refl (S : state) (fen : string) : hist_step S fen S.
Proof. left. reflexivity. Qed.

Lemma hist_step_with_hist (S T : state) (fen : string) :
  hist_step S fen T -> exists mv lf, T = with_hist S mv lf.
Proof.
  intros [->| ->]; [exists (moves S), (lastFen S); symmetry; apply with_hist_self|eauto].
Qed.

Lemma hist_step_wf (S T : state) (fen : string) : hist_step S fen T -> wf S -> wf T.
Proof. intros H. destruct (hist_step_with_hist _ _ _ H) as (mv & lf & ->). apply wf_with_hist. Qed.

Lemma hist_step_get_fen (S T : state) (fen : string) :
  hist_step S fen T -> get_fen T = get_fen S.
Proof. intros H. destruct (hist_step_with_hist _ _ _ H) as (mv & lf & ->). apply get_fen_hist. Qed.

Lemma hist_step_trans (S T U : state) (fen : string) :
  hist_step S fen T -> hist_step T fen U -> hist_step S fen U.
Proof.
  intros [-> | ->] HU; [exact HU|].
  destruct HU as [-> | ->]; [right; reflexivity|].
  right. rewrite with_hist_twice.
  change (half_move_counter (with_hist S (dict_set (half_move_counter S) fen (moves S)) fen))
    with (half_move_counter S).
  change (moves (with_hist S (dict_set (half_move_counter S) fen (moves S)) fen))
    with (dict_set (half_move_counter S) fen (moves S)).
  rewrite dict_set_twice. reflexivity.
Qed.

Lemma legal_moves_step (S : state) (q : square) (fen : string) (lm : list square) (S' : state) :
  wf S -> get_fen S = Ok fen -> legal_moves q S = (Ok lm, S') -> hist_step S fen S'.
Proof.
  intros Hw Hf Hl. destruct (legal_moves_ok S q lm S' Hw Hl) as [_ [->|(fen' & Hf' & ->)]].
  - apply hist_step_refl.
  - rewrite Hf in Hf'. injection Hf' as <-. right. reflexivity.
Qed.

Lemma count_legal_step (S : state) (fen : string) (ps : list square) :
  wf S -> get_fen S = Ok fen ->
  forall acc T n S', hist_step S fen T -> count_legal ps acc T = (Ok n, S') ->
  hist_step S fen S'.
Proof.
  intros Hw Hf. induction ps as [|x ps IH]; intros acc T n S' HT Hc; simpl in Hc.
  - unfold ret in Hc. inversion Hc. subst. exact HT.
  - apply bind_inv in Hc. destruct Hc as [(lm & T1 & Hl & Hc)|(e & _ & He)]; [|discriminate].
    eapply IH; [|exact Hc]. eapply hist_step_trans; [exact HT|].
    eapply legal_moves_step; [eapply hist_step_wf; eauto| |exact Hl].
    rewrite (hist_step_get_fen _ _ _ HT). exact Hf.
Qed.

Lemma ri_repetition (st : state) : r_int (repetition st).
Proof. unfold repetition. destruct (dict_get _ _); [exact I|reflexivity]. Qed.

(** The end of [move]: the checks for the game's end only read the position;
    the legal-move count stores the record of the position. *)
Lemma outcome_run (S : state) (fen : string) (r : res unit) (S' : state) :
  wf S -> get_fen S = Ok fen -> move_outcome S = (r, S') ->
  (accepted r = true /\ hist_step S fen S') \/ (exists e, r = Err e /\ internal e = true).
Proof.
  intros Hw Hf H. unfold move_outcome in H.
  apply bind_inv in H. destruct H as [(rep & s1 & Hs & H)|(e & Hs & ->)].
  2:{ apply gets_inv in Hs as [He ->]. right. exists e. split; [reflexivity|].
      pose proof (ri_repetition S) as Hr. rewrite <- He in Hr. exact Hr. }
  apply gets_inv in Hs as [Hrep ->].
  destruct rep.
  { unfold raise in H. inversion H; subst. left. split; [reflexivity|apply hist_step_refl]. }
  apply bind_inv in H. destruct H as [(st & s1 & Hs & H)|(e & Hs & ->)];
    [|unfold get_state in Hs; discriminate].
  unfold get_state in Hs. inversion Hs; subst s1 st. clear Hs.
  apply bind_inv in H. destruct H as [(total & T & Hc & H)|(e & Hc & ->)].
  2:{ right. exists e. split; [reflexivity|]. eapply mi_err; [apply mi_count_legal|exact Hc]. }
  pose proof (count_legal_step S fen _ Hw Hf _ _ _ _ (hist_step_refl S fen) Hc) as HT.
  destruct (total =? 0).
  - apply bind_inv in H. destruct H as [(chk & s1 & Hs & H)|(e & Hs & ->)].
    2:{ apply gets_inv in Hs as [He ->]. right. exists e. split; [reflexivity|].
        pose proof (ri_in_check T (toMove T)) as Hr. rewrite <- He in Hr. exact Hr. }
    apply gets_inv in Hs as [_ ->].
    apply bind_inv in H. destruct H as [(st & s1 & Hs & H)|(e & Hs & ->)];
      [|unfold get_state in Hs; discriminate].
    unfold get_state in Hs. inversion Hs; subst s1 st. clear Hs.
    destruct chk; unfold raise in H; inversion H; subst; left; split; auto.
  - apply bind_inv in H. destruct H as [(st & s1 & Hs & H)|(e & Hs & ->)];
      [|unfold get_state in Hs; discriminate].
    unfold get_state in Hs. inversion Hs; subst s1 st. clear Hs.
    destruct (halfMoveClock T >=? 50); unfold raise, ret in H; inversion H; subst;
      left; split; auto.
Qed.

Lemma colour_eqb_eq (a b : Colour) : colour_eqb a b = true -> a = b.
Proof. destruct a, b; intros H; vm_compute in H; congruence. Qed.

(** The start of [move]: the three rejections, and on success the moving
    piece, read on [start], and the [legal_moves] run that admitted [end_]. *)
Lemma validate_run (S : state) (fen : string) (a b : square) r (S' : state) :
  wf S -> get_fen S = Ok fen -> move_validate a b S = (r, S') ->
  match r with
  | Ok (pc, _) =>
      (exists v, bget (board S) a = Ok v /\ val_to_piece v = Ok (Some pc)) /\
      snd pc = toMove S /\
      exists lm, legal_moves a S = (Ok lm, S') /\ mem_sq b lm = true
  | Err e =>
      internal e = true \/
      ((exists m, e = NoPiecePresent m \/ e = NotYourTurn m) /\ S' = S) \/
      ((exists m, e = IllegalMove m) /\ hist_step S fen S')
  end.
Proof.
  intros Hw Hf H. unfold move_validate in H.
  apply bind_inv in H. destruct H as [(v & s1 & Hs & H)|(e & Hs & ->)].
  2:{ unfold m_bget in Hs. apply gets_inv in Hs as [He ->]. left.
      pose proof (ri_bget (board S) a) as Hr. rewrite <- He in Hr. exact Hr. }
  unfold m_bget in Hs. apply gets_inv in Hs as [Hv ->].
  apply bind_inv in H. destruct H as [(p & s1 & Hs & H)|(e & Hs & ->)].
  2:{ unfold lift in Hs. inversion Hs; subst. left.
      pose proof (ri_val_to_piece v) as Hr. rewrite H0 in Hr. exact Hr. }
  unfold lift in Hs. inversion Hs; subst s1. clear Hs.
  destruct p as [[k c]|].
  2:{ unfold raise in H. inversion H; subst. right. left. split; [eauto|reflexivity]. }
  apply bind_inv in H. destruct H as [(st & s1 & Hs & H)|(e & Hs & ->)];
    [|unfold get_state in Hs; discriminate].
  unfold get_state in Hs. inversion Hs; subst s1 st. clear Hs.
  destruct (colour_eqb c (toMove S)) eqn:Ec; cbn [negb] in H.
  2:{ unfold raise in H. inversion H; subst. right. left. split; [eauto|reflexivity]. }
  apply bind_inv in H. destruct H as [(lm & T & Hl & H)|(e & Hl & ->)].
  2:{ left. eapply mi_err; [apply mi_legal_moves|exact Hl]. }
  destruct (mem_sq b lm) eqn:Em; cbn [negb] in H.
  2:{ unfold raise in H. inversion H; subst. right. right. split; [eauto|].
      eapply legal_moves_step; eauto. }
  apply bind_inv in H. destruct H as [(ve & s1 & Hs & H)|(e & Hs & ->)].
  2:{ unfold m_bget in Hs. apply gets_inv in Hs as [He ->]. left.
      pose proof (ri_bget (board T) b) as Hr. rewrite <- He in Hr. exact Hr. }
  unfold m_bget in Hs. apply gets_inv in Hs as [_ ->].
  unfold ret in H. inversion H; subst.
  split; [eauto|]. split; [apply colour_eqb_eq, Ec|eauto].
Qed.

(** ** [_push_move] changes the board and [lastFen] only *)

Lemma kp_same (S : state) : S = set_board (set_lastFen S (lastFen S)) (board S).
Proof. destruct S; reflexivity. Qed.

Lemma kp_ret {A} (a : A) : keeps_pos (ret a).
Proof. intros S. exists (board S), (lastFen S). apply kp_same. Qed.

Lemma kp_raise {A} (e : exn) : keeps_pos (@raise A e).
Proof. intros S. exists (board S), (lastFen S). apply kp_same. Qed.

Lemma kp_gets {A} (f : state -> res A) : keeps_pos (gets f).
Proof. intros S. exists (board S), (lastFen S). apply kp_same. Qed.

Lemma kp_m_bset (x : square) (v : Z) : keeps_pos (m_bset x v).
Proof.
  intros S. unfold m_bset. destruct (bset (board S) x v) as [b|e]; cbn [snd].
  - exists b, (lastFen S). destruct S; reflexivity.
  - exists (board S), (lastFen S). apply kp_same.
Qed.

Lemma kp_bind {A B} (m : M A) (k : A -> M B) :
  keeps_pos m -> (forall a, keeps_pos (k a)) -> keeps_pos (mbind m k).
Proof.
  intros Hm Hk S. unfold mbind. destruct (Hm S) as (b & lf & E).
  destruct (m S) as [[a|e] T]; cbn [snd] in *; subst T.
  - destruct (Hk a (set_board (set_lastFen S lf) b)) as (b' & lf' & E').
    rewrite E'. exists b', lf'. reflexivity.
  - eauto.
Qed.

Lemma kp_get_state {B} (k : state -> M B) :
  (forall s, keeps_pos (k s)) -> keeps_pos (mbind get_state k).
Proof. intros H S. exact (H S S). Qed.

Lemma kp_modify_last (fen : string) : keeps_pos (modify (fun st => set_lastFen st fen)).
Proof. intros S. exists (board S), fen. destruct S; reflexivity. Qed.

Ltac kp_solve :=
  repeat
    match goal with
    | |- keeps_pos (ret _) => apply kp_ret
    | |- keeps_pos (raise _) => apply kp_raise
    | |- keeps_pos (gets _) => apply kp_gets
    | |- keeps_pos (m_bget _) => apply kp_gets
    | |- keeps_pos (m_bset _ _) => apply kp_m_bset
    | |- keeps_pos (modify (fun st => set_lastFen st _)) => apply kp_modify_last
    | |- keeps_pos (mbind get_state _) => apply kp_get_state; intro
    | |- keeps_pos (mbind _ _) => apply kp_bind; [|intro]
    | |- keeps_pos (if ?b then _ else _) => destruct b
    | |- keeps_pos (match ?x with _ => _ end) => destruct x
    end.

Lemma kp_push_move (a b : square) (p : Piece * Colour) (pr : Piece) :
  keeps_pos (push_move a b p pr).
Proof. unfold push_move. kp_solve. Qed.

(** ** [_push_move] writes valid values *)

Lemma bget_valid (b : board_t) (x : square) (v : Z) :
  wf_board b -> bget b x = Ok v -> valid_val v = true.
Proof.
  intros [_ Hf] H. unfold bget in H.
  destruct (np_idx (fst x)) as [r|]; [|discriminate].
  destruct (np_idx (snd x)) as [c|]; [|discriminate].
  destruct (nth_error b r) as [row|] eqn:E; [|discriminate].
  destruct (nth_error row c) as [v'|] eqn:E2; [|discriminate].
  injection H as <-. rewrite Forall_forall in Hf.
  destruct (Hf row (nth_error_In _ _ E)) as [_ Hr]. rewrite Forall_forall in Hr.
  exact (Hr v' (nth_error_In _ _ E2)).
Qed.

Lemma Forall_list_set {A} (P : A -> Prop) (l : list A) (n : nat) (x : A) :
  Forall P l -> P x -> Forall P (list_set l n x).
Proof.
  revert n. induction l as [|y l IH]; intros n Hl Hx; [constructor|].
  inversion Hl; subst. destruct n; simpl; constructor; auto.
Qed.

Lemma valid_val_range (v : Z) : valid_val v = true -> 0 <= v < 256.
Proof.
  unfold valid_val, valuePieces, pieceValues. intros H.
  destruct (Z.eqb_spec v 0); [lia|]. cbn [find option_map fst snd] in H.
  repeat match type of H with
         | context [if ?a =? v then _ else _] => destruct (Z.eqb_spec a v); [lia|]
         end.
  discriminate.
Qed.

Lemma bset_wf (b b' : board_t) (x : square) (v : Z) :
  wf_board b -> valid_val v = true -> bset b x v = Ok b' -> wf_board b'.
Proof.
  intros [Hl Hf] Hv H. unfold bset in H.
  destruct (np_idx (fst x)) as [r|]; [|discriminate].
  destruct (np_idx (snd x)) as [c|]; [|discriminate].
  destruct (nth_error b r) as [row|] eqn:E; [|discriminate].
  destruct (nth_error row c) as [v'|] eqn:E2; [|discriminate].
  injection H as <-. rewrite Z.mod_small by (apply valid_val_range, Hv).
  split; [rewrite list_set_length; exact Hl|].
  apply Forall_list_set; [exact Hf|].
  rewrite Forall_forall in Hf. destruct (Hf row (nth_error_In _ _ E)) as [Hrl Hr].
  split; [rewrite list_set_length; exact Hrl|].
  apply Forall_list_set; [exact Hr|exact Hv].
Qed.

Lemma valid_piece_to_val (p : Piece) (c : Colour) : valid_val (piece_to_val p c) = true.
Proof. destruct p, c; reflexivity. Qed.

Lemma kw_bind {A B} (m : M A) (k : A -> M B) :
  keeps_wfb m -> (forall a, keeps_wfb (k a)) -> keeps_wfb (mbind m k).
Proof.
  intros Hm Hk S HS. unfold mbind. specialize (Hm S HS).
  destruct (m S) as [[a|e] T]; cbn [snd] in *; [apply Hk|]; exact Hm.
Qed.

Lemma kw_bget_bind {B} (x : square) (k : Z -> M B) :
  (forall v, valid_val v = true -> keeps_wfb (k v)) -> keeps_wfb (mbind (m_bget x) k).
Proof.
  intros Hk S HS. unfold mbind, m_bget, gets.
  destruct (bget (board S) x) as [v|e] eqn:E; [|exact HS].
  apply Hk; [eapply bget_valid; eassumption|exact HS].
Qed.

Lemma kw_m_bset (x : square) (v : Z) : valid_val v = true -> keeps_wfb (m_bset x v).
Proof.
  intros Hv S HS. unfold m_bset.
  destruct (bset (board S) x v) as [b|e] eqn:E; [|exact HS].
  eapply bset_wf; eassumption.
Qed.

Lemma kw_get_state {B} (k : state -> M B) :
  (forall s, keeps_wfb (k s)) -> keeps_wfb (mbind get_state k).
Proof. intros H S. exact (H S S). Qed.

Ltac kw_solve :=
  repeat
    match goal with
    | |- keeps_wfb (ret _) => intros ?S ?HS; exact HS
    | |- keeps_wfb (raise _) => intros ?S ?HS; exact HS
    | |- keeps_wfb (gets _) => intros ?S ?HS; exact HS
    | |- keeps_wfb (modify (fun st => set_lastFen st _)) => intros ?S ?HS; exact HS
    | |- keeps_wfb (m_bset _ _) =>
        apply kw_m_bset; first [assumption|apply valid_piece_to_val|reflexivity]
    | |- keeps_wfb (mbind get_state _) => apply kw_get_state; intro
    | |- keeps_wfb (mbind (m_bget _) _) => apply kw_bget_bind; intros ? ?
    | |- keeps_wfb (mbind _ _) => apply kw_bind; [|intro]
    | |- keeps_wfb (if ?b then _ else _) => destruct b
    | |- keeps_wfb (match ?x with _ => _ end) => destruct x
    end.

Lemma kw_push_move (a b : square) (p : Piece * Colour) (pr : Piece) :
  keeps_wfb (push_move a b p pr).
Proof. unfold push_move. kw_solve. Qed.

Lemma get_fen_set_moves (S : state) (m : list (Z * string)) :
  get_fen (set_moves S m) = get_fen S.
Proof. reflexivity. Qed.

Lemma bind_modify {B} (f : state -> state) (k : unit -> M B) (st st' : state) (r : res B) :
  mbind (modify f) k st = (r, st') -> k tt (f st) = (r, st').
Proof. exact (fun H => H). Qed.

Lemma bind_if_modify {B} (b : bool) (f : state -> state) (k : unit -> M B)
  (st st' : state) (r : res B) :
  mbind (if b then modify f else ret tt) k st = (r, st') ->
  k tt (if b then f st else st) = (r, st').
Proof. destruct b; exact (fun H => H). Qed.

Ltac mstep H :=
  match type of H with
  | mbind (modify _) _ ?X = _ =>
      let T := fresh "T" in let HT := fresh "HT" in
      remember X as T eqn:HT; apply bind_modify in H; cbv beta in H
  | mbind (if _ then modify _ else ret tt) _ ?X = _ =>
      let T := fresh "T" in let HT := fresh "HT" in
      remember X as T eqn:HT; apply bind_if_modify in H; cbv beta in H
  end.

Lemma move_apply_run (S : state) (a b : square) (k : Piece) (c : Colour) (cap : bool)
  (pr : Piece) (u : unit) (S2 : state) :
  move_apply a b (k, c) cap pr S = (Ok u, S2) ->
  exists P fen2, push_move a b (k, c) pr S = (Ok tt, P) /\ board S2 = board P /\
    get_fen S2 = Ok fen2 /\ half_move_counter S2 = half_move_counter S + 1 /\
    moves S2 = dict_set (half_move_counter S2) fen2 (moves S).
Proof.
  intros H. unfold move_apply in H. apply bind_inv in H.
  destruct H as [(u0 & P & HP & H)|(e & _ & He)]; [|discriminate].
  destruct u0. exists P.
  destruct (kp_push_move a b (k, c) pr S) as (bP & lf & EP). rewrite HP in EP.
  cbn [snd] in EP. cbv beta in H.
  repeat mstep H.
  match type of H with mbind _ _ ?X = _ => remember X as T8 eqn:HT8 end.
  unfold mbind at 1, gets at 1 in H.
  destruct (get_fen T8) as [fen2|e] eqn:Hg; [|discriminate H].
  unfold modify in H. injection H as _ <-.
  assert (E5 : core T5 = core T0)
    by (subst T5 T4 T3 T2 T1;
        repeat match goal with |- context [if ?b then _ else _] => destruct b end;
        reflexivity).
  unfold core in E5. injection E5 as Eb Em Et Ec.
  subst T0 T. cbn in Eb, Em, Et, Ec.
  exists fen2. split; [exact HP|].
  subst T6 T7. cbn in HT8.
  subst P. cbn in Eb, Em, Et, Ec. rewrite Et in HT8.
  split; [subst T8; destruct (toMove S); cbn; exact Eb|].
  split; [rewrite get_fen_set_moves; exact Hg|].
  unfold half_move_counter; cbn. subst T8.
  destruct (toMove S) eqn:Es; cbn; rewrite ?Et, ?Ec, ?Em; cbn; (split; [lia|reflexivity]).
Qed.

Lemma tbl_key_range (t : list (ascii * Z)) (x : Z) (ch : ascii) :
  (t = ranks_tbl \/ t = files_tbl) -> tbl_key t x = Ok ch -> 0 <= x <= 7.
Proof.
  intros Ht H. unfold tbl_key in H.
  destruct Ht as [->| ->]; unfold ranks_tbl, files_tbl in H; cbn [find fst snd] in H;
  repeat match type of H with
         | context [if ?a =? x then _ else _] => destruct (Z.eqb_spec a x); [lia|]
         end; discriminate.
Qed.

Lemma get_fen_wf_ep (st : state) (fen : string) :
  get_fen st = Ok fen -> wf_ep (enPassantTarget st).
Proof.
  unfold get_fen. destruct (enPassantTarget st) as [[r f]|]; [|intros; exact I].
  unfold coor_to_str. cbn [fst snd].
  destruct (tbl_key ranks_tbl r) as [cr|] eqn:Er; [|discriminate].
  destruct (tbl_key files_tbl f) as [cf|] eqn:Ef; [|discriminate]. intros _.
  apply tbl_key_range in Er; [|left; reflexivity].
  apply tbl_key_range in Ef; [|right; reflexivity].
  unfold wf_ep, in_range. cbn [fst snd]. apply andb_true_iff. split; [|lia].
  apply andb_true_iff. split; [apply andb_true_iff|]; lia.
Qed.

Lemma hist_step_hmc (S T : state) (fen : string) :
  hist_step S fen T -> half_move_counter T = half_move_counter S.
Proof. intros H. destruct (hist_step_with_hist _ _ _ H) as (mv & lf & ->). reflexivity. Qed.

Lemma hist_step_board (S T : state) (fen : string) :
  hist_step S fen T -> board T = board S /\ enPassantTarget T = enPassantTarget S.
Proof. intros H. destruct (hist_step_with_hist _ _ _ H) as (mv & lf & ->). auto. Qed.

(** An accepted [move]: the validation, the move played on the position,
    its record stored at the next half-move index, and the checks for the
    game's end, which only store records. *)
Lemma move_run (S : state) (a b : square) (pr : Piece) (r : res (square * square))
  (S' : state) :
  wf S -> move a b pr S = (r, S') -> accepted r = true ->
  exists fen k c cap S1 P S2 fen2,
    get_fen S = Ok fen /\
    move_validate a b S = (Ok ((k, c), cap), S1) /\ hist_step S fen S1 /\
    push_move a b (k, c) pr S1 = (Ok tt, P) /\
    board S2 = board P /\ get_fen S2 = Ok fen2 /\
    half_move_counter S2 = half_move_counter S + 1 /\
    moves S2 = dict_set (half_move_counter S2) fen2 (moves S1) /\
    wf S2 /\ hist_step S2 fen2 S'.
Proof.
  intros Hw H Hacc. destruct (get_fen_ok S Hw) as [fen Hf].
  unfold move in H. apply bind_inv in H.
  destruct H as [(pc & S1 & Hv & H)|(e & Hv & ->)].
  2:{ pose proof (validate_run S fen a b _ _ Hw Hf Hv) as Hr. cbv beta iota in Hr.
      destruct Hr as [Hi|[((m & [-> | ->]) & _)|((m & ->) & _)]];
        [rewrite accepted_internal in Hacc by exact Hi|..]; discriminate. }
  pose proof (validate_run S fen a b _ _ Hw Hf Hv) as Hr.
  destruct pc as [[k c] cap]. destruct Hr as (_ & _ & lm & Hl & _).
  pose proof (legal_moves_step S a fen lm S1 Hw Hf Hl) as H1.
  cbv beta in H. apply bind_inv in H.
  destruct H as [(u & S2 & Ha & H)|(e & Ha & ->)].
  2:{ rewrite accepted_internal in Hacc; [discriminate|].
      eapply mi_err; [apply mi_move_apply|exact Ha]. }
  destruct (move_apply_run S1 a b k c cap pr u S2 Ha)
    as (P & fen2 & HP & Hb & Hg & Hh & Hm).
  assert (Hw2 : wf S2).
  { split.
    - rewrite Hb. pose proof (kw_push_move a b (k, c) pr S1) as Kw. unfold keeps_wfb in Kw.
      specialize (Kw (proj1 (hist_step_wf _ _ _ H1 Hw))). rewrite HP in Kw. exact Kw.
    - eapply get_fen_wf_ep. exact Hg. }
  exists fen, k, c, cap, S1, P, S2, fen2.
  do 9 (split; [first [assumption|rewrite Hh, (hist_step_hmc _ _ _ H1); reflexivity]|]).
  cbv beta in H. apply bind_inv in H.
  destruct H as [(u' & S3 & Ho & H)|(e & Ho & ->)].
  - destruct (outcome_run S2 fen2 _ S3 Hw2 Hg Ho) as [[_ Hs]|(e & He & _)];
      [|discriminate]. unfold ret in H. inversion H; subst. exact Hs.
  - destruct (outcome_run S2 fen2 _ S' Hw2 Hg Ho) as [[_ Hs]|(e' & He & Hi)]; [exact Hs|].
    injection He as <-. rewrite accepted_internal in Hacc by exact Hi. discriminate.
Qed.

(** ** The history of a game *)

Lemma dict_get_set_eq (k : Z) (v : string) (d : list (Z * string)) :
  dict_get k (dict_set k v d) = Some v.
Proof.
  induction d as [|[k' v'] d IH]; simpl.
  - rewrite Z.eqb_refl. reflexivity.
  - destruct (k' =? k) eqn:E; simpl.
    + rewrite Z.eqb_refl. reflexivity.
    + rewrite E. exact IH.
Qed.

Lemma dict_get_set_ne (k k' : Z) (v : string) (d : list (Z * string)) :
  k <> k' -> dict_get k (dict_set k' v d) = dict_get k d.
Proof.
  intros Hne. induction d as [|[k'' v'] d IH]; simpl.
  - replace (k' =? k) with false by (symmetry; apply Z.eqb_neq; congruence). reflexivity.
  - destruct (k'' =? k') eqn:E; simpl.
    + apply Z.eqb_eq in E. subst k''.
      replace (k' =? k) with false by (symmetry; apply Z.eqb_neq; congruence). reflexivity.
    + destruct (k'' =? k); [reflexivity|exact IH].
Qed.

Lemma hist_step_get (S T : state) (fen : string) (k : Z) :
  hist_step S fen T -> k <> half_move_counter S ->
  dict_get k (moves T) = dict_get k (moves S).
Proof.
  intros [-> | ->] Hk; [reflexivity|]. apply dict_get_set_ne. exact Hk.
Qed.

Lemma hist_step_get_hmc (S T : state) (fen : string) :
  hist_step S fen T -> dict_get (half_move_counter S) (moves S) = Some fen ->
  dict_get (half_move_counter S) (moves T) = Some fen.
Proof. intros [-> | ->] H; [exact H|apply dict_get_set_eq]. Qed.

Lemma hist_step_get_hmc' (S T : state) (fen : string) :
  hist_step S fen T ->
  dict_get (half_move_counter S) (moves S) = Some fen \/
  dict_get (half_move_counter S) (moves T) = Some fen ->
  dict_get (half_move_counter S) (moves T) = Some fen.
Proof.
  intros HT [H|H]; [eapply hist_step_get_hmc; eassumption|exact H].
Qed.

Lemma wf_start_state : wf start_state.
Proof.
  split; [split; [reflexivity|]|exact I].
  vm_compute. repeat constructor.
Qed.

Lemma get_fen_start_state : get_fen start_state = Ok start_fen.
Proof. vm_compute. reflexivity. Qed.

Lemma hist_ok_start : hist_ok start_state.
Proof. exists start_fen. split; [apply get_fen_start_state|vm_compute; reflexivity]. Qed.

Lemma reachable_inv (S : state) : reachable S -> wf S /\ hist_ok S.
Proof.
  induction 1 as [|S a b pr r S' HS [Hw Hh] Hm Ha].
  - split; [apply wf_start_state|apply hist_ok_start].
  - destruct (move_run S a b pr r S' Hw Hm Ha)
      as (fen & k & c & cap & S1 & P & S2 & fen2 & Hf & Hv & H1 & HP & Hb & Hg & Hh2 & Hm2
          & Hw2 & H2).
    split; [eapply hist_step_wf; eassumption|].
    exists fen2. split; [rewrite (hist_step_get_fen _ _ _ H2); exact Hg|].
    rewrite (hist_step_hmc _ _ _ H2). eapply hist_step_get_hmc; [exact H2|].
    rewrite Hm2. apply dict_get_set_eq.
Qed.

(** [move] after a successful validation: the exceptions are internal
    ones, or the draw and checkmate announcements. *)
Lemma move_err_cases (S : state) (a b : square) (pr : Piece) (e : exn) (S' : state) :
  wf S -> move a b pr S = (Err e, S') ->
  move_validate a b S = (Err e, S') \/ internal e = true \/ accepted (@Err unit e) = true.
Proof.
  intros Hw H. destruct (get_fen_ok S Hw) as [fen Hf].
  unfold move in H. apply bind_inv in H.
  destruct H as [(pc & S1 & Hv & H)|(e' & Hv & He)]; [|injection He as ->; left; exact Hv].
  right. pose proof (validate_run S fen a b _ _ Hw Hf Hv) as Hr.
  destruct pc as [[k c] cap]. destruct Hr as (_ & _ & lm & Hl & _).
  pose proof (legal_moves_step S a fen lm S1 Hw Hf Hl) as H1.
  cbv beta in H. apply bind_inv in H.
  destruct H as [(u & S2 & Ha & H)|(e' & Ha & He)].
  2:{ injection He as ->. left. eapply mi_err; [apply mi_move_apply|exact Ha]. }
  destruct (move_apply_run S1 a b k c cap pr u S2 Ha)
    as (P & fen2 & HP & Hb & Hg & Hh & Hm).
  assert (Hw2 : wf S2).
  { split.
    - rewrite Hb. pose proof (kw_push_move a b (k, c) pr S1) as Kw. unfold keeps_wfb in Kw.
      specialize (Kw (proj1 (hist_step_wf _ _ _ H1 Hw))). rewrite HP in Kw. exact Kw.
    - eapply get_fen_wf_ep. exact Hg. }
  cbv beta in H. apply bind_inv in H.
  destruct H as [(u' & S3 & Ho & H)|(e' & Ho & He)].
  - unfold ret in H. discriminate H.
  - injection He as ->.
    destruct (outcome_run S2 fen2 _ S' Hw2 Hg Ho) as [[Hacc _]|(e2 & He2 & Hi)];
      [right; exact Hacc|].
    injection He2 as ->. left. exact Hi.
Qed.

(** C2 (amended): on a well-formed position, a [move] rejected because
    [start] is empty or holds a piece of the side not to move leaves the
    whole state unchanged; a [move] rejected as illegal leaves the board,
    the side to move, the en passant target, the castling rights and both
    clocks unchanged, but may store the position's record, as [get_fen]
    renders it, at the current half-move index of the history and in
    [lastFen]. *)
Theorem move_rejection_state (S : state) (a b : square) (pr : Piece) (e : exn) (S' : state) :
  wf S -> move a b pr S = (Err e, S') ->
  ((exists m, e = NoPiecePresent m \/ e = NotYourTurn m) -> S' = S) /\
  ((exists m, e = IllegalMove m) ->
     S' = S \/
     exists fen, get_fen S = Ok fen /\
                 S' = with_hist S (dict_set (half_move_counter S) fen (moves S)) fen).
Proof.
  intros Hw H. destruct (get_fen_ok S Hw) as [fen Hf].
  assert (Hrej : (exists m, e = NoPiecePresent m \/ e = NotYourTurn m \/ e = IllegalMove m) ->
                 move_validate a b S = (Err e, S')).
  { intros (m & Hm). destruct (move_err_cases S a b pr e S' Hw H) as [Hv|[Hi|Hi]];
      [exact Hv| |]; destruct Hm as [-> | [-> | ->]]; discriminate. }
  split.
  - intros (m & Hm).
    assert (Hv : move_validate a b S = (Err e, S')) by (apply Hrej; exists m; tauto).
    pose proof (validate_run S fen a b _ _ Hw Hf Hv) as Hr. cbv beta iota in Hr.
    destruct Hm as [-> | ->];
      (destruct Hr as [Hi|[(_ & HS)|((m' & Hm') & _)]]; [discriminate|exact HS|discriminate]).
  - intros (m & ->).
    assert (Hv : move_validate a b S = (Err (IllegalMove m), S'))
      by (apply Hrej; exists m; tauto).
    pose proof (validate_run S fen a b _ _ Hw Hf Hv) as Hr. cbv beta iota in Hr.
    destruct Hr as [Hi|[((m' & [Hm'|Hm']) & _)|(_ & HS)]]; try discriminate.
    destruct HS as [HS|HS]; [left; exact HS|right; exists fen; split; assumption].
Qed.

Lemma move_rejection_state_witness :
  wf (fen_state c2_fen) /\
  move (sq "E7") (sq "E4") QUEEN (fen_state c2_fen) =
    (Err (IllegalMove "Illegal move"),
     snd (move (sq "E7") (sq "E4") QUEEN (fen_state c2_fen))) /\
  (snd (move (sq "E7") (sq "E4") QUEEN (fen_state c2_fen)) = fen_state c2_fen \/
   exists fen, get_fen (fen_state c2_fen) = Ok fen /\
     snd (move (sq "E7") (sq "E4") QUEEN (fen_state c2_fen)) =
       with_hist (fen_state c2_fen)
         (dict_set (half_move_counter (fen_state c2_fen)) fen (moves (fen_state c2_fen))) fen).
Proof.
  assert (Hw : wf (fen_state c2_fen)).
  { split; [vm_compute; split; [reflexivity|repeat constructor]|vm_compute; reflexivity]. }
  assert (Hm : move (sq "E7") (sq "E4") QUEEN (fen_state c2_fen) =
    (Err (IllegalMove "Illegal move"),
     snd (move (sq "E7") (sq "E4") QUEEN (fen_state c2_fen)))) by (vm_compute; reflexivity).
  split; [exact Hw|split; [exact Hm|]].
  apply (proj2 (move_rejection_state _ _ _ _ _ _ Hw Hm)). exists "Illegal move"%string. reflexivity.
Defined.

(** C8: on every position reached from the starting position through
    accepted moves, [get_fen] succeeds and [set_fen] of its record succeeds
    and restores the board, the side to move, the castling rights, the en
    passant target, the half-move clock and the move counter. *)
Theorem set_fen_get_fen_roundtrip (S : state) (HS : reachable S) :
  exists fen, get_fen S = Ok fen /\
    fst (set_fen fen S) = Ok tt /\
    board (snd (set_fen fen S)) = board S /\
    toMove (snd (set_fen fen S)) = toMove S /\
    long_castle (snd (set_fen fen S)) = long_castle S /\
    short_castle (snd (set_fen fen S)) = short_castle S /\
    enPassantTarget (snd (set_fen fen S)) = enPassantTarget S /\
    halfMoveClock (snd (set_fen fen S)) = halfMoveClock S /\
    moveCounter (snd (set_fen fen S)) = moveCounter S.
Proof.
  destruct (reachable_inv S HS) as [Hw _]. destruct (get_fen_ok S Hw) as [fen Hf].
  exists fen. split; [exact Hf|]. rewrite (set_fen_get_fen S fen Hw Hf S). cbn.
  repeat split.
Qed.

Lemma set_fen_get_fen_roundtrip_witness :
  reachable (snd (move (sq "E2") (sq "E4") QUEEN start_state)) /\
  exists fen, get_fen (snd (move (sq "E2") (sq "E4") QUEEN start_state)) = Ok fen /\
    fst (set_fen fen (snd (move (sq "E2") (sq "E4") QUEEN start_state))) = Ok tt /\
    board (snd (set_fen fen (snd (move (sq "E2") (sq "E4") QUEEN start_state)))) =
      board (snd (move (sq "E2") (sq "E4") QUEEN start_state)) /\
    toMove (snd (set_fen fen (snd (move (sq "E2") (sq "E4") QUEEN start_state)))) =
      toMove (snd (move (sq "E2") (sq "E4") QUEEN start_state)) /\
    long_castle (snd (set_fen fen (snd (move (sq "E2") (sq "E4") QUEEN start_state)))) =
      long_castle (snd (move (sq "E2") (sq "E4") QUEEN start_state)) /\
    short_castle (snd (set_fen fen (snd (move (sq "E2") (sq "E4") QUEEN start_state)))) =
      short_castle (snd (move (sq "E2") (sq "E4") QUEEN start_state)) /\
    enPassantTarget (snd (set_fen fen (snd (move (sq "E2") (sq "E4") QUEEN start_state)))) =
      enPassantTarget (snd (move (sq "E2") (sq "E4") QUEEN start_state)) /\
    halfMoveClock (snd (set_fen fen (snd (move (sq "E2") (sq "E4") QUEEN start_state)))) =
      halfMoveClock (snd (move (sq "E2") (sq "E4") QUEEN start_state)) /\
    moveCounter (snd (set_fen fen (snd (move (sq "E2") (sq "E4") QUEEN start_state)))) =
      moveCounter (snd (move (sq "E2") (sq "E4") QUEEN start_state)).
Proof.
  assert (HS : reachable (snd (move (sq "E2") (sq "E4") QUEEN start_state))).
  { eapply reach_move; [apply reach_start|apply surjective_pairing|vm_compute; reflexivity]. }
  split; [exact HS|]. exact (set_fen_get_fen_roundtrip _ HS).
Defined.

(** C9: after an accepted [move] from a position reached through accepted
    moves, [revert_move] succeeds and restores a position whose [get_fen]
    record is the one of the position before the move; when the history
    holds no record for the previous half move, [revert_move] loads the
    starting position (its board, side, rights, en passant target and
    clocks). *)
Theorem move_then_revert_move (S : state) (a b : square) (pr : Piece)
  (r : res (square * square)) (S' : state) :
  reachable S -> move a b pr S = (r, S') -> accepted r = true ->
  (exists S'', revert_move S' = (Ok tt, S'') /\ get_fen S'' = get_fen S) /\
  (forall st, dict_get (half_move_counter st - 1) (moves st) = None ->
     exists mv lf, revert_move st = (Ok tt, with_hist start_state mv lf)).
Proof.
  intros HS Hm Ha. split.
  - destruct (reachable_inv S HS) as [Hw (fen0 & Hf0 & Hd0)].
    destruct (move_run S a b pr r S' Hw Hm Ha)
      as (fen & k & c & cap & S1 & P & S2 & fen2 & Hf & Hv & H1 & HP & Hb & Hg & Hh2 & Hm2
          & Hw2 & H2).
    rewrite Hf in Hf0. injection Hf0 as <-.
    assert (Hk : half_move_counter S' - 1 = half_move_counter S)
      by (rewrite (hist_step_hmc _ _ _ H2), Hh2; lia).
    assert (Hd : dict_get (half_move_counter S' - 1) (moves S') = Some fen).
    { rewrite Hk, (hist_step_get _ _ _ _ H2) by lia. rewrite Hm2, dict_get_set_ne by lia.
      eapply hist_step_get_hmc; [exact H1|exact Hd0]. }
    unfold revert_move, mbind, get_state. rewrite Hd.
    rewrite (set_fen_get_fen S fen Hw Hf S').
    eexists. split; [reflexivity|]. apply get_fen_hist.
  - intros st Hd. unfold revert_move, mbind, get_state. rewrite Hd. unfold load_start.
    rewrite (set_fen_get_fen start_state start_fen wf_start_state get_fen_start_state st).
    eauto.
Qed.

Lemma move_then_revert_move_witness :
  reachable start_state /\
  move (sq "E2") (sq "E4") QUEEN start_state =
    (fst (move (sq "E2") (sq "E4") QUEEN start_state),
     snd (move (sq "E2") (sq "E4") QUEEN start_state)) /\
  accepted (fst (move (sq "E2") (sq "E4") QUEEN start_state)) = true /\
  exists S'', revert_move (snd (move (sq "E2") (sq "E4") QUEEN start_state)) = (Ok tt, S'') /\
              get_fen S'' = get_fen start_state.
Proof.
  assert (Hm : move (sq "E2") (sq "E4") QUEEN start_state =
    (fst (move (sq "E2") (sq "E4") QUEEN start_state),
     snd (move (sq "E2") (sq "E4") QUEEN start_state))) by apply surjective_pairing.
  assert (Ha : accepted (fst (move (sq "E2") (sq "E4") QUEEN start_state)) = true)
    by (vm_compute; reflexivity).
  split; [exact reach_start|split; [exact Hm|split; [exact Ha|]]].
  exact (proj1 (move_then_revert_move _ _ _ _ _ _ reach_start Hm Ha)).
Defined.

(** ** The squares [np.where] finds *)

Lemma In_combine_seq {A} (l : list A) : forall (s i : nat) (y : A),
  In (i, y) (combine (seq s (length l)) l) -> (s <= i)%nat /\ nth_error l (i - s) = Some y.
Proof.
  induction l as [|a l IH]; intros s i y H; [destruct H|].
  simpl in H. destruct H as [H|H].
  - injection H as <- <-. rewrite Nat.sub_diag. auto.
  - destruct (IH (S s) i y H) as [Hle Hn]. split; [lia|].
    replace (i - s)%nat with (S (i - S s)) by lia. exact Hn.
Qed.

Lemma np_where_in (cond : Z -> bool) (b : board_t) (x : square) :
  wf_board b -> In x (np_where cond b) ->
  in_range x = true /\ bget b x = Ok (cell b x) /\ cond (cell b x) = true.
Proof.
  intros Hb H. unfold np_where, cells in H.
  apply in_map_iff in H. destruct H as [[x' v] [Hx H]]. cbn [fst] in Hx. subst x'.
  apply filter_In in H. destruct H as [H Hc]. cbn [snd] in Hc.
  apply in_concat in H. destruct H as [L [HL H]].
  apply in_map_iff in HL. destruct HL as [[i row] [<- Hi]].
  apply in_map_iff in H. destruct H as [[j v'] [Hj H]]. injection Hj as <- <-.
  apply In_combine_seq in Hi. destruct Hi as [_ Hi]. rewrite Nat.sub_0_r in Hi.
  apply In_combine_seq in H. destruct H as [_ Hr]. rewrite Nat.sub_0_r in Hr.
  pose proof Hb as [Hl Hf].
  assert (Hi8 : (i < 8)%nat) by (rewrite <- Hl; apply nth_error_Some; congruence).
  rewrite Forall_forall in Hf. destruct (Hf row (nth_error_In _ _ Hi)) as [Hrl _].
  assert (Hj8 : (j < 8)%nat) by (rewrite <- Hrl; apply nth_error_Some; congruence).
  assert (Hrange : in_range (Z.of_nat i, Z.of_nat j) = true).
  { unfold in_range. cbn [fst snd]. repeat rewrite andb_true_iff. repeat split; lia. }
  assert (Hcell : cell b (Z.of_nat i, Z.of_nat j) = v').
  { unfold cell. cbn [fst snd]. rewrite !Nat2Z.id.
    rewrite (nth_error_nth _ _ _ Hi). apply (nth_error_nth _ _ _ Hr). }
  split; [exact Hrange|]. rewrite Hcell. split; [|exact Hc].
  rewrite <- Hcell. apply (proj1 (bget_wf b _ Hb Hrange)).
Qed.

(** ** [in_check] reads the board and the en passant target only *)

(** A position with the given board and en passant target. *)
Lemma in_check_frame (X : state) (c : Colour) :
  in_check X c =
  in_check (mkState (board X) [] WHITE (enPassantTarget X) (true, true) (true, true) 0 1 "") c.
Proof. reflexivity. Qed.

Lemma exists_res_ext {A} (f g : A -> res bool) (l : list A) :
  (forall x, In x l -> f x = g x) -> exists_res f l = exists_res g l.
Proof.
  induction l as [|x l IH]; intros H; [reflexivity|]. simpl.
  rewrite (H x (or_introl eq_refl)). destruct (g x) as [[|]|]; cbn; auto.
  apply IH. intros y Hy. apply H. right. exact Hy.
Qed.

Lemma mem_sq_app (x : square) (l1 l2 : list square) :
  mem_sq x (l1 ++ l2) = mem_sq x l1 || mem_sq x l2.
Proof. unfold mem_sq. apply existsb_app. Qed.

Lemma sq_eqb_eq (x y : square) : sq_eqb x y = true <-> x = y.
Proof.
  destruct x as [a b], y as [c d]. unfold sq_eqb. cbn [fst snd].
  rewrite andb_true_iff, !Z.eqb_eq. split; [intros [-> ->]; reflexivity|intros H; injection H as -> ->; auto].
Qed.

Lemma mem_sq_In (x : square) (l : list square) : mem_sq x l = true <-> In x l.
Proof.
  unfold mem_sq. rewrite existsb_exists. split.
  - intros [y [Hy He]]. apply sq_eqb_eq in He. subst. exact Hy.
  - intros H. exists x. split; [exact H|]. apply sq_eqb_eq. reflexivity.
Qed.

Lemma rbind_ok {A B} (m : res A) (k : A -> res B) (y : B) :
  rbind m k = Ok y -> exists x, m = Ok x /\ k x = Ok y.
Proof. destruct m as [x|e]; cbn; [eauto|discriminate]. Qed.

(** A diagonal of a pawn that holds a piece of the other colour is among
    the fields [_pawn_fields] finds before its en passant test. *)
Lemma pawn_base_diag (st : state) (p : square) (pc c' : Colour) (fields : list square)
  (x : square) (v : Z) :
  pawn_base st p pc = Ok fields ->
  x = fst (pawn_diags p pc) \/ x = snd (pawn_diags p pc) ->
  in_range x = true -> bget (board st) x = Ok v -> v > 0 ->
  piece_colour v = Ok c' -> colour_eqb c' pc = false -> In x fields.
Proof.
  intros H Hx Hr Hb Hv Hc Hce. destruct p as [r c].
  assert (Hv' : (v >? 0) = true) by (apply Z.gtb_lt; lia).
  unfold pawn_base in H.
  destruct pc; cbn [fst snd pawn_diags] in H, Hx;
    apply rbind_ok in H as (v0 & _ & H); apply rbind_ok in H as (f1 & _ & H);
    apply rbind_ok in H as (f2 & Hf2 & H);
    unfold in_range in Hr; destruct Hx as [-> | ->]; cbn [fst snd] in Hr;
    repeat rewrite andb_true_iff in Hr; repeat rewrite Z.leb_le in Hr.
  all: first
    [ (* the first diagonal *)
      assert (Hc0 : (c >? 0) = true) by (apply Z.gtb_lt; lia);
      rewrite Hc0, Hb in Hf2; cbn [rbind] in Hf2; rewrite Hv', Hc in Hf2;
      cbn [rbind] in Hf2; rewrite Hce in Hf2; injection Hf2 as <-;
      destruct (c <? 7);
      [ apply rbind_ok in H as (d & _ & H); destruct (d >? 0);
        [ apply rbind_ok in H as (cc & _ & H); destruct (colour_eqb cc _) |]
      |];
      injection H as <-; repeat rewrite in_app_iff; cbn; tauto
    | (* the second diagonal *)
      assert (Hc7 : (c <? 7) = true) by (apply Z.ltb_lt; lia);
      rewrite Hc7, Hb in H; cbn [rbind] in H; rewrite Hv', Hc in H;
      cbn [rbind] in H; rewrite Hce in H; injection H as <-;
      rewrite in_app_iff; cbn; tauto ].
Qed.

Lemma val_to_piece_colour (v : Z) (k : Piece) (pc c : Colour) :
  val_to_piece v = Ok (Some (k, pc)) ->
  (colour_value c <? v) && (v <? colour_value c + 64) = true -> pc = c.
Proof.
  intros Hv Hc. unfold val_to_piece in Hv. rewrite andb_true_iff, !Z.ltb_lt in Hc.
  destruct (v =? 0); [discriminate|].
  destruct (v >? 64) eqn:E; [apply Z.gtb_lt in E|rewrite Z.gtb_ltb, Z.ltb_ge in E];
    destruct (piece_of_value _); try discriminate; injection Hv as _ <-;
    destruct c; cbn in Hc; first [reflexivity|lia].
Qed.

(** On a well-formed board the en passant target never changes [in_check]:
    a king on an enemy pawn's diagonal is already among its fields. *)
Lemma in_check_ep_none (b : board_t) (e : option square) (c : Colour) :
  wf_board b ->
  in_check (mkState b [] WHITE e (true, true) (true, true) 0 1 "") c =
  in_check (mkState b [] WHITE None (true, true) (true, true) 0 1 "") c.
Proof.
  intros Hb. unfold in_check. cbn [board].
  destruct (np_where _ b) as [|king rest] eqn:Hk; [reflexivity|].
  assert (Hking : In king (np_where (fun v => v =? piece_value KING + colour_value c) b))
    by (rewrite Hk; left; reflexivity).
  apply np_where_in in Hking as (Hkr & Hkb & Hkc); [|exact Hb].
  apply Z.eqb_eq in Hkc.
  apply exists_res_ext. intros p Hp. unfold get_pieces_by_colour in Hp. cbn [board] in Hp.
  apply np_where_in in Hp as (Hpr & Hpb & Hpc); [|exact Hb].
  unfold reachable_fields. cbn [board]. rewrite Hpb. cbn [rbind].
  destruct (val_to_piece (cell b p)) as [[[[] pc]|]|err] eqn:Hv; cbn [rbind]; try reflexivity.
  unfold pawn_fields.
  change (pawn_base (mkState b [] WHITE e (true, true) (true, true) 0 1 "") p pc)
    with (pawn_base (mkState b [] WHITE None (true, true) (true, true) 0 1 "") p pc).
  destruct (pawn_base _ p pc) as [fields|err] eqn:Hpf; cbn [rbind]; [|reflexivity].
  destruct (pawn_diags p pc) as [d1 d2] eqn:Hd. cbn [enPassantTarget].
  destruct e as [e|]; [|reflexivity].
  destruct (sq_eqb e d1 || sq_eqb e d2) eqn:Hed; [|reflexivity].
  cbn [rbind]. rewrite mem_sq_app. destruct (mem_sq king [e]) eqn:Hke; [|rewrite orb_false_r; reflexivity].
  rewrite orb_true_r. f_equal. symmetry. apply mem_sq_In.
  cbn in Hke. rewrite orb_false_r in Hke. apply sq_eqb_eq in Hke. subst e.
  assert (Hpc' : pc = opposite c) by (eapply val_to_piece_colour; eassumption). subst pc.
  eapply (pawn_base_diag _ _ _ c); [exact Hpf| | exact Hkr| exact Hkb| | |].
  - rewrite Hd. cbn [fst snd]. apply orb_true_iff in Hed.
    destruct Hed as [H|H]; apply sq_eqb_eq in H; auto.
  - rewrite Hkc. destruct c; cbn; lia.
  - rewrite Hkc. destruct c; reflexivity.
  - destruct c; reflexivity.
Qed.

Lemma in_check_board (X Y : state) (c : Colour) :
  wf_board (board X) -> board X = board Y -> in_check X c = in_check Y c.
Proof.
  intros Hb E. rewrite (in_check_frame X), (in_check_frame Y), <- E.
  rewrite (in_check_ep_none _ (enPassantTarget X)), (in_check_ep_none _ (enPassantTarget Y));
    [reflexivity|exact Hb|exact Hb].
Qed.

(** ** What [legal_moves] answers comes from the simulation *)

Lemma filter_res_In {A} (f : A -> res bool) (l l' : list A) (x : A) :
  filter_res f l = Ok l' -> In x l' -> In x l /\ f x = Ok true.
Proof.
  revert l'. induction l as [|y l IH]; intros l' H Hx.
  - injection H as <-. destruct Hx.
  - cbn in H. apply rbind_ok in H as (keep & Hk & H). apply rbind_ok in H as (rest & Hr & H).
    injection H as <-. destruct keep.
    + destruct Hx as [<-|Hx]; [split; [left; reflexivity|exact Hk]|].
      destruct (IH rest Hr Hx). split; [right|]; assumption.
    + destruct (IH rest Hr Hx). split; [right|]; assumption.
Qed.

Lemma remove_first_In (x y : square) (l : list square) : In x (remove_first y l) -> In x l.
Proof.
  induction l as [|z l IH]; cbn; [auto|].
  destruct (sq_eqb y z); [auto|]. intros [H|H]; auto.
Qed.

Lemma castle_filter_In (q x : square) (l : list square) : In x (castle_filter q l) -> In x l.
Proof.
  intros H. unfold castle_filter in H. destruct q as [r c]. cbv beta iota zeta in H.
  repeat match goal with
  | H : In _ (if ?b then _ else _) |- _ => destruct b
  | H : In _ (remove_first _ _) |- _ => apply remove_first_In in H
  end; exact H.
Qed.

(** Every answer of [legal_pure] passed the simulation of its move. *)
Lemma legal_pure_In (S : state) (q f : square) (lm : list square) :
  legal_pure S q = Ok lm -> In f lm ->
  exists v k c, bget (board S) q = Ok v /\ val_to_piece v = Ok (Some (k, c)) /\
                sim_check S q f (k, c) = Ok false.
Proof.
  intros H Hin. unfold legal_pure in H.
  apply rbind_ok in H as (rf & _ & H). apply rbind_ok in H as (v & Hv & H).
  apply rbind_ok in H as (p & Hp & H).
  destruct p as [[k c]|]; [|injection H as <-; destruct Hin].
  apply rbind_ok in H as (rf2 & _ & H). apply rbind_ok in H as (lm0 & Hlm & H).
  injection H as <-.
  assert (Hin0 : In f lm0)
    by (destruct (piece_eqb k KING); [exact (castle_filter_In _ _ _ Hin)|exact Hin]).
  apply (filter_res_In _ _ _ _ Hlm) in Hin0 as [_ Hs].
  exists v, k, c. split; [exact Hv|]. split; [exact Hp|].
  destruct (sim_check S q f (k, c)) as [[|]|e]; cbn in Hs; congruence.
Qed.

Lemma sim_check_false (S : state) (q f : square) (p : Piece * Colour) :
  sim_check S q f p = Ok false ->
  exists P, push_move q f p QUEEN S = (Ok tt, P) /\ in_check P (snd p) = Ok false.
Proof.
  unfold sim_check. destruct (push_move q f p QUEEN S) as [[[]|e] P]; [eauto|discriminate].
Qed.

(** Claim C1 (legality soundness). Every destination [f] that
    [legal_moves q] answers on a well-formed position is safe for the
    piece [(k, c)] on [q]: playing [q]-[f] on the position (with the
    default promotion to a queen) succeeds and leaves [in_check] of the
    mover's colour [c] false, and so does the state an accepted
    [move q f] ends in. *)
Theorem legal_moves_safe (S : state) (q f : square) (lm : list square) (S1 : state) :
  wf S -> legal_moves q S = (Ok lm, S1) -> In f lm ->
  exists k c,
    (exists v, bget (board S) q = Ok v /\ val_to_piece v = Ok (Some (k, c))) /\
    (exists P, push_move q f (k, c) QUEEN S = (Ok tt, P) /\ in_check P c = Ok false) /\
    (forall r S', move q f QUEEN S = (r, S') -> accepted r = true -> in_check S' c = Ok false).
Proof.
  intros Hw Hlm Hin.
  destruct (legal_moves_ok S q lm S1 Hw Hlm) as [Hp _].
  destruct (legal_pure_In S q f lm Hp Hin) as (v & k & c & Hv & Hk & Hs).
  destruct (sim_check_false S q f (k, c) Hs) as (P0 & HP0 & HC0). cbn [snd] in HC0.
  exists k, c. split; [eauto|]. split; [eauto|].
  intros r S' Hm Ha.
  destruct (move_run S q f QUEEN r S' Hw Hm Ha)
    as (fen & k' & c' & cap & S1' & P & S2 & fen2 &
        Hf & Hval & Hh1 & Hpush & Hb2 & _ & _ & _ & Hw2 & Hh2).
  pose proof (validate_run S fen q f _ S1' Hw Hf Hval) as Hvr. cbn beta iota in Hvr.
  destruct Hvr as [(v' & Hv' & Hk') _].
  rewrite Hv in Hv'. injection Hv' as <-. rewrite Hk in Hk'. injection Hk' as <- <-.
  destruct (hist_step_with_hist _ _ _ Hh1) as (mv & lf & ->).
  rewrite (push_move_hist _ _ _ _ _ _ _ _ Hf), HP0 in Hpush. cbn [fst snd] in Hpush.
  injection Hpush as <-.
  destruct (hist_step_board _ _ _ Hh2) as [Hb' _].
  rewrite <- HC0. apply in_check_board.
  - rewrite Hb'. exact (proj1 Hw2).
  - rewrite Hb', Hb2. reflexivity.
Qed.

Lemma legal_moves_safe_witness :
  exists k c,
    (exists v, bget (board start_state) (sq "E2") = Ok v /\ val_to_piece v = Ok (Some (k, c))) /\
    (exists P, push_move (sq "E2") (3, 4) (k, c) QUEEN start_state = (Ok tt, P) /\
               in_check P c = Ok false) /\
    (forall r S', move (sq "E2") (3, 4) QUEEN start_state = (r, S') -> accepted r = true ->
                  in_check S' c = Ok false).
Proof.
  apply (legal_moves_safe start_state (sq "E2") (3, 4) [(2, 4); (3, 4)]
           (snd (legal_moves (sq "E2") start_state))).
  - exact wf_start_state.
  - vm_compute. reflexivity.
  - right. left. reflexivity.
Defined.

(** ** The castling gate of [legal_moves] *)

Lemma py_range_In (lo hi z : Z) : In z (py_range lo hi) <-> lo <= z < hi.
Proof.
  unfold py_range. rewrite in_map_iff. split.
  - intros [k [<- Hk]]. apply in_seq in Hk. lia.
  - intros Hz. exists (Z.to_nat (z - lo)). split; [lia|]. apply in_seq. lia.
Qed.

Lemma in_grid (I J : list Z) (x : square) :
  In x (flat_map (fun i => map (fun j => (i, j)) J) I) <-> In (fst x) I /\ In (snd x) J.
Proof.
  rewrite in_flat_map. split.
  - intros [i [Hi Hx]]. apply in_map_iff in Hx. destruct Hx as [j [<- Hj]]. auto.
  - destruct x as [i j]. intros [Hi Hj]. exists i. split; [exact Hi|].
    apply in_map_iff. exists j. auto.
Qed.

Lemma filter_res_In_iff {A} (g : A -> res bool) (l l' : list A) (x : A) :
  filter_res g l = Ok l' -> (In x l' <-> In x l /\ g x = Ok true).
Proof.
  intros H. split; [apply (filter_res_In _ _ _ _ H)|].
  revert l' H. induction l as [|y l IH]; intros l' H [Hx Hg]; [destruct Hx|].
  cbn in H. apply rbind_ok in H as (keep & Hk & H). apply rbind_ok in H as (rest & Hr & H).
  injection H as <-. destruct Hx as [<-|Hx].
  - rewrite Hg in Hk. injection Hk as <-. left. reflexivity.
  - destruct keep; [right|]; exact (IH rest Hr (conj Hx Hg)).
Qed.

(** [count y l]: how often [y] occurs in [l]. *)
Lemma filter_res_count (g : square -> res bool) (l l' : list square) (y : square) :
  filter_res g l = Ok l' ->
  (length (filter (sq_eqb y) l') <= length (filter (sq_eqb y) l))%nat.
Proof.
  revert l'. induction l as [|z l IH]; intros l' H; [injection H as <-; auto|].
  cbn in H. apply rbind_ok in H as (keep & _ & H). apply rbind_ok in H as (rest & Hr & H).
  injection H as <-. specialize (IH rest Hr).
  destruct keep; cbn; destruct (sq_eqb y z); cbn; lia.
Qed.

Lemma remove_first_count (y z : square) (l : list square) :
  (length (filter (sq_eqb y) (remove_first z l)) <= length (filter (sq_eqb y) l))%nat.
Proof.
  induction l as [|w l IH]; cbn; [lia|].
  destruct (sq_eqb z w); cbn; destruct (sq_eqb y w); cbn; lia.
Qed.

Lemma count_notin (y : square) (l : list square) :
  ~ In y l -> length (filter (sq_eqb y) l) = 0%nat.
Proof.
  induction l as [|w l IH]; intros H; [reflexivity|]. cbn.
  destruct (sq_eqb y w) eqn:E.
  - apply sq_eqb_eq in E. subst. exfalso. apply H. left. reflexivity.
  - apply IH. intros Hy. apply H. right. exact Hy.
Qed.

Lemma remove_first_once (y : square) (l : list square) :
  (length (filter (sq_eqb y) l) <= 1)%nat -> ~ In y (remove_first y l).
Proof.
  induction l as [|w l IH]; intros Hc; cbn; [auto|].
  cbn in Hc. destruct (sq_eqb y w) eqn:E.
  - intros Hy. assert (Hyy : sq_eqb y y = true) by (apply sq_eqb_eq; reflexivity).
    assert (Hin : In y (filter (sq_eqb y) l)) by (apply filter_In; auto).
    destruct (filter (sq_eqb y) l); [destruct Hin|cbn in Hc; lia].
  - intros [Hy|Hy]; [rewrite (proj2 (sq_eqb_eq y w) (eq_sym Hy)) in E; discriminate|].
    exact (IH Hc Hy).
Qed.

Lemma remove_first_ne (x y : square) (l : list square) :
  x <> y -> (In x (remove_first y l) <-> In x l).
Proof.
  intros Hne. split; [apply remove_first_In|].
  induction l as [|w l IH]; cbn; [auto|].
  destruct (sq_eqb y w) eqn:E.
  - apply sq_eqb_eq in E. subst. intros [H|H]; [congruence|exact H].
  - intros [H|H]; [left; exact H|right; exact (IH H)].
Qed.

Lemma cf_step (x x1 : square) (l : list square) :
  (length (filter (sq_eqb x) l) <= 1)%nat ->
  (In x (if mem_sq x l && negb (mem_sq x1 l) then remove_first x l else l) <->
   In x l /\ In x1 l).
Proof.
  intros Hc. destruct (mem_sq x l) eqn:E1, (mem_sq x1 l) eqn:E2; cbn.
  - apply mem_sq_In in E2. tauto.
  - split; [intros H; exfalso; exact (remove_first_once x l Hc H)|].
    intros [_ H]. apply mem_sq_In in H. congruence.
  - split; [intros H; apply mem_sq_In in H; congruence|tauto].
  - split; [intros H; apply mem_sq_In in H; congruence|tauto].
Qed.

Lemma cf_other (x x1 y : square) (l : list square) :
  y <> x ->
  (In y (if mem_sq x l && negb (mem_sq x1 l) then remove_first x l else l) <-> In y l).
Proof. intros Hne. destruct (_ && _); [apply remove_first_ne, Hne|reflexivity]. Qed.

Lemma cf_count (x x1 y : square) (l : list square) :
  (length (filter (sq_eqb y)
     (if mem_sq x l && negb (mem_sq x1 l) then remove_first x l else l))
   <= length (filter (sq_eqb y) l))%nat.
Proof. destruct (_ && _); [apply remove_first_count|auto]. Qed.

(** [castle_filter] keeps a castling square exactly when the one-step
    square next to it survived the simulation. *)
Lemma castle_filter_gate (r f : Z) (l : list square) :
  (length (filter (sq_eqb (r, f + 2)%Z) l) <= 1)%nat ->
  (length (filter (sq_eqb (r, f - 2)%Z) l) <= 1)%nat ->
  (In (r, f + 2) (castle_filter (r, f) l) <-> In (r, f + 2) l /\ In (r, f + 1) l) /\
  (In (r, f - 2) (castle_filter (r, f) l) <-> In (r, f - 2) l /\ In (r, f - 1) l).
Proof.
  intros Ha Hb. unfold castle_filter. cbv beta iota zeta.
  set (L1 := if mem_sq (r, f + 2) l && negb (mem_sq (r, f + 1) l)
             then remove_first (r, f + 2) l else l).
  split.
  - rewrite (cf_other (r, f - 2) (r, f - 1) (r, f + 2) L1) by (intros E; injection E; lia).
    apply cf_step, Ha.
  - rewrite (cf_step (r, f - 2) (r, f - 1) L1)
      by (eapply Nat.le_trans; [apply cf_count|exact Hb]).
    unfold L1. rewrite !cf_other by (intros E; injection E; lia). reflexivity.
Qed.

Lemma king_fields_far (S : state) (r f : Z) (c : Colour) (kf : list square) :
  king_fields S (r, f) c = Ok kf -> ~ In (r, f + 2) kf /\ ~ In (r, f - 2) kf.
Proof.
  intros H. split; intros Hin; apply (filter_res_In _ _ _ _ H) in Hin as [Hin _];
    apply in_grid in Hin as [_ Hj]; cbn [fst snd] in Hj; apply py_range_In in Hj; lia.
Qed.

Lemma king_fields_near (S : state) (r f f' : Z) (c : Colour) (kf : list square) :
  king_fields S (r, f) c = Ok kf -> 0 <= r <= 7 -> 0 <= f' <= 7 ->
  (f' = f + 1 \/ f' = f - 1) -> bget (board S) (r, f') = Ok 0 -> In (r, f') kf.
Proof.
  intros H Hr Hf Hf' Hb. apply (filter_res_In_iff _ _ _ _ H). split.
  - apply in_grid. cbn [fst snd]. split; apply py_range_In; lia.
  - rewrite Hb. reflexivity.
Qed.

(** The castling destinations [legal_moves] appends and their conditions. *)
Lemma castle_candidates_shape (S : state) (r f : Z) (c : Colour) (kf rf : list square) :
  castle_candidates S (r, f) c kf = Ok rf ->
  exists so lo : bool,
    rf = kf ++ (if so then [(r, f + 2)] else []) ++ (if lo then [(r, f - 2)] else []) /\
    (so = true <-> cget (short_castle S) c = true /\
                   bget (board S) (r, f + 1) = Ok 0 /\ bget (board S) (r, f + 2) = Ok 0) /\
    (lo = true <-> cget (long_castle S) c = true /\
                   bget (board S) (r, f - 1) = Ok 0 /\ bget (board S) (r, f - 2) = Ok 0 /\
                   bget (board S) (r, f - 3) = Ok 0).
Proof.
  intros H. unfold castle_candidates in H. cbv beta iota zeta in H.
  apply rbind_ok in H as (so & Hso & H). apply rbind_ok in H as (lo & Hlo & H).
  injection H as <-. exists so, lo. split.
  { destruct so, lo; cbn; rewrite ?app_nil_r, <- ?app_assoc; reflexivity. }
  split.
  - destruct (cget (short_castle S) c);
      [|injection Hso as <-; split; [discriminate|intros [H _]; discriminate]].
    destruct (bget (board S) (r, f + 1)) as [a|e]; cbn in Hso; [|discriminate].
    destruct (a =? 0) eqn:Ea.
    + apply Z.eqb_eq in Ea. subst a.
      destruct (bget (board S) (r, f + 2)) as [b|e]; cbn in Hso; [|discriminate].
      injection Hso as <-. rewrite Z.eqb_eq.
      split; [intros ->; auto|intros (_ & _ & E); injection E; auto].
    + apply Z.eqb_neq in Ea. injection Hso as <-.
      split; [discriminate|intros (_ & E & _); injection E; contradiction].
  - destruct (cget (long_castle S) c);
      [|injection Hlo as <-; split; [discriminate|intros [H _]; discriminate]].
    destruct (bget (board S) (r, f - 1)) as [a|e]; cbn in Hlo; [|discriminate].
    destruct (a =? 0) eqn:Ea.
    + apply Z.eqb_eq in Ea. subst a.
      destruct (bget (board S) (r, f - 2)) as [b|e]; cbn in Hlo; [|discriminate].
      destruct (b =? 0) eqn:Eb.
      * apply Z.eqb_eq in Eb. subst b.
        destruct (bget (board S) (r, f - 3)) as [d|e]; cbn in Hlo; [|discriminate].
        injection Hlo as <-. rewrite Z.eqb_eq.
        split; [intros ->; auto|intros (_ & _ & _ & E); injection E; auto].
      * apply Z.eqb_neq in Eb. injection Hlo as <-.
        split; [discriminate|intros (_ & _ & E & _); injection E; contradiction].
    + apply Z.eqb_neq in Ea. injection Hlo as <-.
      split; [discriminate|intros (_ & E & _); injection E; contradiction].
Qed.

(** [legal_moves] of a king, as [legal_pure] computes it. *)
Lemma legal_pure_king (S : state) (q : square) (c : Colour) (lm : list square) :
  bget (board S) q = Ok (piece_to_val KING c) -> legal_pure S q = Ok lm ->
  exists kf rf lm0,
    king_fields S q c = Ok kf /\ castle_candidates S q c kf = Ok rf /\
    lm_pure S q (KING, c) rf = Ok lm0 /\ lm = castle_filter q lm0.
Proof.
  intros Hb H.
  assert (Hv : val_to_piece (piece_to_val KING c) = Ok (Some (KING, c)))
    by (destruct c; reflexivity).
  assert (Hr : reachable_fields S q = king_fields S q c)
    by (unfold reachable_fields; rewrite Hb; cbn [rbind]; rewrite Hv; reflexivity).
  unfold legal_pure in H. rewrite Hr in H.
  apply rbind_ok in H as (kf & Hkf & H). rewrite Hb in H. cbn [rbind] in H.
  rewrite Hv in H. cbn [rbind] in H.
  change (piece_eqb KING KING) with true in H. cbv beta iota in H.
  apply rbind_ok in H as (rf & Hrf & H). apply rbind_ok in H as (lm0 & Hlm & H).
  injection H as <-. exists kf, rf, lm0. auto.
Qed.

Lemma neg_ok (m : res bool) : (let? chk := m in Ok (negb chk)) = Ok true <-> m = Ok false.
Proof. destruct m as [[|]|e]; cbn; split; congruence. Qed.

Lemma sq_eqb_refl (x : square) : sq_eqb x x = true.
Proof. apply sq_eqb_eq. reflexivity. Qed.

Lemma sq_eqb_ne (x y : square) : x <> y -> sq_eqb x y = false.
Proof. intros H. destruct (sq_eqb x y) eqn:E; [apply sq_eqb_eq in E; contradiction|reflexivity]. Qed.

(** Claim C3, as the code decides it. Let [(r, f)] be a square of the
    board holding a king of colour [c] on a well-formed position, and let
    [legal_moves] answer [lm] for it. If [f + 2] is a file of the board,
    [lm] contains the short castling square [(r, f + 2)] exactly when the
    short castling right of [c] is set, the squares [(r, f + 1)] and
    [(r, f + 2)] are empty, and neither the king's one-step move to
    [(r, f + 1)] nor the castling move to [(r, f + 2)] leaves [c] in check
    ([sim_check] answers false). If [2 <= f], [lm] contains the long
    castling square [(r, f - 2)] exactly when the long right is set, the
    squares [(r, f - 1)], [(r, f - 2)] and [(r, f - 3)] are empty, and the
    moves to [(r, f - 1)] and [(r, f - 2)] do not leave [c] in check. The
    king's own square is not examined. *)
Theorem castling_gate (S : state) (r f : Z) (c : Colour) (lm : list square) (S1 : state) :
  wf S -> 0 <= r <= 7 -> 0 <= f <= 7 ->
  bget (board S) (r, f) = Ok (piece_to_val KING c) ->
  legal_moves (r, f) S = (Ok lm, S1) ->
  (f + 2 <= 7 ->
     (In (r, f + 2) lm <->
      cget (short_castle S) c = true /\
      bget (board S) (r, f + 1) = Ok 0 /\ bget (board S) (r, f + 2) = Ok 0 /\
      sim_check S (r, f) (r, f + 1) (KING, c) = Ok false /\
      sim_check S (r, f) (r, f + 2) (KING, c) = Ok false)) /\
  (2 <= f ->
     (In (r, f - 2) lm <->
      cget (long_castle S) c = true /\
      bget (board S) (r, f - 1) = Ok 0 /\ bget (board S) (r, f - 2) = Ok 0 /\
      bget (board S) (r, f - 3) = Ok 0 /\
      sim_check S (r, f) (r, f - 1) (KING, c) = Ok false /\
      sim_check S (r, f) (r, f - 2) (KING, c) = Ok false)).
Proof.
  intros Hw Hr Hf Hb Hlm.
  destruct (legal_moves_ok _ _ _ _ Hw Hlm) as [Hp _].
  destruct (legal_pure_king _ _ _ _ Hb Hp) as (kf & rf & lm0 & Hkf & Hrf & Hlm0 & ->).
  destruct (castle_candidates_shape _ _ _ _ _ _ Hrf) as (so & lo & Erf & Hso & Hlo).
  destruct (king_fields_far _ _ _ _ _ Hkf) as [Hfa Hfb].
  assert (Eab : sq_eqb (r, f + 2) (r, f - 2) = false)
    by (apply sq_eqb_ne; intros E; injection E; lia).
  assert (Eba : sq_eqb (r, f - 2) (r, f + 2) = false)
    by (apply sq_eqb_ne; intros E; injection E; lia).
  assert (Ca : (length (filter (sq_eqb (r, f + 2)%Z) lm0) <= 1)%nat).
  { eapply Nat.le_trans; [exact (filter_res_count _ _ _ _ Hlm0)|]. rewrite Erf.
    rewrite !filter_app, !length_app, (count_notin _ _ Hfa).
    destruct so, lo; cbn [filter app]; rewrite ?sq_eqb_refl, ?Eab; cbn [length]; lia. }
  assert (Cb : (length (filter (sq_eqb (r, f - 2)%Z) lm0) <= 1)%nat).
  { eapply Nat.le_trans; [exact (filter_res_count _ _ _ _ Hlm0)|]. rewrite Erf.
    rewrite !filter_app, !length_app, (count_notin _ _ Hfb).
    destruct so, lo; cbn [filter app]; rewrite ?sq_eqb_refl, ?Eba; cbn [length]; lia. }
  destruct (castle_filter_gate r f lm0 Ca Cb) as [Ga Gb].
  pose proof (fun x => filter_res_In_iff _ _ _ x Hlm0) as Hin. cbv beta in Hin.
  split; intros Hf2.
  - rewrite Ga, !Hin, !neg_ok, Erf, !in_app_iff. split.
    + intros [[Ha Hsa] [_ Hsa1]].
      assert (Hs : so = true).
      { destruct Ha as [Ha|[Ha|Ha]]; [contradiction| |].
        - destruct so; [reflexivity|destruct Ha].
        - destruct lo; [|destruct Ha]. destruct Ha as [Ha|[]]. injection Ha. lia. }
      apply Hso in Hs as (Hc & H1 & H2). repeat split; assumption.
    + intros (Hc & H1 & H2 & Hs1 & Hs2).
      assert (Hs : so = true) by (apply Hso; auto). subst so.
      split; split; auto.
      * right. left. left. reflexivity.
      * left. eapply king_fields_near; [exact Hkf|exact Hr|lia|left; reflexivity|exact H1].
  - rewrite Gb, !Hin, !neg_ok, Erf, !in_app_iff. split.
    + intros [[Ha Hsa] [_ Hsa1]].
      assert (Hs : lo = true).
      { destruct Ha as [Ha|[Ha|Ha]]; [contradiction| |].
        - destruct so; [|destruct Ha]. destruct Ha as [Ha|[]]. injection Ha. lia.
        - destruct lo; [reflexivity|destruct Ha]. }
      apply Hlo in Hs as (Hc & H1 & H2 & H3). repeat split; assumption.
    + intros (Hc & H1 & H2 & H3 & Hs1 & Hs2).
      assert (Hs : lo = true) by (apply Hlo; auto). subst lo.
      split; split; auto.
      * right. right. left. reflexivity.
      * left. eapply king_fields_near; [exact Hkf|exact Hr|lia|right; reflexivity|exact H1].
Qed.

Lemma castling_gate_witness :
  let S := fen_state "4k3/8/8/8/8/8/8/R3K2R w KQ - 0 1" in
  (4 + 2 <= 7 ->
     (In (0, 4 + 2) [(0, 3); (0, 5); (1, 3); (1, 4); (1, 5); (0, 6); (0, 2)] <->
      cget (short_castle S) WHITE = true /\
      bget (board S) (0, 4 + 1) = Ok 0 /\ bget (board S) (0, 4 + 2) = Ok 0 /\
      sim_check S (0, 4) (0, 4 + 1) (KING, WHITE) = Ok false /\
      sim_check S (0, 4) (0, 4 + 2) (KING, WHITE) = Ok false)) /\
  (2 <= 4 ->
     (In (0, 4 - 2) [(0, 3); (0, 5); (1, 3); (1, 4); (1, 5); (0, 6); (0, 2)] <->
      cget (long_castle S) WHITE = true /\
      bget (board S) (0, 4 - 1) = Ok 0 /\ bget (board S) (0, 4 - 2) = Ok 0 /\
      bget (board S) (0, 4 - 3) = Ok 0 /\
      sim_check S (0, 4) (0, 4 - 1) (KING, WHITE) = Ok false /\
      sim_check S (0, 4) (0, 4 - 2) (KING, WHITE) = Ok false)).
Proof.
  intros S.
  apply (castling_gate S 0 4 WHITE [(0, 3); (0, 5); (1, 3); (1, 4); (1, 5); (0, 6); (0, 2)]
           (snd (legal_moves (0, 4) S))).
  - split; [split; [reflexivity|]|exact I]. vm_compute. repeat constructor.
  - lia.
  - lia.
  - vm_compute. reflexivity.
  - vm_compute. reflexivity.
Defined.

(** * Further properties of the code *)

(** ** Square names: [str_to_coor] and [coor_to_str] *)

Lemma tbl_get_files (ch : ascii) (v : Z) :
  tbl_get files_tbl ch = Some v ->
  0 <= v <= 7 /\ tbl_key files_tbl v = Ok ch.
Proof.
  unfold tbl_get, files_tbl. cbn [find fst].
  repeat match goal with
  | |- context [if Ascii.eqb ?a ch then _ else _] =>
      let E := fresh "E" in
      destruct (Ascii.eqb a ch) eqn:E;
        [apply Ascii.eqb_eq in E; subst ch; intros H; injection H as <-;
         split; [lia|reflexivity]|]
  end.
  discriminate.
Qed.

Lemma tbl_get_ranks (ch : ascii) (v : Z) :
  tbl_get ranks_tbl ch = Some v ->
  0 <= v <= 7 /\ tbl_key ranks_tbl v = Ok ch.
Proof.
  unfold tbl_get, ranks_tbl. cbn [find fst].
  repeat match goal with
  | |- context [if Ascii.eqb ?a ch then _ else _] =>
      let E := fresh "E" in
      destruct (Ascii.eqb a ch) eqn:E;
        [apply Ascii.eqb_eq in E; subst ch; intros H; injection H as <-;
         split; [lia|reflexivity]|]
  end.
  discriminate.
Qed.

Lemma Z_0_7 (z : Z) :
  0 <= z <= 7 -> z = 0 \/ z = 1 \/ z = 2 \/ z = 3 \/ z = 4 \/ z = 5 \/ z = 6 \/ z = 7.
Proof. lia. Qed.

(** Every square of the board has a two-character name that [str_to_coor]
    reads back as the same square. *)
Theorem coor_to_str_roundtrip (r f : Z) :
  0 <= r <= 7 -> 0 <= f <= 7 ->
  exists s, coor_to_str (r, f) = Ok s /\ str_to_coor s = Ok (r, f).
Proof.
  intros Hr Hf.
  destruct (Z_0_7 r Hr) as [-> | [-> | [-> | [-> | [-> | [-> | [-> | ->]]]]]]];
  destruct (Z_0_7 f Hf) as [-> | [-> | [-> | [-> | [-> | [-> | [-> | ->]]]]]]];
  eexists; split; reflexivity.
Qed.

Lemma coor_to_str_roundtrip_witness :
  exists s, coor_to_str (1, 4) = Ok s /\ str_to_coor s = Ok (1, 4).
Proof. apply coor_to_str_roundtrip; lia. Defined.

(** [str_to_coor] reads only the first two characters, the file letter in
    either case: a square it accepts is on the board, and [coor_to_str]
    gives back those two characters with the file letter upper-cased. *)
Theorem str_to_coor_inverse (s : string) (x : square) :
  str_to_coor s = Ok x ->
  in_range x = true /\
  exists a b rest, s = String a (String b rest) /\
                   coor_to_str x = Ok (String (upper a) (String b EmptyString)).
Proof.
  intros H. destruct s as [|a [|b rest]]; cbn in H; [discriminate| |].
  - destruct (tbl_get files_tbl (upper a)); discriminate.
  - destruct (tbl_get files_tbl (upper a)) as [file|] eqn:Ef; [|discriminate].
    destruct (tbl_get ranks_tbl b) as [rank|] eqn:Er; [|discriminate].
    injection H as <-.
    apply tbl_get_files in Ef as [Hf Kf]. apply tbl_get_ranks in Er as [Hr Kr].
    split.
    + unfold in_range. cbn [fst snd]. rewrite !andb_true_iff, !Z.leb_le. lia.
    + exists a, b, rest. split; [reflexivity|].
      unfold coor_to_str. cbn [fst snd]. rewrite Kr, Kf. reflexivity.
Qed.

Lemma str_to_coor_inverse_witness :
  str_to_coor "e2x"%string = Ok (1, 4) /\
  in_range (1, 4) = true /\
  exists a b rest, "e2x"%string = String a (String b rest) /\
                   coor_to_str (1, 4) = Ok (String (upper a) (String b EmptyString)).
Proof.
  split; [reflexivity|]. apply str_to_coor_inverse. reflexivity.
Defined.

(** [coor_to_str] of a square off the board raises [IndexError]: the
    [except KeyError] around the lookups does not catch it, so the
    intended [InvalidSquare] is never raised. *)
Theorem coor_to_str_off_board (x : square) :
  in_range x = false -> coor_to_str x = Err IndexError.
Proof.
  intros Hx. destruct x as [r f]. unfold coor_to_str. cbn [fst snd].
  destruct (tbl_key ranks_tbl r) as [cr|e] eqn:Er.
  - destruct (tbl_key files_tbl f) as [cf|e] eqn:Ef.
    + apply tbl_key_range in Er; [|left; reflexivity].
      apply tbl_key_range in Ef; [|right; reflexivity].
      unfold in_range in Hx. cbn [fst snd] in Hx.
      assert (Hin : ((0 <=? r) && (r <=? 7) && (0 <=? f) && (f <=? 7)) = true)
        by (rewrite !andb_true_iff, !Z.leb_le; lia).
      congruence.
    + cbn. unfold tbl_key in Ef. destruct (find _ _); congruence.
  - cbn. unfold tbl_key in Er. destruct (find _ _); congruence.
Qed.

Lemma coor_to_str_off_board_witness :
  in_range (8, 0) = false /\ coor_to_str (8, 0) = Err IndexError.
Proof. split; [reflexivity|]. apply coor_to_str_off_board. reflexivity. Defined.

(** [str_to_coor] fails in two ways only: [IndexError] for a string of
    fewer than two characters, or [InvalidSquare] naming the string. *)
Theorem str_to_coor_errors (s : string) (e : exn) :
  str_to_coor s = Err e ->
  (e = IndexError /\ (String.length s <= 1)%nat) \/
  e = InvalidSquare ("Invalid square: " ++ s)%string.
Proof.
  intros H. destruct s as [|a [|b rest]]; cbn in H.
  - injection H as <-. left. cbn. auto.
  - destruct (tbl_get files_tbl (upper a)); injection H as <-; [left; cbn; auto|right; reflexivity].
  - destruct (tbl_get files_tbl (upper a)); [|injection H as <-; right; reflexivity].
    destruct (tbl_get ranks_tbl b); [discriminate|injection H as <-; right; reflexivity].
Qed.

Lemma str_to_coor_errors_witness :
  str_to_coor "e"%string = Err IndexError /\
  ((IndexError = IndexError /\ (String.length "e" <= 1)%nat) \/
   IndexError = InvalidSquare ("Invalid square: " ++ "e")%string).
Proof. split; [reflexivity|]. apply str_to_coor_errors. reflexivity. Defined.

(** ** Piece values *)

(** [val_to_piece] inverts [piece_to_val] exactly: it answers a piece
    and colour for the value [piece + colour] and for no other value, and
    [None] for [0] alone. *)
Theorem val_to_piece_iff (v : Z) (p : Piece) (c : Colour) :
  (val_to_piece v = Ok (Some (p, c)) <-> v = piece_to_val p c) /\
  (val_to_piece v = Ok None <-> v = 0).
Proof.
  split; [split|split].
  - unfold val_to_piece. destruct (v =? 0); [discriminate|].
    destruct (piece_of_value _) as [p'|] eqn:Ep; [|discriminate].
    intros H. injection H as <- <-.
    apply find_some in Ep as [_ Ep]. apply Z.eqb_eq in Ep. unfold piece_to_val. lia.
  - intros ->. destruct p, c; reflexivity.
  - unfold val_to_piece. destruct (v =? 0) eqn:E; [intros _; apply Z.eqb_eq, E|].
    destruct (piece_of_value _); discriminate.
  - intros ->. reflexivity.
Qed.

(** ** The squares the move generators return *)

Lemma target_ok_of (st : state) (c c' : Colour) (x : square) (w : Z) :
  in_range x = true -> bget (board st) x = Ok w ->
  (w >? 0) = false \/ (piece_colour w = Ok c' /\ colour_eqb c' c = false) ->
  target_ok st c x.
Proof.
  intros Hr Hb Hw. split; [exact Hr|]. exists w. split; [exact Hb|].
  intros p E. subst w. destruct Hw as [Hw|[Hc He]].
  - rewrite Z.gtb_ltb in Hw. apply Z.ltb_ge in Hw. destruct p, c; cbn in Hw; lia.
  - assert (Hc' : piece_colour (piece_to_val p c) = Ok c) by (destruct p, c; reflexivity).
    rewrite Hc' in Hc. injection Hc as <-. destruct c; discriminate.
Qed.

(** The predicate of [_knight_fields] and [_king_fields] on a square. *)
Lemma target_test_ok (st : state) (c : Colour) (x : square) :
  in_range x = true ->
  (let? tar_val := bget (board st) x in
   if tar_val >? 0 then let? c' := piece_colour tar_val in Ok (negb (colour_eqb c' c))
   else Ok true) = Ok true ->
  target_ok st c x.
Proof.
  intros Hr H. apply rbind_ok in H as (w & Hb & H).
  destruct (w >? 0) eqn:Ew.
  - apply rbind_ok in H as (c' & Hc & H). injection H as H.
    apply (target_ok_of st c c' x w Hr Hb). right. split; [exact Hc|].
    destruct (colour_eqb c' c); [discriminate|reflexivity].
  - exact (target_ok_of st c c x w Hr Hb (or_introl Ew)).
Qed.

Lemma knight_fields_targets (st : state) (q : square) (c : Colour) (fs : list square) (x : square) :
  knight_fields st q c = Ok fs -> In x fs -> target_ok st c x.
Proof.
  intros H Hx. apply (filter_res_In _ _ _ _ H) in Hx as [_ Hp].
  destruct (in_range x) eqn:Hr; cbn [negb] in Hp; [|discriminate].
  exact (target_test_ok st c x Hr Hp).
Qed.

Lemma king_fields_targets (st : state) (q : square) (c : Colour) (fs : list square) (x : square) :
  king_fields st q c = Ok fs -> In x fs -> target_ok st c x.
Proof.
  intros H Hx. apply (filter_res_In _ _ _ _ H) in Hx as [Hin Hp].
  apply in_grid in Hin as [Hi Hj]. apply py_range_In in Hi, Hj.
  apply (target_test_ok st c x); [|exact Hp].
  unfold in_range. rewrite !andb_true_iff, !Z.leb_le. lia.
Qed.

Lemma ray_targets (fuel : nat) (st : state) (c : Colour) (d cur : square) (fs : list square)
  (x : square) :
  ray fuel st c d cur = Ok fs -> In x fs -> target_ok st c x.
Proof.
  revert cur fs. induction fuel as [|fuel IH]; intros cur fs H Hx; cbn in H.
  - injection H as <-. destruct Hx.
  - set (nxt := (fst cur + fst d, snd cur + snd d)) in H.
    destruct (in_range nxt) eqn:Hr; cbn [negb] in H; [|injection H as <-; destruct Hx].
    apply rbind_ok in H as (w & Hb & H). destruct (w >? 0) eqn:Ew.
    + apply rbind_ok in H as (c' & Hc & H). destruct (colour_eqb c' c) eqn:Ec;
        injection H as <-; [destruct Hx|].
      destruct Hx as [<-|[]]. apply (target_ok_of st c c' nxt w Hr Hb). auto.
    + apply rbind_ok in H as (rest & Hrest & H). injection H as <-.
      destruct Hx as [<-|Hx]; [exact (target_ok_of st c c nxt w Hr Hb (or_introl Ew))|].
      exact (IH nxt rest Hrest Hx).
Qed.

Lemma flat_map_res_In {A B} (f : A -> res (list B)) (l : list A) (ys : list B) (y : B) :
  flat_map_res f l = Ok ys -> In y ys -> exists x zs, In x l /\ f x = Ok zs /\ In y zs.
Proof.
  revert ys. induction l as [|x l IH]; intros ys H Hy; cbn in H.
  - injection H as <-. destruct Hy.
  - apply rbind_ok in H as (zs & Hz & H). apply rbind_ok in H as (rest & Hr & H).
    injection H as <-. apply in_app_iff in Hy as [Hy|Hy].
    + exists x, zs. split; [left; reflexivity|auto].
    + destruct (IH rest Hr Hy) as (x' & zs' & Hx' & Hz' & Hy'). exists x', zs'.
      split; [right; exact Hx'|auto].
Qed.

Lemma rays_targets (st : state) (q : square) (c : Colour) (dirs : list square)
  (fs : list square) (x : square) :
  flat_map_res (fun d => ray 8 st c d q) dirs = Ok fs -> In x fs -> target_ok st c x.
Proof.
  intros H Hx. destruct (flat_map_res_In _ _ _ _ H Hx) as (d & zs & _ & Hz & Hy).
  exact (ray_targets _ _ _ _ _ _ _ Hz Hy).
Qed.

(** Every square [_reachable_fields] returns for a knight, bishop, rook,
    queen or king is on the board and holds no piece of the mover's own
    colour. *)
Theorem reachable_fields_targets (st : state) (q : square) (v : Z) (k : Piece) (c : Colour)
  (fs : list square) (x : square) :
  bget (board st) q = Ok v -> val_to_piece v = Ok (Some (k, c)) -> k <> PAWN ->
  reachable_fields st q = Ok fs -> In x fs -> target_ok st c x.
Proof.
  intros Hb Hv Hk H Hx. unfold reachable_fields in H. rewrite Hb in H. cbn [rbind] in H.
  rewrite Hv in H. cbn [rbind] in H.
  destruct k; [contradiction| | | | |].
  - exact (knight_fields_targets _ _ _ _ _ H Hx).
  - exact (rays_targets _ _ _ _ _ _ H Hx).
  - exact (rays_targets _ _ _ _ _ _ H Hx).
  - apply rbind_ok in H as (f1 & H1 & H). apply rbind_ok in H as (f2 & H2 & H).
    injection H as <-. apply in_app_iff in Hx as [Hx|Hx].
    + exact (rays_targets _ _ _ _ _ _ H1 Hx).
    + exact (rays_targets _ _ _ _ _ _ H2 Hx).
  - exact (king_fields_targets _ _ _ _ _ H Hx).
Qed.

Lemma reachable_fields_targets_witness :
  bget (board start_state) (0, 1) = Ok 2 /\ target_ok start_state WHITE (2, 2).
Proof.
  split; [reflexivity|].
  apply (reachable_fields_targets start_state (0, 1) 2 KNIGHT WHITE [(2, 2); (2, 0)] (2, 2));
    [reflexivity|reflexivity|discriminate|vm_compute; reflexivity|left; reflexivity].
Defined.

(** ** [_get_pieces_by_colour] and the king search of [in_check] *)

Lemma In_combine_seq_nth {A} (l : list A) : forall (s k : nat) (y : A),
  nth_error l k = Some y -> In ((s + k)%nat, y) (combine (seq s (length l)) l).
Proof.
  induction l as [|a l IH]; intros s k y H; [destruct k; discriminate|].
  destruct k as [|k]; cbn in H |- *.
  - injection H as <-. left. f_equal. lia.
  - right. replace (s + S k)%nat with (S s + k)%nat by lia. apply IH, H.
Qed.

Lemma np_where_complete (cond : Z -> bool) (b : board_t) (x : square) :
  wf_board b -> in_range x = true -> cond (cell b x) = true -> In x (np_where cond b).
Proof.
  intros Hb Hr Hc. destruct x as [r f].
  unfold in_range in Hr. cbn [fst snd] in Hr. rewrite !andb_true_iff, !Z.leb_le in Hr.
  destruct (wf_row b (Z.to_nat r) Hb) as [row [E [Hl _]]]; [lia|].
  assert (Ej : exists v, nth_error row (Z.to_nat f) = Some v).
  { destruct (nth_error row (Z.to_nat f)) eqn:E2; [eauto|].
    apply nth_error_None in E2. lia. }
  destruct Ej as [v Ej].
  assert (Hv : cell b (r, f) = v).
  { unfold cell. cbn [fst snd]. rewrite (nth_error_nth _ _ _ E). apply (nth_error_nth _ _ _ Ej). }
  unfold np_where. apply in_map_iff. exists ((r, f), v). split; [reflexivity|].
  apply filter_In. split; [|cbn [snd]; rewrite <- Hv; exact Hc].
  unfold cells. apply in_concat.
  exists (map (fun '(j, v) => ((Z.of_nat (Z.to_nat r), Z.of_nat j), v))
              (combine (seq 0 (length row)) row)).
  split.
  - apply in_map_iff. exists (Z.to_nat r, row). split; [reflexivity|].
    exact (In_combine_seq_nth b 0 (Z.to_nat r) row E).
  - apply in_map_iff. exists (Z.to_nat f, v). split.
    + f_equal. f_equal; lia.
    + exact (In_combine_seq_nth row 0 (Z.to_nat f) v Ej).
Qed.

Lemma val_to_piece_some (v : Z) (k : Piece) (c : Colour) :
  val_to_piece v = Ok (Some (k, c)) -> v = piece_to_val k c.
Proof.
  unfold val_to_piece. destruct (v =? 0); [discriminate|].
  destruct (piece_of_value _) as [p'|] eqn:Ep; [|discriminate].
  intros H. injection H as <- <-.
  apply find_some in Ep as [_ Ep]. apply Z.eqb_eq in Ep. unfold piece_to_val. lia.
Qed.

(** On a well-formed board, [_get_pieces_by_colour] lists exactly the
    squares of the board that hold a piece of the given colour. *)
Theorem get_pieces_by_colour_spec (st : state) (c : Colour) (x : square) :
  wf_board (board st) ->
  (In x (get_pieces_by_colour st c) <->
   in_range x = true /\ exists p, bget (board st) x = Ok (piece_to_val p c)).
Proof.
  intros Hb. unfold get_pieces_by_colour. split.
  - intros H. apply np_where_in in H as (Hr & Hx & Hc); [|exact Hb].
    split; [exact Hr|].
    destruct (bget_wf _ _ Hb Hr) as [_ Hval].
    destruct (valid_val_piece _ Hval) as [[[k c']|] Hv].
    + pose proof (val_to_piece_colour _ _ _ _ Hv Hc) as ->.
      exists k. rewrite Hx. f_equal. exact (val_to_piece_some _ _ _ Hv).
    + unfold val_to_piece in Hv. destruct (cell (board st) x =? 0) eqn:E0.
      * apply Z.eqb_eq in E0. rewrite E0 in Hc. destruct c; discriminate.
      * destruct (piece_of_value _); discriminate.
  - intros [Hr [p Hx]]. apply np_where_complete; [exact Hb|exact Hr|].
    destruct (bget_wf _ _ Hb Hr) as [Hx' _]. rewrite Hx in Hx'. injection Hx' as <-.
    destruct p, c; reflexivity.
Qed.

Lemma get_pieces_by_colour_spec_witness :
  wf_board (board start_state) /\
  (In (0, 4) (get_pieces_by_colour start_state WHITE) <->
   in_range (0, 4) = true /\ exists p, bget (board start_state) (0, 4) = Ok (piece_to_val p WHITE)).
Proof.
  split; [exact (proj1 wf_start_state)|].
  apply get_pieces_by_colour_spec. exact (proj1 wf_start_state).
Defined.

(** [in_check] of a colour with no king on a well-formed board raises
    [IndexError] (the [[0]] of the empty king search). *)
Theorem in_check_no_king (st : state) (c : Colour) :
  wf_board (board st) ->
  (forall x, in_range x = true -> bget (board st) x <> Ok (piece_to_val KING c)) ->
  in_check st c = Err IndexError.
Proof.
  intros Hb Hn. unfold in_check.
  destruct (np_where _ _) as [|king rest] eqn:Hk; [reflexivity|].
  assert (Hin : In king (np_where (fun v => v =? piece_value KING + colour_value c) (board st)))
    by (rewrite Hk; left; reflexivity).
  apply np_where_in in Hin as (Hr & Hx & Hc); [|exact Hb].
  apply Z.eqb_eq in Hc. exfalso. apply (Hn king Hr). rewrite Hx, Hc. reflexivity.
Qed.

Lemma in_check_no_king_witness :
  in_check (fen_state "4k3/8/8/8/8/8/8/8 w - - 0 1") WHITE = Err IndexError.
Proof.
  apply in_check_no_king.
  - split; [reflexivity|]. vm_compute. repeat constructor.
  - intros [r f] Hr. unfold in_range in Hr. cbn [fst snd] in Hr.
    rewrite !andb_true_iff, !Z.leb_le in Hr.
    destruct (Z_0_7 r ltac:(lia)) as [-> | [-> | [-> | [-> | [-> | [-> | [-> | ->]]]]]]];
    destruct (Z_0_7 f ltac:(lia)) as [-> | [-> | [-> | [-> | [-> | [-> | [-> | ->]]]]]]];
    vm_compute; discriminate.
Defined.

(** ** Games *)

(** An accepted [move] (one that returns, or ends the game with a draw or
    checkmate) advances [_half_move_counter] by one and passes the turn to
    the other side. *)
Theorem move_switches_side (S : state) (a b : square) (pr : Piece)
  (r : res (square * square)) (S' : state) :
  wf S -> move a b pr S = (r, S') -> accepted r = true ->
  half_move_counter S' = half_move_counter S + 1 /\ toMove S' = opposite (toMove S).
Proof.
  intros Hw Hm Ha.
  destruct (move_run S a b pr r S' Hw Hm Ha)
    as (fen & k & c & cap & S1 & P & S2 & fen2 & _ & _ & _ & _ & _ & _ & Hh & _ & _ & H2).
  destruct (hist_step_with_hist _ _ _ H2) as (mv & lf & ->).
  change (half_move_counter (with_hist S2 mv lf)) with (half_move_counter S2).
  change (toMove (with_hist S2 mv lf)) with (toMove S2).
  split; [exact Hh|].
  unfold half_move_counter in Hh.
  destruct (toMove S2), (toMove S); cbn; first [reflexivity|lia].
Qed.

Lemma move_switches_side_witness :
  half_move_counter (snd (move (sq "E2") (sq "E4") QUEEN start_state)) =
    half_move_counter start_state + 1 /\
  toMove (snd (move (sq "E2") (sq "E4") QUEEN start_state)) = opposite (toMove start_state).
Proof.
  apply (move_switches_side start_state (sq "E2") (sq "E4") QUEEN
           (fst (move (sq "E2") (sq "E4") QUEEN start_state))).
  - exact wf_start_state.
  - apply surjective_pairing.
  - vm_compute. reflexivity.
Defined.

(** Every position a game reaches from the start through accepted moves
    has an 8x8 board of valid values and an en passant target on the
    board; [get_fen] succeeds on it, and the move history stores that
    record at the current half-move index. *)
Theorem reachable_positions_ok (S : state) :
  reachable S ->
  wf S /\ exists fen, get_fen S = Ok fen /\ dict_get (half_move_counter S) (moves S) = Some fen.
Proof. intros H. exact (reachable_inv S H). Qed.

Lemma reachable_positions_ok_witness :
  wf start_state /\
  exists fen, get_fen start_state = Ok fen /\
              dict_get (half_move_counter start_state) (moves start_state) = Some fen.
Proof. apply reachable_positions_ok. apply reach_start. Defined.

(** [legal_moves] undoes each simulated move: the board, the side to
    move, the en passant target, the castling rights and both clocks are
    as before, and the history is either untouched or has the current
    position's record stored at the current half-move index. *)
Theorem legal_moves_keeps_position (S : state) (q : square) (lm : list square) (S' : state) :
  wf S -> legal_moves q S = (Ok lm, S') ->
  board S' = board S /\ toMove S' = toMove S /\ enPassantTarget S' = enPassantTarget S /\
  long_castle S' = long_castle S /\ short_castle S' = short_castle S /\
  halfMoveClock S' = halfMoveClock S /\ moveCounter S' = moveCounter S /\
  (moves S' = moves S \/
   exists fen, get_fen S = Ok fen /\ moves S' = dict_set (half_move_counter S) fen (moves S)).
Proof.
  intros Hw H. destruct (legal_moves_ok S q lm S' Hw H) as [_ [-> | (fen & Hf & ->)]].
  - repeat split. left. reflexivity.
  - repeat split. right. exists fen. auto.
Qed.

Lemma legal_moves_keeps_position_witness :
  let S' := snd (legal_moves (sq "E2") start_state) in
  board S' = board start_state /\ toMove S' = toMove start_state /\
  enPassantTarget S' = enPassantTarget start_state /\
  long_castle S' = long_castle start_state /\ short_castle S' = short_castle start_state /\
  halfMoveClock S' = halfMoveClock start_state /\ moveCounter S' = moveCounter start_state /\
  (moves S' = moves start_state \/
   exists fen, get_fen start_state = Ok fen /\
               moves S' = dict_set (half_move_counter start_state) fen (moves start_state)).
Proof.
  apply (legal_moves_keeps_position start_state (sq "E2") [(2, 4); (3, 4)]).
  - exact wf_start_state.
  - vm_compute. reflexivity.
Defined.

(** On a well-formed board, [in_check] depends on the board alone: in
    particular the en passant target never changes its answer. *)
Theorem in_check_board_only (X Y : state) (c : Colour) :
  wf_board (board X) -> board X = board Y -> in_check X c = in_check Y c.
Proof. intros Hb E. exact (in_check_board X Y c Hb E). Qed.

Lemma in_check_board_only_witness :
  in_check start_state WHITE = in_check (set_ep start_state (Some (2, 4))) WHITE.
Proof. apply in_check_board_only; [exact (proj1 wf_start_state)|reflexivity]. Defined.
(** ** [Chess.move_notation] *)

(** The simulation loop's answer, also when a simulation raises. *)
Lemma lm_loop_res (q : square) (p : Piece * Colour) (S0 : state) (fen0 : string) :
  wf S0 -> get_fen S0 = Ok fen0 ->
  forall rf lm mv lf,
  fst (lm_loop q p rf lm (with_hist S0 mv lf)) = (let? l := lm_pure S0 q p rf in Ok (lm ++ l)%list).
Proof.
  intros Hwf Hf rf. induction rf as [|f rf IH]; intros lm mv lf.
  - cbn. rewrite app_nil_r. reflexivity.
  - cbn [lm_loop]. unfold mbind at 1.
    rewrite (push_move_hist _ _ _ _ _ _ _ _ Hf).
    unfold lm_pure. cbn [filter_res]. unfold sim_check at 1.
    destruct (push_move q f p QUEEN S0) as [[u|e] s1] eqn:EP; cbn [fst snd rbind]; [|reflexivity].
    unfold mbind at 1, gets. rewrite in_check_hist.
    destruct (in_check s1 (snd p)) as [chk|e] eqn:EC; cbn [rbind]; [|reflexivity].
    unfold mbind at 1, pop_move, mbind at 1, get_state.
    cbn [lastFen with_hist].
    rewrite (set_fen_get_fen S0 fen0 Hwf Hf). cbn [moves with_hist].
    rewrite IH. unfold lm_pure.
    destruct (filter_res _ rf) as [l|e]; cbn [rbind]; [|reflexivity].
    destruct chk; cbn; [reflexivity|rewrite <- app_assoc; reflexivity].
Qed.

(** [legal_moves] answers [legal_pure], exception or list. *)
Lemma legal_moves_res (S : state) (q : square) :
  wf S -> fst (legal_moves q S) = legal_pure S q.
Proof.
  intros Hwf. destruct (get_fen_ok S Hwf) as [fen0 Hf].
  unfold legal_moves, legal_pure. unfold mbind at 1, gets.
  destruct (reachable_fields S q) as [rf|e]; [|reflexivity]. cbn [rbind].
  unfold mbind at 1, m_bget, gets.
  destruct (bget (board S) q) as [v|e]; [|reflexivity]. cbn [rbind].
  unfold mbind at 1, lift.
  destruct (val_to_piece v) as [[[k c]|]|e]; [| |reflexivity]; cbn [rbind].
  2: reflexivity.
  unfold mbind at 1.
  destruct (piece_eqb k KING).
  - unfold gets. destruct (castle_candidates S q c rf) as [rf'|e]; [|reflexivity].
    cbn [rbind]. unfold mbind.
    replace (lm_loop q (k, c) rf' [] S)
      with (lm_loop q (k, c) rf' [] (with_hist S (moves S) (lastFen S)))
      by (rewrite with_hist_self; reflexivity).
    generalize (lm_loop_res q (k, c) S fen0 Hwf Hf rf' [] (moves S) (lastFen S)).
    destruct (lm_loop q (k, c) rf' [] (with_hist S (moves S) (lastFen S))) as [r S1].
    cbn [fst]. intros ->. destruct (lm_pure S q (k, c) rf'); reflexivity.
  - unfold ret at 1. cbn beta iota. unfold mbind.
    replace (lm_loop q (k, c) rf [] S)
      with (lm_loop q (k, c) rf [] (with_hist S (moves S) (lastFen S)))
      by (rewrite with_hist_self; reflexivity).
    generalize (lm_loop_res q (k, c) S fen0 Hwf Hf rf [] (moves S) (lastFen S)).
    destruct (lm_loop q (k, c) rf [] (with_hist S (moves S) (lastFen S))) as [r S1].
    cbn [fst]. intros ->. cbn [rbind]. destruct (lm_pure S q (k, c) rf); reflexivity.
Qed.

Lemma filter_res_ext {A} (f g : A -> res bool) (l : list A) :
  (forall x, f x = g x) -> filter_res f l = filter_res g l.
Proof.
  intros H. induction l as [|x l IH]; [reflexivity|]. cbn. rewrite H, IH. reflexivity.
Qed.

Lemma sim_check_hist (S : state) mv lf (a b : square) (p : Piece * Colour) :
  wf S -> sim_check (with_hist S mv lf) a b p = sim_check S a b p.
Proof.
  intros Hw. destruct (get_fen_ok S Hw) as [fen Hf]. unfold sim_check.
  rewrite (push_move_hist _ _ _ _ _ _ _ _ Hf).
  destruct (push_move a b p QUEEN S) as [[u|e] s1]; cbn [fst snd]; [apply in_check_hist|reflexivity].
Qed.

Lemma legal_pure_hist (S : state) mv lf (q : square) :
  wf S -> legal_pure (with_hist S mv lf) q = legal_pure S q.
Proof.
  intros Hw. unfold legal_pure.
  change (reachable_fields (with_hist S mv lf) q) with (reachable_fields S q).
  change (board (with_hist S mv lf)) with (board S).
  destruct (reachable_fields S q) as [rf|e]; [|reflexivity]. cbn [rbind].
  destruct (bget (board S) q) as [v|e]; [|reflexivity]. cbn [rbind].
  destruct (val_to_piece v) as [[[k c]|]|e]; cbn [rbind]; try reflexivity.
  change (castle_candidates (with_hist S mv lf) q c rf) with (castle_candidates S q c rf).
  destruct (if piece_eqb k KING then castle_candidates S q c rf else Ok rf) as [rf'|e];
    cbn [rbind]; [|reflexivity].
  unfold lm_pure. rewrite (filter_res_ext _ (fun f => let? chk := sim_check S q f (k, c) in Ok (negb chk))).
  - reflexivity.
  - intros f. rewrite sim_check_hist by exact Hw. reflexivity.
Qed.

(** The loop over the candidate pieces of [move_notation]: it keeps the
    pieces whose legal moves reach [dest], and touches only the history. *)
Lemma eligible_loop_run (S : state) (fen : string) (dest : square) :
  wf S -> get_fen S = Ok fen ->
  forall ps el T r T', hist_step S fen T -> eligible_loop ps dest el T = (r, T') ->
  r = (let? l := filter_res (fun i => let? lm := legal_pure S i in Ok (mem_sq dest lm)) ps
       in Ok (el ++ l)%list) /\
  (forall x, r = Ok x -> hist_step S fen T').
Proof.
  intros Hw Hf ps. induction ps as [|i ps IH]; intros el T r T' HT H.
  - cbn in H. injection H as <- <-. cbn. rewrite app_nil_r. split; [reflexivity|]. intros; exact HT.
  - cbn [eligible_loop] in H. unfold mbind at 1 in H.
    assert (HwT : wf T) by (eapply hist_step_wf; eauto).
    pose proof (legal_moves_res T i HwT) as HR.
    destruct (hist_step_with_hist _ _ _ HT) as (mv & lf & ET).
    rewrite ET, legal_pure_hist in HR by exact Hw. rewrite <- ET in HR.
    cbn [filter_res]. rewrite <- HR.
    destruct (legal_moves i T) as [[lm|e] T1] eqn:EL; cbn [fst rbind].
    + assert (HT1 : hist_step S fen T1).
      { eapply hist_step_trans; [exact HT|]. eapply legal_moves_step; [exact HwT| |exact EL].
        rewrite (hist_step_get_fen _ _ _ HT). exact Hf. }
      destruct (IH _ _ _ _ HT1 H) as [-> HS]. split; [|exact HS].
      destruct (filter_res _ ps) as [l|e]; cbn [rbind]; [|reflexivity].
      destruct (mem_sq dest lm); [rewrite <- app_assoc|]; reflexivity.
    + injection H as <- <-. split; [reflexivity|discriminate].
Qed.

Lemma square_group_no_rank (a f : ascii) (rest : string) :
  in_class "12345678" f = false -> square_group (String a (String f rest)) = None.
Proof. intros Hf. unfold square_group. rewrite Hf, andb_false_r. reflexivity. Qed.

(** [move_notation]: the regex has no [h] in its disambiguation class
    [[abcdefg]], so a piece move naming the h-file as its origin, such as
    ["Nhf3"] or ["Rhxe1"], matches nowhere and is refused as an invalid
    move, the state unchanged. *)
Theorem move_notation_h_file_rejected (S : state) (p f : ascii) (rest : string) :
  in_class "KQBNR" p = true -> in_class "12345678" f = false ->
  move_notation (String p (String "h" (String f rest))) S =
    (Err (ChessException ("Invalid move: " ++ String p (String "h" (String f rest)))), S).
Proof.
  intros Hp Hf.
  destruct p as [[] [] [] [] [] [] [] []]; try discriminate Hp;
    unfold move_notation, notation_match; cbn -[square_group];
    rewrite (square_group_no_rank _ _ _ Hf); reflexivity.
Qed.

Lemma move_notation_h_file_rejected_witness :
  move_notation "Nhf3" start_state =
    (Err (ChessException ("Invalid move: " ++ "Nhf3")), start_state).
Proof. apply (move_notation_h_file_rejected start_state "N" "f" "3"); reflexivity. Defined.








Lemma first_some_In {A B} (f : A -> option B) (l : list A) (b : B) :
  first_some f l = Some b -> exists a, In a l /\ f a = Some b.
Proof.
  induction l as [|a l IH]; cbn; [discriminate|].
  destruct (f a) eqn:E; [intros [= <-]; eauto|].
  intros H. destruct (IH H) as (a' & Ha & Hf). eauto.
Qed.

Lemma opt_group_some (cls s s' : string) (ch : ascii) :
  In (Some ch, s') (opt_group cls s) -> in_class cls ch = true.
Proof.
  destruct s as [|c s]; cbn; [intros [H|[]]; discriminate|].
  destruct (in_class cls c) eqn:E; cbn; intros H; repeat destruct H as [H|H];
    try discriminate; try contradiction.
  injection H as -> _. exact E.
Qed.

(** The piece group of a match is one of [KQBNR]. *)
Lemma notation_match_piece (s : string) (ch : ascii) g2 g3 g4 :
  notation_match s = Some (Some ch, g2, g3, g4) -> in_class "KQBNR" ch = true.
Proof.
  unfold notation_match. intros H.
  apply first_some_In in H as ([g1 s1] & Hin & H).
  apply first_some_In in H as ([g2' s2] & _ & H).
  apply first_some_In in H as ([g3' s3] & _ & H).
  apply first_some_In in H as ([x s4] & _ & H).
  destruct (square_group s4); cbn in H; [|discriminate].
  injection H as -> _ _ _. exact (opt_group_some _ _ _ _ Hin).
Qed.

Lemma disambiguate_incl (dr df : option Z) (l : list square) (x : square) :
  In x (disambiguate dr df l) -> In x l.
Proof.
  unfold disambiguate. destruct (1 <? length l)%nat; [|auto].
  destruct dr as [r|], df as [f|]; intros H;
    repeat match goal with H : In _ (filter _ _) |- _ => apply filter_In in H as [H _] end;
    exact H.
Qed.

Lemma piece_letter_val (ch : ascii) (c : Colour) (val : Z) :
  in_class "KQBNRP" ch = true ->
  lookup_piece_letter (match c with BLACK => lower ch | WHITE => ch end) = Some val ->
  exists p, val = piece_to_val p c /\ valuePieces (piece_to_val p WHITE) = Some ch.
Proof.
  intros Hc. destruct ch as [[] [] [] [] [] [] [] []]; try discriminate Hc;
    destruct c; cbn; intros [= <-];
    first [exists KING; split; reflexivity | exists QUEEN; split; reflexivity
          | exists BISHOP; split; reflexivity | exists KNIGHT; split; reflexivity
          | exists ROOK; split; reflexivity | exists PAWN; split; reflexivity].
Qed.

(** [move_notation]: a notation that is not a castling and that returns
    plays [move] from a square holding a piece of the side to move, of the
    kind the piece letter names (a pawn without one), to the square of the
    match's last group, a square [legal_moves] lists for that piece; the
    state [move] starts from is the position before, its history at most
    rewritten by the [legal_moves] calls. *)
Theorem move_notation_sound (S : state) (n : string) (g1 g2 g3 : option ascii) (g4 : string)
  (r : square * square) (S' : state) :
  wf S -> String.eqb "O-O" n = false -> String.eqb "O-O-O" n = false ->
  notation_match n = Some (g1, g2, g3, g4) ->
  move_notation n S = (Ok r, S') ->
  exists start dest p lm fen T,
    str_to_coor g4 = Ok dest /\
    in_range start = true /\
    bget (board S) start = Ok (piece_to_val p (toMove S)) /\
    valuePieces (piece_to_val p WHITE) = Some (match g1 with Some ch => ch | None => "P"%char end) /\
    legal_pure S start = Ok lm /\ In dest lm /\
    get_fen S = Ok fen /\ hist_step S fen T /\ move start dest QUEEN T = (Ok r, S').
Proof.
  intros Hw H1 H2 HM H.
  destruct (get_fen_ok S Hw) as [fen Hf].
  unfold move_notation in H. rewrite H1, H2, HM in H.
  unfold mbind at 1, lift in H.
  destruct (match g2, g1 with
            | Some f, Some _ => let? v := subscript (tbl_get files_tbl (upper f)) in Ok (Some v)
            | _, _ => Ok None
            end) as [df|e]; [|discriminate].
  unfold mbind at 1, lift in H.
  destruct (match g3 with
            | Some r => let? v := subscript (tbl_get ranks_tbl r) in Ok (Some v)
            | None => Ok None
            end) as [dr|e]; [|discriminate].
  unfold mbind at 1, lift in H.
  destruct (str_to_coor g4) as [dest|e] eqn:Ed; [|discriminate].
  unfold mbind at 1, get_state in H.
  unfold mbind at 1, lift in H.
  set (pl := match g1 with Some ch => ch | None => "P"%char end) in H |- *.
  destruct (lookup_piece_letter (match toMove S with BLACK => lower pl | WHITE => pl end))
    as [val|] eqn:Ev; cbn [subscript] in H; [|discriminate].
  unfold mbind at 1 in H.
  destruct (eligible_loop (np_where (fun v => (v =? val)%Z) (board S)) dest [] S)
    as [[el|e] T] eqn:EL; [|discriminate].
  destruct (eligible_loop_run S fen dest Hw Hf _ _ _ _ _ (hist_step_refl S fen) EL) as [Hr HT].
  specialize (HT el eq_refl).
  apply eq_sym, rbind_ok in Hr as (l & Hl & Hel). injection Hel as <-.
  destruct (disambiguate dr df l) as [|start [|y l']] eqn:ED; try discriminate.
  assert (Hs : In start l) by (apply (disambiguate_incl dr df); rewrite ED; left; reflexivity).
  apply (filter_res_In _ _ _ _ Hl) in Hs as [Hs Hg].
  apply rbind_ok in Hg as (lm & Hlm & Hmem). injection Hmem as Hmem.
  destruct (np_where_in _ _ _ (proj1 Hw) Hs) as (Hsr & Hsb & Hsc).
  apply Z.eqb_eq in Hsc. rewrite Hsc in Hsb.
  assert (Hpl : in_class "KQBNRP" pl = true).
  { unfold pl. destruct g1 as [ch|]; [|reflexivity].
    pose proof (notation_match_piece _ _ _ _ _ HM) as Hc.
    destruct ch as [[] [] [] [] [] [] [] []]; try discriminate Hc; reflexivity. }
  destruct (piece_letter_val pl (toMove S) val Hpl Ev) as (p & -> & Hp).
  exists start, dest, p, lm, fen, T.
  repeat split; try assumption. apply mem_sq_In. exact Hmem.
Qed.

Lemma move_notation_sound_witness :
  exists start dest p lm fen T,
    str_to_coor "f3" = Ok dest /\
    in_range start = true /\
    bget (board start_state) start = Ok (piece_to_val p (toMove start_state)) /\
    valuePieces (piece_to_val p WHITE) = Some "N"%char /\
    legal_pure start_state start = Ok lm /\ In dest lm /\
    get_fen start_state = Ok fen /\ hist_step start_state fen T /\
    move start dest QUEEN T = (Ok ((0, 6), (2, 5)), snd (move_notation "Nf3" start_state)).
Proof.
  apply (move_notation_sound start_state "Nf3" (Some "N"%char) None None "f3" ((0, 6), (2, 5))
           (snd (move_notation "Nf3" start_state))).
  - exact wf_start_state.
  - reflexivity.
  - reflexivity.
  - vm_compute. reflexivity.
  - vm_compute. reflexivity.
Defined.

Lemma repr_char_dash (v : Z) : valid_val v = true -> (repr_char v = "-"%char <-> v = 0).
Proof.
  unfold valid_val, repr_char. intros Hv.
  destruct (valuePieces v) as [ch|] eqn:E.
  - unfold valuePieces in E. destruct (find (fun kv : ascii * Z => (snd kv =? v)%Z) pieceValues) as [[k x]|] eqn:F;
      [|discriminate]. cbn in E. injection E as <-.
    apply find_some in F as [Hin Hx]. cbn [snd] in Hx. apply Z.eqb_eq in Hx. subst x.
    split; [|intros ->; cbn in Hin; repeat destruct Hin as [Hin|Hin]; try discriminate Hin; contradiction].
    intros ->. cbn in Hin. repeat destruct Hin as [Hin|Hin]; try discriminate Hin; contradiction.
  - rewrite orb_false_r in Hv. apply Z.eqb_eq in Hv. split; auto.
Qed.

Ltac row8 H :=
  let r := match type of H with length ?r = _ => r end in
  destruct r as [|? [|? [|? [|? [|? [|? [|? [|? [|? ?]]]]]]]]]; try discriminate H.

(** [__repr__]: on a board of eight rows of eight valid values the text
    has 72 characters, nine per rank from rank 8 down to rank 1; square
    [(r, f)] is shown at index [9 * (7 - r) + f] as its [valuePieces]
    letter, or ["-"] exactly when it is empty; each rank ends in a newline. *)
Theorem repr_layout (st : state) :
  wf_board (board st) ->
  String.length (repr st) = 72%nat /\
  (forall r f, 0 <= r <= 7 -> 0 <= f <= 7 ->
     String.get (Z.to_nat (9 * (7 - r) + f)) (repr st) = Some (repr_char (cell (board st) (r, f))) /\
     (repr_char (cell (board st) (r, f)) = "-"%char <-> cell (board st) (r, f) = 0)) /\
  (forall k, (k < 8)%nat -> String.get (9 * k + 8) (repr st) = Some "010"%char).
Proof.
  intros Hb. pose proof Hb as [Hl Hf]. unfold repr.
  assert (Hd : forall r f, 0 <= r <= 7 -> 0 <= f <= 7 ->
            (repr_char (cell (board st) (r, f)) = "-"%char <-> cell (board st) (r, f) = 0)).
  { intros r f Hr Hf'. apply repr_char_dash. apply (bget_wf (board st) (r, f) Hb).
    unfold in_range. cbn [fst snd]. apply andb_true_iff; split; [apply andb_true_iff; split;
      [apply andb_true_iff; split|]|]; apply Z.leb_le; lia. }
  revert Hd. destruct (board st) as [|r0 [|r1 [|r2 [|r3 [|r4 [|r5 [|r6 [|r7 [|]]]]]]]]];
    try discriminate Hl. intros Hd.
  repeat (let H := fresh "Hlen" in apply Forall_cons_iff in Hf as [[H _] Hf]; row8 H).
  split; [reflexivity|split].
  - intros r f Hr Hf'. split; [|apply Hd; assumption].
    destruct (Z_0_7 r Hr) as [-> | [-> | [-> | [-> | [-> | [-> | [-> | ->]]]]]]];
    destruct (Z_0_7 f Hf') as [-> | [-> | [-> | [-> | [-> | [-> | [-> | ->]]]]]]];
    reflexivity.
  - intros k Hk. do 8 (destruct k as [|k]; [reflexivity|]). lia.
Qed.

Lemma repr_layout_witness :
  let st := start_state in
  String.length (repr st) = 72%nat /\
  (forall r f, 0 <= r <= 7 -> 0 <= f <= 7 ->
     String.get (Z.to_nat (9 * (7 - r) + f)) (repr st) = Some (repr_char (cell (board st) (r, f))) /\
     (repr_char (cell (board st) (r, f)) = "-"%char <-> cell (board st) (r, f) = 0)) /\
  (forall k, (k < 8)%nat -> String.get (9 * k + 8) (repr st) = Some "010"%char).
Proof. intros st. apply repr_layout. exact (proj1 wf_start_state). Defined.

Lemma colour_eqb_false (a b : Colour) : colour_eqb a b = false -> a <> b.
Proof. destruct a, b; cbn; congruence. Qed.

Ltac pawn_capture :=
  repeat split;
  first [ assumption | lia | apply colour_eqb_false; assumption
        | match goal with H : bget _ ?p = Ok ?w |- bget _ ?q = Ok ?w =>
            rewrite <- H; f_equal; f_equal; lia end ].

(** ** [Chess._pawn_fields] *)

(** [_pawn_fields]: a pawn's fields are the square in front when empty, the
    one two ahead from its start rank when both are empty, a front diagonal
    that holds a piece of the other colour (tested only when the diagonal
    has a file on the board), and the en passant target when it is a front
    diagonal. *)
Theorem pawn_fields_moves (st : state) (r f : Z) (c : Colour) (fs : list square) (x : square) :
  pawn_fields st (r, f) c = Ok fs -> In x fs ->
  let d := match c with WHITE => 1 | BLACK => -1 end in
  (x = (r + d, f) /\ bget (board st) x = Ok 0) \/
  (x = (r + 2 * d, f) /\ r = match c with WHITE => 1 | BLACK => 6 end /\
     bget (board st) (r + d, f) = Ok 0 /\ bget (board st) x = Ok 0) \/
  ((x = (r + d, f - 1) /\ 0 < f \/ x = (r + d, f + 1) /\ f < 7) /\
     exists v c', bget (board st) x = Ok v /\ v > 0 /\ piece_colour v = Ok c' /\ c' <> c) \/
  ((x = (r + d, f - 1) \/ x = (r + d, f + 1)) /\ enPassantTarget st = Some x).
Proof.
  intros H Hx d.
  unfold pawn_fields in H. apply rbind_ok in H as (fields & Hb & H).
  assert (Hx' : In x fields \/
                ((x = (r + d, f - 1) \/ x = (r + d, f + 1)) /\ enPassantTarget st = Some x)).
  { subst d. destruct c; cbn [pawn_diags fst snd] in H;
    (destruct (enPassantTarget st) as [e|];
      [destruct (sq_eqb e _ || sq_eqb e _) eqn:Eq| ]); injection H as <-;
      try (left; exact Hx);
      (apply in_app_iff in Hx as [Hx|[<-|[]]]; [left; exact Hx|right]);
      apply orb_true_iff in Eq as [Eq|Eq]; apply sq_eqb_eq in Eq; subst e;
      (split; [|reflexivity]); first [left; f_equal; lia | right; f_equal; lia]. }
  destruct Hx' as [Hx'|Hx']; [|right; right; right; exact Hx'].
  clear H Hx. rename Hx' into Hx.
  unfold pawn_base in Hb. subst d.
  destruct c; cbn [fst snd] in Hb;
    apply rbind_ok in Hb as (v & Hv & Hb); apply rbind_ok in Hb as (f1 & Hf1 & Hb);
    apply rbind_ok in Hb as (f2 & Hf2 & Hb);
    (destruct (v =? 0) eqn:E0;
      [destruct (r =? _) eqn:E1;
        [apply rbind_ok in Hf1 as (v2 & Hv2 & Hf1); destruct (v2 =? 0) eqn:E2|]|]);
    injection Hf1 as <-;
    (destruct (f >? 0) eqn:G1;
      [apply rbind_ok in Hf2 as (d1 & Hd1 & Hf2); destruct (d1 >? 0) eqn:D1;
        [apply rbind_ok in Hf2 as (c1 & Hc1 & Hf2); destruct (colour_eqb c1 _) eqn:C1|]|]);
    injection Hf2 as <-;
    (destruct (f <? 7) eqn:G2;
      [apply rbind_ok in Hb as (d2 & Hd2 & Hb); destruct (d2 >? 0) eqn:D2;
        [apply rbind_ok in Hb as (c2 & Hc2 & Hb); destruct (colour_eqb c2 _) eqn:C2|]|]);
    injection Hb as <-;
    repeat rewrite in_app_iff in Hx; cbn [In] in Hx;
    repeat match goal with H : _ \/ _ |- _ => destruct H as [H|H] end;
    try contradiction; subst x;
    repeat match goal with
           | H : (_ =? _) = true |- _ => apply Z.eqb_eq in H
           | H : (_ >? _) = true |- _ => apply Z.gtb_lt in H
           | H : (_ <? _) = true |- _ => apply Z.ltb_lt in H
           end; subst;
    first
      [ left; split; [f_equal; lia|];
        first [exact Hv | rewrite <- Hv; f_equal; f_equal; lia]
      | right; left; split; [f_equal; lia|]; split; [reflexivity|]; split;
        first [exact Hv | rewrite <- Hv; f_equal; f_equal; lia
              | exact Hv2 | rewrite <- Hv2; f_equal; f_equal; lia]
      | right; right; left; split;
        [ first [left; split; [f_equal; lia|lia] | right; split; [f_equal; lia|lia]]
        | first [exists d1, c1; pawn_capture | exists d2, c2; pawn_capture] ] ].
Qed.

Lemma pawn_fields_moves_witness :
  let d := 1 in
  ((3, 4) = (1 + d, 4) /\ bget (board start_state) (3, 4) = Ok 0) \/
  ((3, 4) = (1 + 2 * d, 4) /\ 1 = 1 /\
     bget (board start_state) (1 + d, 4) = Ok 0 /\ bget (board start_state) (3, 4) = Ok 0) \/
  (((3, 4) = (1 + d, 4 - 1) /\ 0 < 4 \/ (3, 4) = (1 + d, 4 + 1) /\ 4 < 7) /\
     exists v c', bget (board start_state) (3, 4) = Ok v /\ v > 0 /\
                  piece_colour v = Ok c' /\ c' <> WHITE) \/
  (((3, 4) = (1 + d, 4 - 1) \/ (3, 4) = (1 + d, 4 + 1)) /\
     enPassantTarget start_state = Some (3, 4)).
Proof.
  apply (pawn_fields_moves start_state 1 4 WHITE [(2, 4); (3, 4)] (3, 4)).
  - vm_compute. reflexivity.
  - right. left. reflexivity.
Defined.
